(** * The xv6 MLFQ / stride scheduler and its thread layer

    A shallow embedding of [mlfq.c] (the variant that carries thread
    indices, i.e. the one [proc.c] is written against) and of the parts of
    [proc.c] that create processes, wake sleepers and join threads.

    Conventions of the embedding.
    - C arrays are lists whose length is the array bound; the bound is part
      of the well-formedness predicates below.
    - [struct proc*] values are [Null] (0), [MlfqProc] ((struct proc* )-1)
      or [Proc i] (the address of [ptable.proc[i]]).
    - [int] and [uint] are [Z] with the 32-bit wrap-around written out.
    - [float] pass values are IEEE 754 binary32 numbers, among them the
      infinities and the values that are not numbers; sums, differences
      and quotients are rounded to the nearest float, ties to even.
    - Dereferencing a pointer that is not a process, indexing outside an
      array and [panic] are outcomes of the [result] monad.
    - [acquire]/[release] of [ptable.lock] bracket the bodies and are not
      part of the state. *)

From Stdlib Require Import ZArith QArith Lia Floats.SpecFloat.
From stdpp Require Import base decidable option list strings.

Local Open Scope Z_scope.

(** ** Configuration constants

    [param.h] and [mlfq.h] are not among the sources, so their constants
    are parameters of the development. *)

Class Config : Type := {
  NPROC : nat;      (* param.h: size of the process table *)
  NTHREAD : nat;    (* param.h: threads per process *)
  MAXTICKET : Z;    (* mlfq.h: tickets shared by all participants *)
  MAXSTRIDE : Z;    (* mlfq.h: most tickets the stride processes may hold *)
  MAXPASS : Z;      (* mlfq.h: pass value that triggers the rescale *)
  SCALEPASS : Z;    (* mlfq.h: window kept by the rescale *)
}.

(** [mlfq_init] fills the levels from two static tables of three entries
    and [mlfq_log] prints three levels. *)
Definition NMLFQ : nat := 3.

(** ** Machine integers *)

Definition INT_MIN : Z := - 2 ^ 31.
Definition INT_MAX : Z := 2 ^ 31 - 1.
Definition UINT_MAX : Z := 2 ^ 32 - 1.

Definition wrap_int (z : Z) : Z := (z + 2 ^ 31) mod 2 ^ 32 - 2 ^ 31.
Definition wrap_uint (z : Z) : Z := z mod 2 ^ 32.

Definition int_add (a b : Z) : Z := wrap_int (a + b).
Definition int_sub (a b : Z) : Z := wrap_int (a - b).
Definition uint_sub (a b : Z) : Z := wrap_uint (a - b).

Definition is_int (z : Z) : Prop := INT_MIN <= z <= INT_MAX.
Definition is_uint (z : Z) : Prop := 0 <= z <= UINT_MAX.

(** ** Pass values

    [float] is the binary32 format of IEEE 754: a significand of 24 bits
    and exponents below 128.  An operation on [float] operands gives the
    exact result rounded to the nearest float, ties to even, with no wider
    format in between; an [int] operand is converted first, with the same
    rounding.  The constants MAXTICKET, MAXPASS and SCALEPASS are taken as
    [int] constants, so [MAXPASS - SCALEPASS] is an [int] difference. *)

Definition f32 : Type := spec_float.

Definition f32_of_int (z : Z) : f32 := binary_normalize 24 128 z 0 false.
Definition f32_add : f32 → f32 → f32 := SFadd 24 128.
Definition f32_sub : f32 → f32 → f32 := SFsub 24 128.
Definition f32_div : f32 → f32 → f32 := SFdiv 24 128.

(** [x < y], [x <= y] and [x == y]; each is false as soon as an operand is
    not a number. *)
Definition f32_ltb : f32 → f32 → bool := SFltb.
Definition f32_leb : f32 → f32 → bool := SFleb.
Definition f32_eqb : f32 → f32 → bool := SFeqb.

(** [pass[i] == -1] marks an unused slot. *)
Definition NOPASS : f32 := f32_of_int (-1).
Definition is_nopass (x : f32) : bool := f32_eqb x NOPASS.

#[global] Instance f32_inhabited : Inhabited f32 := populate (f32_of_int 0).

#[global] Instance f32_eq_dec : EqDecision f32.
Proof. solve_decision. Defined.

(** ** Data model *)

Inductive procstate : Set :=
  UNUSED | EMBRYO | SLEEPING | RUNNABLE | RUNNING | ZOMBIE.

#[global] Instance procstate_eq_dec : EqDecision procstate.
Proof. solve_decision. Defined.

Inductive procptr : Set :=
  | Null
  | MlfqProc
  | Proc (i : nat).

#[global] Instance procptr_eq_dec : EqDecision procptr.
Proof. solve_decision. Defined.

#[global] Instance procptr_inhabited : Inhabited procptr := populate Null.

(** Return codes of [mlfq.h]; only their being distinct matters. *)
Inductive verdict : Set := MLFQ_KEEP | MLFQ_NEXT.
Inductive append_status : Set := MLFQ_SUCCESS | MLFQ_FULL_QUEUE.

#[global] Instance verdict_eq_dec : EqDecision verdict.
Proof. solve_decision. Defined.

(** [struct thread].  The trap frame and the saved context live inside the
    kernel stack page and are not modelled. *)
Record thread : Set := mkThread {
  t_state : procstate;
  tid : Z;
  kstack : Z;
  chan : Z;
  retval : Z;
}.

(** The scheduler record embedded in [struct proc] ([p->mlfq]).  [index]
    is only ever assigned the offset of a slot inside an array; [elapsed]
    and [start] hold tick counts, which are [uint] values. *)
Record schedinfo : Set := mkInfo {
  level : Z;
  index : nat;
  elapsed : Z;
  start : Z;
}.

(** [struct proc], without the name, the open files and the working
    directory. *)
Record proc : Set := mkProc {
  state : procstate;
  pid : Z;
  killed : Z;
  tidx : nat;
  sz : Z;
  pgdir : Z;
  parent : procptr;
  threads : list thread;
  kstacks : list Z;
  ustacks : list Z;
  pmlfq : schedinfo;
}.

(** [struct stride]. *)
Record stride : Type := mkStride {
  s_quantum : Z;
  total : Z;
  pass : list f32;
  ticket : list Z;
  s_queue : list procptr;
}.

(** [struct mlfq].  [iterstate[i]] points into [queue[i]]; it is kept as
    the offset of the entry it points to. *)
Record mlfq : Type := mkMlfq {
  quantum : list Z;
  expire : list Z;
  queue : list (list procptr);
  iterstate : list nat;
  metasched : stride;
}.

(** The globals of [proc.c]. *)
Record kernel : Type := mkKernel {
  ptable : list proc;
  sched : mlfq;
  nextpid : Z;
  nexttid : Z;
}.

(** *** Field updates *)

Definition set_state (v : procstate) (p : proc) : proc :=
  mkProc v (pid p) (killed p) (tidx p) (sz p) (pgdir p) (parent p)
         (threads p) (kstacks p) (ustacks p) (pmlfq p).
Definition set_pid (v : Z) (p : proc) : proc :=
  mkProc (state p) v (killed p) (tidx p) (sz p) (pgdir p) (parent p)
         (threads p) (kstacks p) (ustacks p) (pmlfq p).
Definition set_tidx (v : nat) (p : proc) : proc :=
  mkProc (state p) (pid p) (killed p) v (sz p) (pgdir p) (parent p)
         (threads p) (kstacks p) (ustacks p) (pmlfq p).
Definition set_sz (v : Z) (p : proc) : proc :=
  mkProc (state p) (pid p) (killed p) (tidx p) v (pgdir p) (parent p)
         (threads p) (kstacks p) (ustacks p) (pmlfq p).
Definition set_pgdir (v : Z) (p : proc) : proc :=
  mkProc (state p) (pid p) (killed p) (tidx p) (sz p) v (parent p)
         (threads p) (kstacks p) (ustacks p) (pmlfq p).
Definition set_parent (v : procptr) (p : proc) : proc :=
  mkProc (state p) (pid p) (killed p) (tidx p) (sz p) (pgdir p) v
         (threads p) (kstacks p) (ustacks p) (pmlfq p).
Definition set_threads (v : list thread) (p : proc) : proc :=
  mkProc (state p) (pid p) (killed p) (tidx p) (sz p) (pgdir p) (parent p)
         v (kstacks p) (ustacks p) (pmlfq p).
Definition set_kstacks (v : list Z) (p : proc) : proc :=
  mkProc (state p) (pid p) (killed p) (tidx p) (sz p) (pgdir p) (parent p)
         (threads p) v (ustacks p) (pmlfq p).
Definition set_ustacks (v : list Z) (p : proc) : proc :=
  mkProc (state p) (pid p) (killed p) (tidx p) (sz p) (pgdir p) (parent p)
         (threads p) (kstacks p) v (pmlfq p).
Definition set_pmlfq (v : schedinfo) (p : proc) : proc :=
  mkProc (state p) (pid p) (killed p) (tidx p) (sz p) (pgdir p) (parent p)
         (threads p) (kstacks p) (ustacks p) v.

Definition set_t_state (v : procstate) (t : thread) : thread :=
  mkThread v (tid t) (kstack t) (chan t) (retval t).
Definition set_tid (v : Z) (t : thread) : thread :=
  mkThread (t_state t) v (kstack t) (chan t) (retval t).
Definition set_kstack (v : Z) (t : thread) : thread :=
  mkThread (t_state t) (tid t) v (chan t) (retval t).
Definition set_retval (v : Z) (t : thread) : thread :=
  mkThread (t_state t) (tid t) (kstack t) (chan t) v.

Definition set_metasched (v : stride) (m : mlfq) : mlfq :=
  mkMlfq (quantum m) (expire m) (queue m) (iterstate m) v.
Definition set_queue (v : list (list procptr)) (m : mlfq) : mlfq :=
  mkMlfq (quantum m) (expire m) v (iterstate m) (metasched m).
Definition set_iterstate (v : list nat) (m : mlfq) : mlfq :=
  mkMlfq (quantum m) (expire m) (queue m) v (metasched m).

Definition set_ptable (v : list proc) (k : kernel) : kernel :=
  mkKernel v (sched k) (nextpid k) (nexttid k).
Definition set_sched (v : mlfq) (k : kernel) : kernel :=
  mkKernel (ptable k) v (nextpid k) (nexttid k).

(** ** Outcomes *)

Inductive fault : Set :=
  | BadAccess            (* invalid pointer or index outside an array *)
  | Panic (msg : string) (* [panic] *)
  | LoopBound.           (* a loop did not finish within its step bound *)

Inductive result (A : Type) : Type :=
  | Ok (a : A)
  | Err (e : fault).
Arguments Ok {A} a.
Arguments Err {A} e.

#[global] Instance result_ret : MRet result := fun A a => Ok a.
#[global] Instance result_bind : MBind result := fun A B f m =>
  match m with
  | Ok a => f a
  | Err e => Err e
  end.

#[global] Instance result_fmap : FMap result := fun A B f m =>
  match m with
  | Ok a => Ok (f a)
  | Err e => Err e
  end.

Definition access {A : Type} (o : option A) : result A :=
  match o with
  | Some a => Ok a
  | None => Err BadAccess
  end.

(** [*p] for a [struct proc*]. *)
Definition deref (pt : list proc) (p : procptr) : result proc :=
  match p with
  | Proc i => access (pt !! i)
  | _ => Err BadAccess
  end.

(** Array read with an [int] index. *)
Definition zlookup {A : Type} (l : list A) (z : Z) : option A :=
  if z <? 0 then None else l !! Z.to_nat z.

Fixpoint fold_result {A B : Type} (f : A -> B -> result A) (l : list B) (a : A)
  : result A :=
  match l with
  | [] => Ok a
  | b :: l' => a' ← f a b; fold_result f l' a'
  end.

(** ** mlfq.c *)

Section Scheduler.
Context `{Config}.

(** [runnable]: offset of the first RUNNABLE thread, or -1. *)
Definition runnable (p : proc) : Z :=
  match list_find (λ t, t_state t = RUNNABLE) (threads p) with
  | Some (i, _) => Z.of_nat i
  | None => -1
  end.

(** [runnable(q)] for a pointer read from a queue. *)
Definition runnable_at (pt : list proc) (q : procptr) : result Z :=
  p ← deref pt q; Ok (runnable p).

(** [stride_init]: every field of [*this] is overwritten. *)
Definition stride_init : stride :=
  mkStride 5 0
           (f32_of_int 0 :: replicate (NPROC - 1) NOPASS)
           (MAXTICKET :: replicate (NPROC - 1) 0)
           (MlfqProc :: replicate (NPROC - 1) Null).

(** First slot of an array of process pointers that holds 0. *)
Definition find_free (q : list procptr) : option nat :=
  fst <$> list_find (λ x, x = Null) q.

(** The loop of [stride_append] that seeds the pass of a new slot. *)
Definition minpass_step (m x : f32) : f32 :=
  if negb (is_nopass x) && f32_ltb x m then x else m.
Definition minpass_of (ps : list f32) : f32 :=
  foldl minpass_step (ps !!! 0%nat) (drop 1 ps).

Definition stride_append (k : kernel) (p : nat) (usage : Z)
  : result (kernel * Z) :=
  let this := metasched (sched k) in
  if (MAXSTRIDE <? int_add (total this) usage) || (usage <=? 0) then Ok (k, 0)
  else
    match find_free (s_queue this) with
    | None => Ok (k, 0)
    | Some idx =>
        pr ← access (ptable k !! p);
        t0 ← access (ticket this !! 0%nat);
        let i := pmlfq pr in
        let pr' := set_pmlfq (mkInfo (-1) idx (elapsed i) (start i)) pr in
        let queue' := <[idx := Proc p]> (s_queue this) in
        let total' := int_add (total this) usage in
        let ticket' :=
          <[idx := usage]> (<[0%nat := int_sub t0 usage]> (ticket this)) in
        let pass' := <[idx := minpass_of (pass this)]> (pass this) in
        let this' := mkStride (s_quantum this) total' pass' ticket' queue' in
        Ok (set_ptable (<[p := pr']> (ptable k))
              (set_sched (set_metasched this' (sched k)) k), 1)
    end.

Definition stride_delete (k : kernel) (p : nat) : result kernel :=
  let this := metasched (sched k) in
  pr ← access (ptable k !! p);
  let idx := index (pmlfq pr) in
  usage ← access (ticket this !! idx);
  t0 ← access (ticket this !! 0%nat);
  let total' := int_sub (total this) usage in
  let ticket' := <[idx := 0]> (<[0%nat := int_add t0 usage]> (ticket this)) in
  let pass' := <[idx := NOPASS]> (pass this) in
  let queue' := <[idx := Null]> (s_queue this) in
  let this' := mkStride (s_quantum this) total' pass' ticket' queue' in
  Ok (set_sched (set_metasched this' (sched k)) k).

(** The body of the rescale loop of [stride_update]. *)
Definition rescale (x : f32) : f32 :=
  if f32_ltb (f32_of_int 0) x
  then f32_sub x (f32_of_int (int_sub MAXPASS SCALEPASS)) else x.

(** The slot [stride_update] services: 0 for the aggregate, [p->mlfq.index]
    for a process. *)
Definition serviced (pt : list proc) (p : procptr) : result nat :=
  match p with
  | MlfqProc => Ok 0%nat
  | _ => pr ← deref pt p; Ok (index (pmlfq pr))
  end.

(** [stride_update].  The stride [(float)MAXTICKET / ticket[idx]] is a
    float quotient: a slot without tickets makes it infinite. *)
Definition stride_update (k : kernel) (p : procptr) : result (kernel * verdict) :=
  let this := metasched (sched k) in
  idx ← serviced (ptable k) p;
  x ← access (pass this !! idx);
  t ← access (ticket this !! idx);
  let x' := f32_add x (f32_div (f32_of_int MAXTICKET) (f32_of_int t)) in
  let pass1 := <[idx := x']> (pass this) in
  let pass2 :=
    if f32_ltb (f32_of_int MAXPASS) x' then rescale <$> pass1 else pass1 in
  let this' :=
    mkStride (s_quantum this) (total this) pass2 (ticket this) (s_queue this) in
  Ok (set_sched (set_metasched this' (sched k)) k, MLFQ_NEXT).

(** One turn of the loop of [stride_next]: [m] is the offset [minpass]
    points to, [i] the offset of [iter]. *)
Definition stride_next_step (pt : list proc) (this : stride)
    (acc : nat * Z) (i : nat) : result (nat * Z) :=
  x ← access (pass this !! i);
  xm ← access (pass this !! acc.1);
  if negb (is_nopass x) && f32_ltb x xm then
    q ← access (s_queue this !! i);
    idx ← runnable_at pt q;
    if decide (idx = -1) then Ok acc else Ok (i, idx)
  else Ok acc.

(** The slot [stride_next] settles on, and the thread index it leaves in
    [*tidx]. *)
Definition stride_next_slot (pt : list proc) (this : stride) (tidx0 : Z)
  : result (nat * Z) :=
  fold_result (stride_next_step pt this) (seq 1 (NPROC - 1)) (0%nat, tidx0).

Definition stride_next (k : kernel) (tidx0 : Z) : result (procptr * Z) :=
  let this := metasched (sched k) in
  '(m, tidx') ← stride_next_slot (ptable k) this tidx0;
  q ← access (s_queue this !! m);
  Ok (q, tidx').

Definition mlfq_init : mlfq :=
  mkMlfq [5; 10; 20] [20; 40; 200]
         (replicate NMLFQ (replicate NPROC Null))
         (replicate NMLFQ 0%nat)
         stride_init.

Definition mlfq_append (k : kernel) (p : nat) (lv : Z)
  : result (kernel * append_status) :=
  q ← access (zlookup (queue (sched k)) lv);
  match find_free q with
  | None => Ok (k, MLFQ_FULL_QUEUE)
  | Some idx =>
      pr ← access (ptable k !! p);
      let pr' := set_pmlfq (mkInfo lv idx 0 (start (pmlfq pr))) pr in
      let queue' := <[Z.to_nat lv := <[idx := Proc p]> q]> (queue (sched k)) in
      Ok (set_ptable (<[p := pr']> (ptable k))
            (set_sched (set_queue queue' (sched k)) k), MLFQ_SUCCESS)
  end.

(** [this->queue[lv][idx] = 0]. *)
Definition clear_slot (k : kernel) (lv : Z) (idx : nat) : result kernel :=
  q ← access (zlookup (queue (sched k)) lv);
  _ ← access (q !! idx);
  let queue' := <[Z.to_nat lv := <[idx := Null]> q]> (queue (sched k)) in
  Ok (set_sched (set_queue queue' (sched k)) k).

Definition mlfq_cpu_share (k : kernel) (p : nat) (usage : Z)
  : result (kernel * Z) :=
  pr ← access (ptable k !! p);
  let lv := level (pmlfq pr) in
  let idx := index (pmlfq pr) in
  '(k1, r) ← stride_append k p usage;
  if decide (r = 0) then Ok (k1, -1)
  else k2 ← clear_slot k1 lv idx; Ok (k2, 0).

Definition mlfq_delete (k : kernel) (p : nat) : result kernel :=
  pr ← access (ptable k !! p);
  if decide (level (pmlfq pr) = -1) then stride_delete k p
  else clear_slot k (level (pmlfq pr)) (index (pmlfq pr)).

Definition mlfq_update (k : kernel) (p : nat) (ctime : Z)
  : result (kernel * verdict) :=
  pr ← access (ptable k !! p);
  let lv := level (pmlfq pr) in
  let idx := index (pmlfq pr) in
  if decide (state pr = ZOMBIE) then Ok (k, MLFQ_NEXT)
  else if decide (killed pr ≠ 0) then Ok (k, MLFQ_NEXT)
  else if decide (lv = -1) then stride_update k (Proc p)
  else
    '(k1, _) ← stride_update k MlfqProc;
    expired ← (if lv + 1 <? Z.of_nat NMLFQ then
                 ex ← access (zlookup (expire (sched k1)) lv);
                 Ok (ex <=? elapsed (pmlfq pr))
               else Ok false);
    if expired : bool then
      '(k2, r) ← mlfq_append k1 p (lv + 1);
      match r with
      | MLFQ_FULL_QUEUE => Err (Panic "mlfq: level elevation failed")
      | MLFQ_SUCCESS => k3 ← clear_slot k2 lv idx; Ok (k3, MLFQ_NEXT)
      end
    else
      qt ← access (zlookup (quantum (sched k1)) lv);
      if uint_sub ctime (start (pmlfq pr)) <? qt then Ok (k1, MLFQ_KEEP)
      else Ok (k1, MLFQ_NEXT).

(** The inner loop of [mlfq_next] on level queue [q] whose saved iterator
    is at offset [c]: [iter] is the offset of the running pointer, which
    may stand one past the end until the body wraps it. *)
Fixpoint scan_level (fuel : nat) (pt : list proc) (q : list procptr)
    (c : nat) (flag : bool) (iter : nat) : result (option (nat * procptr * Z)) :=
  match fuel with
  | O => Err LoopBound
  | S fuel' =>
      if flag || negb (iter =? c + 1)%nat then
        let iter := if (iter =? NPROC)%nat then 0%nat else iter in
        p ← access (q !! iter);
        if decide (p = Null) then scan_level fuel' pt q c false (S iter)
        else
          idx ← runnable_at pt p;
          if decide (idx = -1) then scan_level fuel' pt q c false (S iter)
          else Ok (Some (iter, p, idx))
      else Ok None
  end.

(** The loop over the levels, from level [i] on. *)
Fixpoint mlfq_next_from (n : nat) (i : nat) (k : kernel) (tidx0 : Z)
  : result (kernel * procptr * Z) :=
  match n with
  | O => Ok (k, Null, tidx0)
  | S n' =>
      q ← access (queue (sched k) !! i);
      c ← access (iterstate (sched k) !! i);
      r ← scan_level (S NPROC) (ptable k) q c true (S c);
      match r with
      | Some (pos, p, idx) =>
          let it := <[i := pos]> (iterstate (sched k)) in
          Ok (set_sched (set_iterstate it (sched k)) k, p, idx)
      | None => mlfq_next_from n' (S i) k tidx0
      end
  end.

Definition mlfq_next (k : kernel) (tidx0 : Z) : result (kernel * procptr * Z) :=
  mlfq_next_from NMLFQ 0 k tidx0.

End Scheduler.

(** ** proc.c *)

Section Processes.
Context `{Config}.

(** [p->threads[j]] updated in place. *)
Definition upd_thread (j : nat) (f : thread -> thread) (p : proc) : proc :=
  set_threads (alter f j (threads p)) p.

(** [allocproc].  [page] is what [kalloc] returns for the kernel stack of
    thread 0 (0 when no page is left). *)
Definition allocproc (k : kernel) (page : Z) : result (kernel * procptr) :=
  match list_find (λ p, state p = UNUSED) (ptable k) with
  | None => Ok (k, Null)
  | Some (i, p) =>
      _ ← access (threads p !! 0%nat);
      let p1 := set_tidx 0 (set_pid (nextpid k) (set_state EMBRYO p)) in
      let p2 :=
        upd_thread 0 (λ t, set_tid (nexttid k) (set_t_state EMBRYO t)) p1 in
      let k1 := mkKernel (<[i := p2]> (ptable k)) (sched k)
                         (int_add (nextpid k) 1) (int_add (nexttid k) 1) in
      '(k2, _) ← mlfq_append k1 i 0;
      p3 ← access (ptable k2 !! i);
      let p4 := set_ustacks (replicate NTHREAD 0)
                  (set_kstacks (<[0%nat := page]> (replicate NTHREAD 0)) p3) in
      if decide (page = 0) then
        let p5 := upd_thread 0 (set_t_state UNUSED) (set_state UNUSED p4) in
        Ok (set_ptable (<[i := p5]> (ptable k2)) k2, Null)
      else
        let p5 := upd_thread 0 (set_kstack page) p4 in
        Ok (set_ptable (<[i := p5]> (ptable k2)) k2, Proc i)
  end.

(** [tmp = a[0]; a[0] = a[j]; a[j] = tmp]. *)
Definition swap0 (j : nat) (a : list Z) : list Z :=
  <[j := a !!! 0%nat]> (<[0%nat := a !!! j]> a).

(** [fork] called by process [cur].  [page] is the result of the [kalloc]
    inside [allocproc], [pgd] the result of [copyuvm] (0 when the copy
    fails). *)
Definition fork (k : kernel) (cur : nat) (page pgd : Z) : result (kernel * Z) :=
  '(k1, r) ← allocproc k page;
  match r with
  | Proc n =>
      curproc ← access (ptable k1 !! cur);
      np ← access (ptable k1 !! n);
      let np1 := set_pgdir pgd np in
      if decide (pgd = 0) then
        let np2 :=
          upd_thread 0 (λ t, set_t_state UNUSED (set_kstack 0 t)) np1 in
        let np3 := set_state UNUSED (set_kstacks (<[0%nat := 0]> (kstacks np2)) np2) in
        Ok (set_ptable (<[n := np3]> (ptable k1)) k1, -1)
      else
        let np2 := set_tidx 0 (set_parent (Proc cur) (set_sz (sz curproc) np1)) in
        let np3 := set_ustacks (swap0 (tidx curproc) (ustacks curproc)) np2 in
        let np4 := upd_thread 0 (set_t_state RUNNABLE) (set_state RUNNABLE np3) in
        Ok (set_ptable (<[n := np4]> (ptable k1)) k1, pid np)
  | _ => Ok (k1, -1)
  end.

(** [wakeup1]. *)
Definition wake_thread (c : Z) (t : thread) : thread :=
  if decide (t_state t = SLEEPING ∧ chan t = c) then set_t_state RUNNABLE t
  else t.

Definition wake_proc (c : Z) (p : proc) : proc :=
  if decide (state p = RUNNABLE) then set_threads (wake_thread c <$> threads p) p
  else p.

Definition wakeup1 (k : kernel) (c : Z) : kernel :=
  set_ptable (wake_proc c <$> ptable k) k.

Definition wakeup (k : kernel) (c : Z) : kernel := wakeup1 k c.

(** The search loop of [thread_join]: process offset and thread offset of
    the first hit. *)
Definition thread_slot (t0 : Z) (p : proc) : option nat :=
  fst <$> list_find (λ t, tid t = t0) (threads p).

Fixpoint find_thread (pt : list proc) (i : nat) (t0 : Z) : option (nat * nat) :=
  match pt with
  | [] => None
  | p :: pt' =>
      if decide (state p = RUNNABLE) then
        match thread_slot t0 p with
        | Some j => Some (i, j)
        | None => find_thread pt' (S i) t0
        end
      else find_thread pt' (S i) t0
  end.

(** What a call of [thread_join] comes to: -1, 0 with the value stored in
    [*retval], or the caller put to sleep on the channel [tid] (it goes on
    in [thread_join_resume] once it runs again). *)
Inductive join_outcome : Type :=
  | JoinUnknown (k : kernel)
  | JoinDone (k : kernel) (out : Z)
  | JoinSleep (k : kernel) (pi ti : nat).

(** The part of [thread_join] after the wait: copy the value out and free
    the slot. *)
Definition thread_reap (k : kernel) (pi ti : nat) : result (kernel * Z) :=
  p ← access (ptable k !! pi);
  t ← access (threads p !! ti);
  let t' := mkThread UNUSED 0 0 (chan t) 0 in
  Ok (set_ptable (<[pi := set_threads (<[ti := t']> (threads p)) p]> (ptable k)) k,
      retval t).

(** The state change of [sleep] before [sched]. *)
Definition go_sleep (k : kernel) (cur : nat) (c : Z) : result kernel :=
  p ← access (ptable k !! cur);
  _ ← access (threads p !! tidx p);
  let p' := upd_thread (tidx p) (λ t, mkThread SLEEPING (tid t) (kstack t) c (retval t)) p in
  Ok (set_ptable (<[cur := p']> (ptable k)) k).

Definition thread_join (k : kernel) (cur : nat) (t0 : Z) : result join_outcome :=
  match find_thread (ptable k) 0 t0 with
  | None => Ok (JoinUnknown k)
  | Some (pi, ti) =>
      p ← access (ptable k !! pi);
      t ← access (threads p !! ti);
      if decide (t_state t = ZOMBIE) then
        '(k', out) ← thread_reap k pi ti; Ok (JoinDone k' out)
      else
        k' ← go_sleep k cur t0; Ok (JoinSleep k' pi ti)
  end.

(** [thread_join] from the return of [sleep] on: the caller's channel is
    cleared and the slot is freed without looking at its state again. *)
Definition thread_join_resume (k : kernel) (cur pi ti : nat)
  : result (kernel * Z) :=
  p ← access (ptable k !! cur);
  let p' := upd_thread (tidx p) (λ t, mkThread (t_state t) (tid t) (kstack t) 0 (retval t)) p in
  thread_reap (set_ptable (<[cur := p']> (ptable k)) k) pi ti.

(** The block of [wait] that frees the ZOMBIE child at offset [i] of the
    table and returns its pid. *)
Definition wait_reap (k : kernel) (i : nat) : result (kernel * Z) :=
  p ← access (ptable k !! i);
  let ustacks' :=
    zip_with (λ ks us, if decide (ks = 0) then us else 0) (kstacks p) (ustacks p) in
  let kstacks' := (λ _, 0) <$> kstacks p in
  let threads' :=
    (λ t, mkThread UNUSED 0 0 (chan t) (retval t)) <$> threads p in
  let p' := mkProc UNUSED 0 0 (tidx p) (sz p) (pgdir p) Null
                   threads' kstacks' ustacks' (pmlfq p) in
  k' ← mlfq_delete (set_ptable (<[i := p']> (ptable k)) k) i;
  Ok (k', pid p).

(** The value [thread_join] returns. *)
Definition join_status (o : join_outcome) : option Z :=
  match o with
  | JoinUnknown _ => Some (-1)
  | JoinDone _ _ => Some 0
  | JoinSleep _ _ _ => None
  end.

End Processes.

(** ** The other entry points of mlfq.c and proc.c *)

Definition set_killed (v : Z) (p : proc) : proc :=
  mkProc (state p) (pid p) v (tidx p) (sz p) (pgdir p) (parent p)
         (threads p) (kstacks p) (ustacks p) (pmlfq p).

Section Entries.
Context `{Config}.

(** *** mlfq.c *)

(** The slots [lower] runs over in [mlfq_boost]: the levels after the
    first, each from its first slot to its last. *)
Definition lower_slots : list (nat * nat) :=
  lv ← seq 1 (NMLFQ - 1); pair lv <$> seq 0 NPROC.

(** One turn of the outer loop of [mlfq_boost].  [top] is the offset in
    level 0 the pointer of that name stands at: the inner loop goes on from
    where the last one stopped. *)
Definition boost_step (st : kernel * nat) (pos : nat * nat)
  : result (kernel * nat) :=
  let '(k, top) := st in
  let '(lv, i) := pos in
  q ← access (queue (sched k) !! lv);
  x ← access (q !! i);
  if decide (x = Null) then Ok (k, top)
  else
    q0 ← access (queue (sched k) !! 0%nat);
    match find_free (drop top q0) with
    | None =>
        Err (Panic "mlfq boost: could not find empty space of toplevel queue")
    | Some d =>
        let j := (top + d)%nat in
        let queue1 := <[0%nat := <[j := x]> q0]> (queue (sched k)) in
        ql ← access (queue1 !! lv);
        let queue2 := <[lv := <[i := Null]> ql]> queue1 in
        match x with
        | Proc n =>
            pr ← access (ptable k !! n);
            let pr' := set_pmlfq (mkInfo 0 j 0 (start (pmlfq pr))) pr in
            Ok (set_ptable (<[n := pr']> (ptable k))
                  (set_sched (set_queue queue2 (sched k)) k), j)
        | _ => Err BadAccess
        end
    end.

Definition mlfq_boost (k : kernel) : result kernel :=
  '(k', _) ← fold_result boost_step lower_slots (k, 0%nat); Ok k'.

(** [mlfq_yieldable] at tick [now] (the value of [sys_uptime]).  [dur] is
    an [int]; it is compared with the [int] quantum of the stride
    scheduler and, converted to [uint], with the quantum of the level.  The
    second operand of [||] is evaluated whenever the first is false, also
    for a process whose level is -1. *)
Definition mlfq_yieldable (k : kernel) (p : nat) (now : Z) : result bool :=
  pr ← access (ptable k !! p);
  let dur := wrap_int (now - start (pmlfq pr)) in
  if bool_decide (level (pmlfq pr) = -1)
     && (s_quantum (metasched (sched k)) <=? dur)
  then Ok true
  else
    qt ← access (zlookup (quantum (sched k)) (level (pmlfq pr)));
    Ok (qt <=? wrap_uint dur).

(** What the first half of a turn of [mlfq_scheduler] comes to: nothing
    can run and the turn ends ([break]), or the CPU is handed to thread
    [p->tidx] of process [p]. *)
Inductive turn : Type :=
  | Idle (k : kernel) (keep : verdict)
  | Switch (k : kernel) (p : nat) (idx : Z).

(** A turn of [mlfq_scheduler] up to [swtch].  [keep], [p] and [idx] are
    the locals of that name as the last turn left them, [now] is the value
    of [sys_uptime]. *)
Definition sched_select (k : kernel) (keep : verdict) (p : procptr) (idx : Z)
    (now : Z) : result turn :=
  again ← (if decide (keep = MLFQ_NEXT) then Ok true
           else
             pr ← deref (ptable k) p;
             t ← access (threads pr !! tidx pr);
             Ok (bool_decide (t_state t ≠ RUNNABLE)));
  '(k1, p1, idx1) ←
    (if again : bool then
       '(q, i1) ← stride_next k idx;
       if decide (q = MlfqProc) then mlfq_next k i1 else Ok (k, q, i1)
     else Ok (k, p, idx));
  if again && bool_decide (p1 = Null) then
    '(k2, v) ← stride_update k1 MlfqProc; Ok (Idle k2 v)
  else
    match p1 with
    | Proc n =>
        pr ← access (ptable k1 !! n);
        let pr1 := if again then set_tidx (Z.to_nat idx1) pr else pr in
        _ ← access (threads pr1 !! tidx pr1);
        let i := pmlfq pr1 in
        let pr2 :=
          set_pmlfq (mkInfo (level i) (index i) (elapsed i) now)
            (upd_thread (tidx pr1) (set_t_state RUNNING) pr1) in
        Ok (Switch (set_ptable (<[n := pr2]> (ptable k1)) k1) n idx1)
    | _ => Err BadAccess
    end.

(** The same turn from the return of [swtch] on: process [p] ran from tick
    [t0] to tick [t1]; [boost] is the local of that name, returned as the
    turn leaves it. *)
Definition sched_account (k : kernel) (p : nat) (t0 t1 boost : Z)
  : result (kernel * verdict * Z) :=
  pr ← access (ptable k !! p);
  let i := pmlfq pr in
  let pr' :=
    set_pmlfq (mkInfo (level i) (index i)
                 (wrap_uint (elapsed i + uint_sub t1 t0)) (start i)) pr in
  '(k1, keep) ← mlfq_update (set_ptable (<[p := pr']> (ptable k)) k) p t1;
  if boost <? t1 then
    k2 ← mlfq_boost k1;
    unit ← access (expire (sched k) !! (NMLFQ - 1)%nat);
    Ok (k2, keep, wrap_uint (boost + unit))
  else Ok (k1, keep, boost).

(** *** proc.c *)

(** [kill]. *)
Definition kill_proc (p : proc) : proc :=
  set_threads
    ((λ t, if decide (t_state t = SLEEPING) then set_t_state RUNNABLE t else t)
       <$> threads p)
    (set_killed 1 p).

Definition kill (k : kernel) (id : Z) : kernel * Z :=
  match list_find (λ p, pid p = id) (ptable k) with
  | Some (i, p) => (set_ptable (<[i := kill_proc p]> (ptable k)) k, 0)
  | None => (k, -1)
  end.

(** The state change of [yield] before [sched]. *)
Definition yield (k : kernel) (cur : nat) : result kernel :=
  p ← access (ptable k !! cur);
  _ ← access (threads p !! tidx p);
  Ok (set_ptable (<[cur := upd_thread (tidx p) (set_t_state RUNNABLE) p]> (ptable k)) k).

(** [sleep] from the return of [sched] on: the channel is cleared. *)
Definition sleep_resume (k : kernel) (cur : nat) : result kernel :=
  p ← access (ptable k !! cur);
  _ ← access (threads p !! tidx p);
  let p' :=
    upd_thread (tidx p)
      (λ t, mkThread (t_state t) (tid t) (kstack t) 0 (retval t)) p in
  Ok (set_ptable (<[cur := p']> (ptable k)) k).

(** [getlev]; [cur] is what [myproc] returns. *)
Definition getlev (k : kernel) (cur : procptr) : result Z :=
  if decide (cur = Null) then Ok (-1)
  else p ← deref (ptable k) cur; Ok (level (pmlfq p)).

(** [set_cpu_share] called by process [cur]. *)
Definition set_cpu_share (k : kernel) (cur : nat) (percent : Z)
  : result (kernel * Z) :=
  mlfq_cpu_share k cur percent.

(** [thread_epilogue] and [thread_exit], up to [sched]. *)
Definition thread_epilogue (k : kernel) (cur : nat) : result kernel :=
  p ← access (ptable k !! cur);
  t ← access (threads p !! tidx p);
  let p' := upd_thread (tidx p) (set_t_state ZOMBIE) p in
  Ok (wakeup1 (set_ptable (<[cur := p']> (ptable k)) k) (tid t)).

Definition thread_exit (k : kernel) (cur : nat) (rv : Z) : result kernel :=
  p ← access (ptable k !! cur);
  _ ← access (threads p !! tidx p);
  let p' := upd_thread (tidx p) (set_retval rv) p in
  thread_epilogue (set_ptable (<[cur := p']> (ptable k)) k) cur.

(** [thread_create] called by process [cur].  [page] is what [kalloc]
    returns if it is called, [grown] what [allocuvm] returns if it is
    called (0 when nothing is left).  The result carries the return value
    and what is stored in [*tid]. *)
Definition thread_create (k : kernel) (cur : nat) (page grown : Z)
  : result (kernel * Z * option Z) :=
  p ← access (ptable k !! cur);
  match list_find (λ t, t_state t = UNUSED) (threads p) with
  | None => Ok (k, -1, None)
  | Some (ti, _) =>
      let id := nexttid k in
      let k1 := mkKernel (ptable k) (sched k) (nextpid k) (int_add (nexttid k) 1) in
      let put (q : proc) := set_ptable (<[cur := q]> (ptable k1)) k1 in
      ks ← access (kstacks p !! ti);
      let ks' := if decide (ks = 0) then page else ks in
      let p1 := set_kstacks (<[ti := ks']> (kstacks p)) (upd_thread ti (set_tid id) p) in
      if decide (ks' = 0) then
        Ok (put (upd_thread ti (λ t, set_t_state UNUSED (set_tid 0 t)) p1), -1, None)
      else
        let p2 := upd_thread ti (set_kstack ks') p1 in
        us ← access (ustacks p !! ti);
        let ready (q : proc) :=
          upd_thread ti (λ t, set_t_state RUNNABLE (set_retval 0 t)) q in
        if decide (us ≠ 0) then Ok (put (ready p2), 0, Some id)
        else if decide (grown = 0) then
          Ok (put (upd_thread ti
                     (λ t, set_t_state UNUSED (set_tid 0 (set_kstack 0 t))) p2),
              -1, None)
        else
          Ok (put (ready (set_ustacks (<[ti := grown]> (ustacks p2))
                            (set_sz grown p2))), 0, Some id)
  end.

(** The loop of [next_thread]: [t] is the offset of the current thread,
    [iter] that of the running pointer, which may stand one past the end
    until the body wraps it. *)
Fixpoint next_scan (fuel : nat) (ts : list thread) (t iter : nat)
  : result (option nat) :=
  match fuel with
  | O => Err LoopBound
  | S fuel' =>
      let iter := if (iter =? NTHREAD)%nat then 0%nat else iter in
      if (iter =? t)%nat then Ok None
      else
        th ← access (ts !! iter);
        if decide (t_state th = RUNNABLE) then Ok (Some iter)
        else next_scan fuel' ts t (S iter)
  end.

(** What [next_thread] comes to: the thread goes on ([break] with nothing
    found), the scheduler is entered ([sched]), or the CPU goes from thread
    [old] to thread [new] of the process. *)
Inductive handover : Type :=
  | Stay (k : kernel)
  | ToScheduler (k : kernel)
  | SwitchTo (k : kernel) (old new : nat).

Definition next_thread (k : kernel) (p : nat) : result handover :=
  pr ← access (ptable k !! p);
  t ← access (threads pr !! tidx pr);
  r ← next_scan (S NTHREAD) (threads pr) (tidx pr) (S (tidx pr));
  match r with
  | None =>
      if decide (t_state t ≠ RUNNING) then Ok (ToScheduler k) else Ok (Stay k)
  | Some it =>
      let pr' :=
        set_tidx it
          (upd_thread it (set_t_state RUNNING)
             (upd_thread (tidx pr) (set_t_state RUNNABLE) pr)) in
      Ok (SwitchTo (set_ptable (<[p := pr']> (ptable k)) k) (tidx pr) it)
  end.

(** [pinit].  [ptable] is a global without an initialiser, so every
    field of every slot starts as zero: the slots and their threads are
    UNUSED (the first constant of [enum procstate]); [nextpid] and
    [nexttid] start at 1. *)
Definition zero_thread : thread := mkThread UNUSED 0 0 0 0.

Definition zero_proc : proc :=
  mkProc UNUSED 0 0 0 0 0 Null (replicate NTHREAD zero_thread)
         (replicate NTHREAD 0) (replicate NTHREAD 0) (mkInfo 0 0 0 0).

Definition pinit : kernel :=
  mkKernel (replicate NPROC zero_proc) mlfq_init 1 1.

(** *** proc.c: the life cycle of a process

    [exit] and [wait] sleep and wake on the address of a process.
    [paddr i] stands for the address of [ptable.proc[i]]; [initproc] is
    the global of that name. *)

Section Lifecycle.
Variable paddr : nat → Z.

(** A process pointer used as a channel. *)
Definition ptr_chan (q : procptr) : Z :=
  match q with
  | Null => 0
  | MlfqProc => UINT_MAX
  | Proc i => paddr i
  end.

(** [userinit], without the address space and the trap frame.  [page] is
    the result of the [kalloc] inside [allocproc], [pgd] that of
    [setupkvm], [pgsize] is PGSIZE of [mmu.h].  The result carries the new
    value of [initproc]. *)
Definition userinit (k : kernel) (page pgd pgsize : Z)
  : result (kernel * procptr) :=
  '(k1, r) ← allocproc k page;
  p ← deref (ptable k1) r;
  if decide (pgd = 0) then Err (Panic "userinit: out of memory?")
  else
    let p' :=
      upd_thread 0 (set_t_state RUNNABLE)
        (set_state RUNNABLE (set_sz pgsize (set_pgdir pgd p))) in
    match r with
    | Proc i => Ok (set_ptable (<[i := p']> (ptable k1)) k1, r)
    | _ => Err BadAccess
    end.

(** The body of the loop of [exit] that hands the children over. *)
Definition reparent_step (cur : nat) (initproc : procptr) (k : kernel) (i : nat)
  : result kernel :=
  p ← access (ptable k !! i);
  if decide (parent p = Proc cur) then
    let k1 := set_ptable (<[i := set_parent initproc p]> (ptable k)) k in
    if decide (state p = ZOMBIE) then Ok (wakeup1 k1 (ptr_chan initproc))
    else Ok k1
  else Ok k.

(** [exit] called by process [cur], up to [sched]; the open files and the
    working directory are not modelled. *)
Definition exit (k : kernel) (cur : nat) (initproc : procptr) : result kernel :=
  if decide (Proc cur = initproc) then Err (Panic "init exiting")
  else
    p ← access (ptable k !! cur);
    let k1 := wakeup1 k (ptr_chan (parent p)) in
    k2 ← fold_result (reparent_step cur initproc) (seq 0 NPROC) k1;
    p2 ← access (ptable k2 !! cur);
    let p3 :=
      set_threads
        ((λ t, if decide (t_state t = UNUSED) then t else set_t_state ZOMBIE t)
           <$> threads p2)
        (set_state ZOMBIE p2) in
    Ok (set_ptable (<[cur := p3]> (ptable k2)) k2).

(** The scan of [wait] over the table from offset [i] on: the offset of
    the first ZOMBIE child, or the value of [havekids] at the end. *)
Fixpoint wait_scan (pt : list proc) (cur i : nat) (havekids : bool)
  : nat + bool :=
  match pt with
  | [] => inr havekids
  | p :: pt' =>
      if decide (parent p = Proc cur) then
        if decide (state p = ZOMBIE) then inl i
        else wait_scan pt' cur (S i) true
      else wait_scan pt' cur (S i) havekids
  end.

(** What one pass of the loop of [wait] comes to: a child is freed and its
    pid returned, -1 is returned, or the caller is put to sleep on its own
    address (once it runs again it clears its channel and makes another
    pass). *)
Inductive wait_outcome : Type :=
  | WaitDone (k : kernel) (id : Z)
  | WaitNone (k : kernel)
  | WaitSleep (k : kernel).

Definition wait (k : kernel) (cur : nat) : result wait_outcome :=
  match wait_scan (ptable k) cur 0 false with
  | inl i => '(k', id) ← wait_reap k i; Ok (WaitDone k' id)
  | inr havekids =>
      p ← access (ptable k !! cur);
      if negb havekids || bool_decide (killed p ≠ 0) then Ok (WaitNone k)
      else k' ← go_sleep k cur (paddr cur); Ok (WaitSleep k')
  end.

End Lifecycle.

End Entries.

(** ** The stride half of the older [xv6-public/mlfq.c]

    The repository also holds an earlier [mlfq.c], written before the
    threads: its [stride_init] takes the cap as an argument, its
    [stride_append] has no test on the sign of [usage] and seeds the new
    pass from a loop that keeps the largest value, its [stride_update] has
    no rescale, and the loop of its [stride_next] resets its own counter.
    [proc.c] is not written against it ([pinit] calls [mlfq_init] with one
    argument, the scheduler works on threads).  Its stride functions are
    embedded here for comparison; its [mlfq_next] has an empty body. *)

Module Legacy.
Section Legacy.
Context `{Config}.

Record stride : Type := mkStride {
  maxima : Z;
  total : Z;
  pass : list f32;
  ticket : list Z;
  queue : list procptr;
}.

Definition stride_init (maxima : Z) : stride :=
  mkStride maxima 0
           (f32_of_int 0 :: replicate (NPROC - 1) NOPASS)
           (MAXTICKET :: replicate (NPROC - 1) 0)
           (MlfqProc :: replicate (NPROC - 1) Null).

(** The loop that seeds the pass: it starts from 0 and keeps what is
    larger. *)
Definition seed_step (m x : f32) : f32 := if f32_ltb m x then x else m.
Definition seed_of (ps : list f32) : f32 := foldl seed_step (f32_of_int 0) ps.

Definition stride_append (this : stride) (pt : list proc) (p : nat) (usage : Z)
  : result (stride * list proc * Z) :=
  if maxima this <? int_add (total this) usage then Ok (this, pt, 0)
  else
    match find_free (queue this) with
    | None => Ok (this, pt, 0)
    | Some idx =>
        pr ← access (pt !! p);
        t0 ← access (ticket this !! 0%nat);
        let i := pmlfq pr in
        let pr' := set_pmlfq (mkInfo (-1) idx (elapsed i) (start i)) pr in
        let this' :=
          mkStride (maxima this) (int_add (total this) usage)
            (<[idx := seed_of (pass this)]> (pass this))
            (<[idx := usage]> (<[0%nat := int_sub t0 usage]> (ticket this)))
            (<[idx := Proc p]> (queue this)) in
        Ok (this', <[p := pr']> pt, 1)
    end.

Definition stride_update (this : stride) (pt : list proc) (p : procptr)
  : result (stride * verdict) :=
  pr ← deref pt p;
  let idx := index (pmlfq pr) in
  x ← access (pass this !! idx);
  t ← access (ticket this !! idx);
  Ok (mkStride (maxima this) (total this)
        (<[idx := f32_add x (f32_div (f32_of_int MAXTICKET) (f32_of_int t))]>
           (pass this))
        (ticket this) (queue this), MLFQ_NEXT).

(** The loop of [stride_next]: [i] is the offset of [iter]; [minpass]
    never moves from slot 0, and a smaller pass sends [iter] back to it. *)
Fixpoint stride_next_loop (fuel : nat) (this : stride) (i : nat)
  : result procptr :=
  match fuel with
  | O => Err LoopBound
  | S fuel' =>
      if (i =? NPROC)%nat then access (queue this !! i)
      else
        x ← access (pass this !! i);
        x0 ← access (pass this !! 0%nat);
        stride_next_loop fuel' this (S (if f32_ltb x x0 then 0%nat else i))
  end.

Definition stride_next (fuel : nat) (this : stride) : result procptr :=
  stride_next_loop fuel this 1.

End Legacy.
End Legacy.

(** ** Well-formed states and the notions the statements use *)

(** *** The order of the pass values

    The comparisons order the floats that are numbers as the triples
    below are ordered, first component first: the class of the number,
    then its exponent, then its significand.  On the floats the operations
    produce, whose significands are normalised, that is the order of the
    numbers they stand for. *)
Definition f32_nan (x : f32) : bool :=
  match x with
  | S754_nan => true
  | _ => false
  end.

Definition f32_key (x : f32) : Z * Z * Z :=
  match x with
  | S754_zero _ => (0, 0, 0)
  | S754_infinity s => (if s then -2 else 2, 0, 0)
  | S754_nan => (0, 0, 0)
  | S754_finite s m e => if s then (-1, - e, - Z.pos m) else (1, e, Z.pos m)
  end.

Definition key_lt (a b : Z * Z * Z) : Prop :=
  a.1.1 < b.1.1 ∨
  (a.1.1 = b.1.1 ∧ (a.1.2 < b.1.2 ∨ (a.1.2 = b.1.2 ∧ a.2 < b.2))).

(** The number a finite float stands for. *)
Definition f32_val (x : f32) : Q :=
  match x with
  | S754_finite s m e =>
      ((if s then -1 else 1) * inject_Z (Z.pos m) * Qpower 2 e)%Q
  | _ => 0%Q
  end.

Section Notions.
Context `{Config}.

(** *** Threads that can run *)

(** The process has a thread whose state is RUNNABLE. *)
Definition has_runnable (p : proc) : Prop :=
  ∃ ti t, threads p !! ti = Some t ∧ t_state t = RUNNABLE.

(** Thread [ti] is the first RUNNABLE thread of [p]. *)
Definition first_runnable (p : proc) (ti : nat) : Prop :=
  ∃ t, threads p !! ti = Some t ∧ t_state t = RUNNABLE ∧
       ∀ tj t', threads p !! tj = Some t' → (tj < ti)%nat → t_state t' ≠ RUNNABLE.

(** *** Stride slots *)

(** A stride slot after slot 0 is either unused (null queue entry, pass
    -1) or holds a process of the table and a pass other than -1. *)
Definition slot_ok (pt : list proc) (x : f32) (q : procptr) : bool :=
  match q with
  | Null => is_nopass x
  | MlfqProc => false
  | Proc j => negb (is_nopass x) && bool_decide (j < length pt)%nat
  end.

Definition wf_stride (pt : list proc) (s : stride) : Prop :=
  length (pass s) = NPROC ∧ length (s_queue s) = NPROC ∧
  s_queue s !! 0%nat = Some MlfqProc ∧
  Forall2 (λ x q, slot_ok pt x q) (drop 1 (pass s)) (drop 1 (s_queue s)).

(** Slot [i] is active: its queue entry is not null. *)
Definition active_slot (s : stride) (i : nat) : Prop :=
  ∃ q, s_queue s !! i = Some q ∧ q ≠ Null.

(** Slot [i] can run: it is the MLFQ aggregate, or its process has a
    RUNNABLE thread. *)
Definition slot_runnable (pt : list proc) (s : stride) (i : nat) : Prop :=
  i = 0%nat ∨
  ∃ j p, s_queue s !! i = Some (Proc j) ∧ pt !! j = Some p ∧ has_runnable p.

Definition eligible (pt : list proc) (s : stride) (i : nat) : Prop :=
  active_slot s i ∧ slot_runnable pt s i.

(** What the loop of [stride_next] knows after the slots below [n]. *)
Definition next_inv (pt : list proc) (s : stride) (t0 : Z) (n : nat)
    (acc : nat * Z) : Prop :=
  (acc.1 < n)%nat ∧ eligible pt s acc.1 ∧
  (∀ j xj xm, (j < n)%nat → eligible pt s j →
     pass s !! j = Some xj → pass s !! acc.1 = Some xm →
     f32_ltb xj xm = false ∧ (f32_eqb xj xm = true → (acc.1 ≤ j)%nat)) ∧
  (acc.1 = 0%nat → acc.2 = t0) ∧
  (acc.1 ≠ 0%nat → ∃ j p ti, s_queue s !! acc.1 = Some (Proc j) ∧
     pt !! j = Some p ∧ acc.2 = Z.of_nat ti ∧ first_runnable p ti).

#[global] Instance wf_stride_dec pt s : Decision (wf_stride pt s).
Proof. unfold wf_stride. apply _. Defined.

(** What a successful [stride_append] leaves behind. *)
Definition appended (k : kernel) (p : nat) (usage : Z) (idx : nat)
    (pr : proc) (t0 : Z) : kernel :=
  let this := metasched (sched k) in
  set_ptable
    (<[p := set_pmlfq (mkInfo (-1) idx (elapsed (pmlfq pr)) (start (pmlfq pr))) pr]>
       (ptable k))
    (set_sched
       (set_metasched
          (mkStride (s_quantum this) (int_add (total this) usage)
             (<[idx := minpass_of (pass this)]> (pass this))
             (<[idx := usage]> (<[0%nat := int_sub t0 usage]> (ticket this)))
             (<[idx := Proc p]> (s_queue this)))
          (sched k)) k).

(** *** Threads *)

(** The threads [wakeup] is after: SLEEPING on the channel, in a process
    whose state is RUNNABLE. *)
Definition woken (c : Z) (p : proc) (t : thread) : Prop :=
  state p = RUNNABLE ∧ t_state t = SLEEPING ∧ chan t = c.

(** Thread [j] of process [i] carries the id [t0] and its process is
    RUNNABLE: the scan of [thread_join] stops at such a thread. *)
Definition joinable (pt : list proc) (t0 : Z) (i j : nat) : Prop :=
  ∃ p t, pt !! i = Some p ∧ state p = RUNNABLE ∧
         threads p !! j = Some t ∧ tid t = t0.

(** Every place of the table the scan could stop at, in table order. *)
Definition thread_matches (t0 : Z) (p : proc) : list nat :=
  fst <$> filter (λ jt, tid jt.2 = t0) (imap pair (threads p)).

Definition table_matches (pt : list proc) (t0 : Z) : list (nat * nat) :=
  mjoin (imap (λ i p, if decide (state p = RUNNABLE)
                      then pair i <$> thread_matches t0 p else []) pt).

(** *** The MLFQ levels *)

(** The arrays have the sizes their declarations give them. *)
Definition wf_shape (k : kernel) : Prop :=
  (0 < NPROC)%nat ∧ length (ptable k) = NPROC ∧
  length (quantum (sched k)) = NMLFQ ∧ length (expire (sched k)) = NMLFQ ∧
  length (queue (sched k)) = NMLFQ ∧
  Forall (λ q, length q = NPROC) (queue (sched k)) ∧
  length (iterstate (sched k)) = NMLFQ ∧
  Forall (λ c, (c < NPROC)%nat) (iterstate (sched k)) ∧
  length (pass (metasched (sched k))) = NPROC ∧
  length (ticket (metasched (sched k))) = NPROC ∧
  length (s_queue (metasched (sched k))) = NPROC.

#[global] Instance wf_shape_dec k : Decision (wf_shape k).
Proof. unfold wf_shape. apply _. Defined.

(** Process [i] is entered in level [lv] of the MLFQ. *)
Definition registered (k : kernel) (lv : nat) (i : nat) : Prop :=
  ∃ q, queue (sched k) !! lv = Some q ∧ Proc i ∈ q.

(** The entries of level [lv] are null or processes of the table whose
    scheduler record points back to the slot they sit in. *)
Definition level_points_back (k : kernel) (lv : nat) (q : list procptr) : Prop :=
  ∀ i x, q !! i = Some x → x ≠ Null →
    ∃ j pr, x = Proc j ∧ ptable k !! j = Some pr ∧
            level (pmlfq pr) = Z.of_nat lv ∧ index (pmlfq pr) = i.

(** The table offset a queue entry stands for. *)
Definition offset_of (x : procptr) : nat :=
  match x with
  | Proc j => j
  | _ => 0%nat
  end.

(** Every entry of every level is null or a process of the table. *)
Definition valid_entry (pt : list proc) (q : procptr) : Prop :=
  match q with
  | Null => True
  | MlfqProc => False
  | Proc j => (j < length pt)%nat
  end.

#[global] Instance valid_entry_dec pt q : Decision (valid_entry pt q).
Proof. destruct q; simpl; apply _. Defined.

Definition wf_queues (k : kernel) : Prop :=
  Forall (Forall (valid_entry (ptable k))) (queue (sched k)).

(** The round-robin scan as the specification words it: the positions of
    a level taken circularly from [start], and the first of them whose
    process has a RUNNABLE thread. *)
Definition circular (start : nat) : list nat :=
  seq start (NPROC - start) ++ seq 0 start.

Definition hit (pt : list proc) (q : list procptr) (pos : nat)
  : option (nat * procptr * Z) :=
  match q !! pos with
  | Some (Proc j) =>
      match pt !! j with
      | Some p => if decide (runnable p = -1) then None
                  else Some (pos, Proc j, runnable p)
      | None => None
      end
  | _ => None
  end.

Fixpoint first_hit (pt : list proc) (q : list procptr) (ps : list nat)
  : option (nat * procptr * Z) :=
  match ps with
  | [] => None
  | pos :: ps' =>
      match hit pt q pos with
      | Some r => Some r
      | None => first_hit pt q ps'
      end
  end.

(** Where the next scan of level [l] starts: the position after the one
    the saved iterator points to. *)
Definition cursor (m : mlfq) (l : nat) : option nat :=
  c ← iterstate m !! l; Some (S c mod NPROC)%nat.

(** The entry at [pos] is a process with a RUNNABLE thread. *)
Definition entry_runs (pt : list proc) (q : list procptr) (pos : nat) : Prop :=
  ∃ j p, q !! pos = Some (Proc j) ∧ pt !! j = Some p ∧ has_runnable p.

(** [pos] is the first position of [ps] that satisfies [P]. *)
Definition first_in (ps : list nat) (P : nat → Prop) (pos : nat) : Prop :=
  ∃ n, ps !! n = Some pos ∧ P pos ∧
       ∀ m pos', (m < n)%nat → ps !! m = Some pos' → ¬ P pos'.

(** An idle level: none of its entries has a RUNNABLE thread. *)
Definition level_idle (pt : list proc) (q : list procptr) : Prop :=
  ∀ pos, ¬ entry_runs pt q pos.

#[global] Instance wf_queues_dec k : Decision (wf_queues k).
Proof. unfold wf_queues. apply _. Defined.

(** *** Tickets *)

Definition ticket_sum (s : stride) : Z := foldr Z.add 0 (ticket s).
Definition reserved_sum (s : stride) : Z := foldr Z.add 0 (drop 1 (ticket s)).

(** The two totals of the data model. *)
Definition ticket_inv (s : stride) : Prop :=
  ticket_sum s = MAXTICKET ∧ reserved_sum s <= MAXSTRIDE.

(** What the stride operations keep true besides the totals. *)
Definition stride_inv (k : kernel) : Prop :=
  let s := metasched (sched k) in
  length (ticket s) = NPROC ∧ length (s_queue s) = NPROC ∧
  s_queue s !! 0%nat = Some MlfqProc ∧
  (∀ i, s_queue s !! i = Some Null → ticket s !! i = Some 0) ∧
  (∀ i t, (0 < i)%nat → ticket s !! i = Some t → 0 <= t) ∧
  total s = reserved_sum s ∧
  (∀ p pr, ptable k !! p = Some pr → level (pmlfq pr) = -1 →
           (0 < index (pmlfq pr) < NPROC)%nat) ∧
  ticket_inv s.

(** The constants are [int]s and the cap lies between 0 and MAXTICKET. *)
Definition config_ok : Prop :=
  0 <= MAXSTRIDE ∧ MAXSTRIDE <= MAXTICKET ∧ MAXTICKET <= INT_MAX ∧
  (0 < NPROC)%nat.

(** The states the stride operations lead to from the initial one, as long
    as the sum [total + usage] of a request fits an [int].  [stride_delete]
    is called, by [mlfq_delete], for processes whose level is -1. *)
Inductive stride_reachable : kernel → Prop :=
  | reach_init pt m n :
      Forall (λ pr, level (pmlfq pr) ≠ -1) pt →
      stride_reachable (mkKernel pt mlfq_init m n)
  | reach_append k k' p usage r :
      stride_reachable k →
      is_int (total (metasched (sched k)) + usage) →
      stride_append k p usage = Ok (k', r) →
      stride_reachable k'
  | reach_delete k k' p pr :
      stride_reachable k →
      ptable k !! p = Some pr → level (pmlfq pr) = -1 →
      stride_delete k p = Ok k' →
      stride_reachable k'.

End Notions.

(** ** Notions for the other entry points *)

Section EntryNotions.
Context `{Config}.

(** Thread [j] of process [i]. *)
Definition thread_at (k : kernel) (i j : nat) : option thread :=
  p ← ptable k !! i; threads p !! j.

(** What [kill] does to a thread. *)
Definition roused (t t' : thread) : Prop :=
  tid t' = tid t ∧ kstack t' = kstack t ∧ chan t' = chan t ∧
  retval t' = retval t ∧
  t_state t' = (if decide (t_state t = SLEEPING) then RUNNABLE else t_state t).

(** What [allocproc] leaves behind when it finds the UNUSED slot [i]
    (holding [p], whose thread 0 is [t]), enters it at offset [idx] of
    level 0 and gets [page] for the kernel stack. *)
Definition allocated (k : kernel) (i idx : nat) (p : proc) (t : thread)
    (page : Z) : kernel :=
  mkKernel
    (<[i := mkProc EMBRYO (nextpid k) (killed p) 0 (sz p) (pgdir p) (parent p)
              (<[0%nat := mkThread EMBRYO (nexttid k) page (chan t) (retval t)]>
                 (threads p))
              (<[0%nat := page]> (replicate NTHREAD 0)) (replicate NTHREAD 0)
              (mkInfo 0 idx 0 (start (pmlfq p)))]> (ptable k))
    (set_queue
       (alter (λ q, <[idx := Proc i]> q) 0%nat (queue (sched k))) (sched k))
    (int_add (nextpid k) 1) (int_add (nexttid k) 1).

(** Every pid of the table, and every thread id, has been handed out
    already: it lies below the counter it was drawn from. *)
Definition pids_below (k : kernel) : Prop :=
  Forall (λ p, pid p < nextpid k) (ptable k).

Definition tids_below (k : kernel) : Prop :=
  Forall (λ p, Forall (λ t, tid t < nexttid k) (threads p)) (ptable k).

#[global] Instance pids_below_dec k : Decision (pids_below k).
Proof. unfold pids_below. apply _. Defined.

#[global] Instance tids_below_dec k : Decision (tids_below k).
Proof. unfold tids_below. apply _. Defined.

(** The entry at slot [pos.2] of level [pos.1]. *)
Definition entry2 (qs : list (list procptr)) (pos : nat * nat) : option procptr :=
  q ← qs !! pos.1; q !! pos.2.

Definition entry_at (k : kernel) (pos : nat * nat) : option procptr :=
  entry2 (queue (sched k)) pos.

(** The state after [mlfq_boost] has moved the entry [Proc n] from slot [i]
    of level [lv] to slot [j] of level 0; [pr] is the process as it was. *)
Definition boosted (k : kernel) (lv i n : nat) (pr : proc) (j : nat) : kernel :=
  set_ptable
    (<[n := set_pmlfq (mkInfo 0 j 0 (start (pmlfq pr))) pr]> (ptable k))
    (set_sched
       (set_queue
          (alter (λ q, <[i := Null]> q) lv
             (alter (λ q, <[j := Proc n]> q) 0%nat (queue (sched k))))
          (sched k)) k).

(** Empty slots of a queue, slots of the lower levels that hold a
    process, and empty slots of level 0. *)
Definition nulls (q : list procptr) : nat :=
  length (filter (λ x, x = Null) q).

Definition held (k : kernel) (ps : list (nat * nat)) : nat :=
  length (filter (λ pos, entry_at k pos ≠ Some Null) ps).

Definition lower_load (k : kernel) : nat := held k lower_slots.

Definition top_room (k : kernel) : nat :=
  nulls (default [] (queue (sched k) !! 0%nat)).

(** A slot of a level after the first. *)
Definition lower_slot (pos : nat * nat) : Prop :=
  (1 ≤ pos.1 < NMLFQ)%nat ∧ (pos.2 < NPROC)%nat.

(** What the loop of [mlfq_boost], started in [k], has done once it is
    through the slots [pre]: these are empty, the other lower slots and
    the entries level 0 had are as in [k], every process met so far
    stands in level 0 with no time used, and no other process has been
    touched. *)
Definition boost_inv (k : kernel) (pre : list (nat * nat)) (kc : kernel) : Prop :=
  (∀ pos, pos ∈ pre → entry_at kc pos = Some Null) ∧
  (∀ pos, lower_slot pos → pos ∉ pre → entry_at kc pos = entry_at k pos) ∧
  (∀ j x, entry_at k (0%nat, j) = Some x → x ≠ Null →
          entry_at kc (0%nat, j) = Some x) ∧
  (∀ pos n, pos ∈ pre → entry_at k pos = Some (Proc n) →
     ∃ pr', ptable kc !! n = Some pr' ∧
            level (pmlfq pr') = 0 ∧ elapsed (pmlfq pr') = 0 ∧
            entry_at kc (0%nat, index (pmlfq pr')) = Some (Proc n)) ∧
  (∀ n pr, ptable k !! n = Some pr →
     (∀ pos, pos ∈ pre → entry_at k pos ≠ Some (Proc n)) →
     ptable kc !! n = Some pr).

(** The scheduler hands the CPU to thread [ti] of process [n] at tick
    [now]: the thread was the first RUNNABLE one of the process and is now
    RUNNING, the process has it as its current thread and [now] as the
    start of its slice; no other thread, no other process and no queue is
    changed. *)
Definition handed (k k' : kernel) (n ti : nat) (now : Z) : Prop :=
  ∃ p t p',
    ptable k !! n = Some p ∧ first_runnable p ti ∧ threads p !! ti = Some t ∧
    ptable k' !! n = Some p' ∧ tidx p' = ti ∧
    threads p' !! ti = Some (set_t_state RUNNING t) ∧
    (∀ tj, tj ≠ ti → threads p' !! tj = threads p !! tj) ∧
    start (pmlfq p') = now ∧ level (pmlfq p') = level (pmlfq p) ∧
    index (pmlfq p') = index (pmlfq p) ∧
    (∀ m, m ≠ n → ptable k' !! m = ptable k !! m) ∧
    queue (sched k') = queue (sched k) ∧
    metasched (sched k') = metasched (sched k).

(** The thread offsets of a process taken circularly from the one after
    [t], without [t] itself, and what [next_thread] looks for among them. *)
Definition around (t : nat) : list nat :=
  seq (S t) (NTHREAD - S t) ++ seq 0 t.

Definition can_run (ts : list thread) (j : nat) : Prop :=
  t_state <$> ts !! j = Some RUNNABLE.

#[global] Instance can_run_dec ts j : Decision (can_run ts j).
Proof. unfold can_run. apply _. Defined.

(** What the wake-ups inside [exit] can do to a process: nothing but turn
    SLEEPING threads RUNNABLE. *)
Definition stirred_thread (t t' : thread) : Prop :=
  t' = t ∨ (t_state t = SLEEPING ∧ t' = set_t_state RUNNABLE t).

Definition stirred (q q' : proc) : Prop :=
  state q' = state q ∧ pid q' = pid q ∧ killed q' = killed q ∧
  tidx q' = tidx q ∧ sz q' = sz q ∧ pgdir q' = pgdir q ∧
  kstacks q' = kstacks q ∧ ustacks q' = ustacks q ∧ pmlfq q' = pmlfq q ∧
  Forall2 stirred_thread (threads q) (threads q').

(** What the loop of [exit] over the children has done to the table [pt0]
    once it is through the slots below [n]. *)
Definition reparent_inv (cur : nat) (initproc : procptr) (k0 : kernel)
    (n : nat) (kc : kernel) : Prop :=
  sched kc = sched k0 ∧ nextpid kc = nextpid k0 ∧ nexttid kc = nexttid k0 ∧
  length (ptable kc) = length (ptable k0) ∧
  ∀ i q, ptable k0 !! i = Some q →
    ∃ q', ptable kc !! i = Some q' ∧ stirred q q' ∧
          parent q' = if decide ((i < n)%nat ∧ parent q = Proc cur)
                      then initproc else parent q.

(** A process that has exited: ZOMBIE, and so is every thread of it that
    was in use. *)
Definition exited (p p' : proc) : Prop :=
  state p' = ZOMBIE ∧ pid p' = pid p ∧ pmlfq p' = pmlfq p ∧
  kstacks p' = kstacks p ∧ ustacks p' = ustacks p ∧
  length (threads p') = length (threads p) ∧
  Forall (λ t, t_state t = UNUSED ∨ t_state t = ZOMBIE) (threads p').

End EntryNotions.

(** ** A sample configuration and sample states *)

Definition sample_config : Config :=
  {| NPROC := 64; NTHREAD := 8; MAXTICKET := 100; MAXSTRIDE := 80;
     MAXPASS := 1000000; SCALEPASS := 1000 |}.

Section Samples.
#[local] Existing Instance sample_config.

Definition idle_thread : thread := mkThread UNUSED 0 0 0 0.
Definition idle_proc : proc :=
  mkProc UNUSED 0 0 0 0 0 Null (replicate NTHREAD idle_thread)
         (replicate NTHREAD 0) (replicate NTHREAD 0) (mkInfo 0 0 0 0).

(** The state right after [pinit]. *)
Definition boot : kernel := mkKernel (replicate NPROC idle_proc) mlfq_init 1 1.

(** A live process with one thread in state [st], scheduled at
    [(lv, idx)]. *)
Definition live_proc (id : Z) (st : procstate) (lv : Z) (idx : nat) : proc :=
  mkProc RUNNABLE id 0 0 4096 1 Null
         (<[0%nat := mkThread st id 1 0 0]> (replicate NTHREAD idle_thread))
         (<[0%nat := 1]> (replicate NTHREAD 0)) (replicate NTHREAD 0)
         (mkInfo lv idx 0 0).

(** Three stride processes in slots 1 to 3: the first sleeps, the other
    two can run and have the same pass, below that of the aggregate. *)
Definition stride_sample : kernel :=
  mkKernel
    (<[0%nat := live_proc 1 SLEEPING (-1) 1]>
       (<[1%nat := live_proc 2 RUNNABLE (-1) 2]>
          (<[2%nat := live_proc 3 RUNNABLE (-1) 3]> (replicate NPROC idle_proc))))
    (set_metasched
       (mkStride 5 60
          (f32_of_int 10 :: f32_of_int 2 :: f32_of_int 7 :: f32_of_int 7
             :: replicate (NPROC - 4) NOPASS)
          (40 :: 20 :: 20 :: 20 :: replicate (NPROC - 4) 0)
          (MlfqProc :: Proc 0 :: Proc 1 :: Proc 2 :: replicate (NPROC - 4) Null))
       mlfq_init)
    4 4.

(** A stride process that has been asleep since before an earlier rescale
    (slot 1, pass below zero) next to the aggregate about to cross
    MAXPASS. *)
Definition rescale_sample : kernel :=
  mkKernel
    (<[0%nat := live_proc 1 SLEEPING (-1) 1]> (replicate NPROC idle_proc))
    (set_metasched
       (mkStride 5 20
          (f32_of_int 1000000 :: f32_of_int (-998995)
             :: replicate (NPROC - 2) NOPASS)
          (80 :: 20 :: replicate (NPROC - 2) 0)
          (MlfqProc :: Proc 0 :: replicate (NPROC - 2) Null))
       mlfq_init)
    2 2.

(** The aggregate, with 70 tickets, about to cross MAXPASS next to a
    stride process with 30 tickets that has run once from pass 0: its pass
    is the float nearest to 100/30. *)
Definition round_sample : kernel :=
  mkKernel
    (<[0%nat := live_proc 1 SLEEPING (-1) 1]> (replicate NPROC idle_proc))
    (set_metasched
       (mkStride 5 30
          (f32_of_int 1000000 :: f32_div (f32_of_int 100) (f32_of_int 30)
             :: replicate (NPROC - 2) NOPASS)
          (70 :: 30 :: replicate (NPROC - 2) 0)
          (MlfqProc :: Proc 0 :: replicate (NPROC - 2) Null))
       mlfq_init)
    2 2.

(** A stride process that slept while the aggregate went on (slot 1, pass
    998999, the aggregate at 999999) and has just been woken; process 1
    stands in level 0 of the MLFQ. *)
Definition collide_sample : kernel :=
  mkKernel
    (<[0%nat := live_proc 1 RUNNABLE (-1) 1]>
       (<[1%nat := live_proc 2 RUNNABLE 0 0]> (replicate NPROC idle_proc)))
    (set_queue
       (<[0%nat := <[0%nat := Proc 1]> (replicate NPROC Null)]>
          (queue mlfq_init))
       (set_metasched
          (mkStride 5 20
             (f32_of_int 999999 :: f32_of_int 998999
                :: replicate (NPROC - 2) NOPASS)
             (80 :: 20 :: replicate (NPROC - 2) 0)
             (MlfqProc :: Proc 0 :: replicate (NPROC - 2) Null))
          mlfq_init))
    3 3.

(** The first process, running, entered in level 0. *)
Definition one_proc : kernel :=
  mkKernel
    (<[0%nat := live_proc 1 RUNNABLE 0 0]> (replicate NPROC idle_proc))
    (set_queue (<[0%nat := <[0%nat := Proc 0]> (replicate NPROC Null)]>
                  (queue mlfq_init)) mlfq_init)
    2 2.

(** What is left of process slot [i] after a call: the state of the
    process, the state of its thread 0 and the head of MLFQ level 0. *)
Definition creation_view (k : kernel) (i : nat)
  : option procstate * option procstate * option (list procptr) :=
  (state <$> ptable k !! i,
   ptable k !! i ≫= (λ p, t_state <$> threads p !! 0%nat),
   take 3 <$> queue (sched k) !! 0%nat).

(** Process 0 is the caller; process 1 is RUNNABLE and its thread 1, with
    id 7, has exited leaving 99; process 2 has exited as a whole, its
    thread 0 carries id 9. *)
Definition join_sample : kernel :=
  mkKernel
    (<[0%nat := live_proc 1 RUNNING 0 0]>
       (<[1%nat := upd_thread 1 (λ _, mkThread ZOMBIE 7 1 0 99)
                     (live_proc 2 RUNNABLE 0 1)]>
          (<[2%nat := set_state ZOMBIE (live_proc 9 ZOMBIE 0 2)]>
             (replicate NPROC idle_proc))))
    mlfq_init 10 10.

(** Process 0 has a thread asleep on channel 5 and one asleep on channel
    6; process 1 has exited while a thread of it was asleep on channel 5. *)
Definition sleep_sample : kernel :=
  mkKernel
    (<[0%nat := upd_thread 1 (λ _, mkThread SLEEPING 4 1 6 0)
                  (upd_thread 0 (λ t, mkThread SLEEPING (tid t) (kstack t) 5 0)
                     (live_proc 1 SLEEPING 0 0))]>
       (<[1%nat := set_state ZOMBIE
                     (upd_thread 0 (λ t, mkThread SLEEPING (tid t) (kstack t) 5 0)
                        (live_proc 2 SLEEPING 0 1))]>
          (replicate NPROC idle_proc)))
    mlfq_init 5 5.

(** The states of the first two threads of process [i]. *)
Definition thread_states (k : kernel) (i : nat) : option (list procstate) :=
  (λ p, t_state <$> take 2 (threads p)) <$> ptable k !! i.

(** Process 0 has used 25 ticks at level 0, the last slice began at tick
    100. *)
Definition tired_proc : proc :=
  set_pmlfq (mkInfo 0 0 25 100) (live_proc 1 RUNNABLE 0 0).

Definition tired : kernel :=
  mkKernel (<[0%nat := tired_proc]> (replicate NPROC idle_proc))
           (sched one_proc) 2 2.

(** Level 0 holds three processes; the first two can run, the third
    sleeps, and the iterator of the level points to the first. *)
Definition rr_sample : kernel :=
  mkKernel
    (<[0%nat := live_proc 1 RUNNABLE 0 0]>
       (<[1%nat := live_proc 2 RUNNABLE 0 1]>
          (<[2%nat := live_proc 3 SLEEPING 0 2]> (replicate NPROC idle_proc))))
    (set_queue
       (<[0%nat := Proc 0 :: Proc 1 :: Proc 2 :: replicate (NPROC - 3) Null]>
          (queue mlfq_init)) mlfq_init)
    4 4.

End Samples.

(** ** Sample states for the other entry points *)

Section EntrySamples.
#[local] Existing Instance sample_config.

(** The state a call leaves behind, or [d] when it faults. *)
Definition state_of {A : Type} (r : result (kernel * A)) (d : kernel) : kernel :=
  match r with
  | Ok (k, _) => k
  | Err _ => d
  end.


(** Process 0 runs on thread 0; its thread 1 (id 7) has exited leaving 99
    and still has its two stacks; thread 2 sleeps on the id 7 and thread 3
    can run. *)
Definition threads_proc : proc :=
  mkProc RUNNABLE 1 0 0 12288 1 Null
    (mkThread RUNNING 1 1 0 0 :: mkThread ZOMBIE 7 2 0 99
       :: mkThread SLEEPING 8 3 7 0 :: mkThread RUNNABLE 9 4 0 0
       :: replicate (NTHREAD - 4) idle_thread)
    (1 :: 2 :: 3 :: 4 :: replicate (NTHREAD - 4) 0)
    (0 :: 8192 :: 12288 :: 16384 :: replicate (NTHREAD - 4) 0)
    (mkInfo 0 0 0 0).

Definition threads_sample : kernel :=
  mkKernel (<[0%nat := threads_proc]> (replicate NPROC idle_proc))
           (sched one_proc) 2 10.

(** Three generations: process 0 is [initproc], process 1 is its child and
    process 2 the child of process 1; all three stand in level 0. *)
Definition family : kernel :=
  set_ptable
    (alter (set_parent (Proc 0)) 1%nat
       (alter (set_parent (Proc 1)) 2%nat (ptable rr_sample)))
    rr_sample.

Definition sample_paddr (i : nat) : Z := 2147483648 + 1024 * Z.of_nat i.

(** One process in each level: process 0 in slot 0 of level 0, process 1
    in slot 0 of level 1, process 2 in slot 1 of level 2. *)
Definition boost_sample : kernel :=
  mkKernel
    (<[0%nat := live_proc 1 RUNNABLE 0 0]>
       (<[1%nat := set_pmlfq (mkInfo 1 0 30 7) (live_proc 2 RUNNABLE 1 0)]>
          (<[2%nat := set_pmlfq (mkInfo 2 1 90 9) (live_proc 3 SLEEPING 2 1)]>
             (replicate NPROC idle_proc))))
    (set_queue
       [<[0%nat := Proc 0]> (replicate NPROC Null);
        <[0%nat := Proc 1]> (replicate NPROC Null);
        <[1%nat := Proc 2]> (replicate NPROC Null)]
       mlfq_init)
    4 4.

(** States reached by single calls. *)
Definition shared : kernel := state_of (stride_append one_proc 0 20) one_proc.
Definition shared_boot : kernel := state_of (stride_append boot 0 20) boot.
Definition entered : kernel := state_of (mlfq_append one_proc 1 0) one_proc.
Definition lifted : kernel :=
  match mlfq_boost boost_sample with
  | Ok k => k
  | Err _ => boost_sample
  end.
Definition picked : kernel :=
  match mlfq_next rr_sample 0 with
  | Ok (k, _, _) => k
  | Err _ => rr_sample
  end.
Definition rounded : kernel :=
  state_of (stride_update round_sample MlfqProc) round_sample.
Definition collided : kernel :=
  state_of (stride_update collide_sample MlfqProc) collide_sample.
Definition seeded : kernel := state_of (stride_append collided 1 10) collided.
Definition reserved : kernel := state_of (set_cpu_share rr_sample 0 20) rr_sample.
Definition overdrawn : kernel :=
  state_of (stride_append reserved 1 INT_MAX) reserved.

(** A table of the older stride scheduler with three participants. *)
Definition legacy_sample : Legacy.stride :=
  Legacy.mkStride 80 40
    (f32_of_int 10 :: f32_of_int 2 :: f32_of_int 7
       :: replicate (NPROC - 3) NOPASS)
    (60 :: 20 :: 20 :: replicate (NPROC - 3) 0)
    (MlfqProc :: Proc 0 :: Proc 1 :: replicate (NPROC - 3) Null).

(** A table of the older scheduler in which every pass is 0. *)
Definition legacy_flat : Legacy.stride :=
  Legacy.mkStride 80 0 (replicate NPROC (f32_of_int 0))
    (MAXTICKET :: replicate (NPROC - 1) 0)
    (MlfqProc :: replicate (NPROC - 1) Null).

Definition legacy_joined : Legacy.stride :=
  match Legacy.stride_append legacy_sample (ptable boot) 5 20 with
  | Ok (s, _, _) => s
  | Err _ => legacy_sample
  end.

Definition legacy_joined_table : list proc :=
  match Legacy.stride_append legacy_sample (ptable boot) 5 20 with
  | Ok (_, pt, _) => pt
  | Err _ => ptable boot
  end.

End EntrySamples.

(** * Properties *)

(** ** Arithmetic and list facts *)

(** The comparison of two numbers is the comparison of their keys. *)
Lemma f32_compare_key (x y : f32) :
  f32_nan x = false → f32_nan y = false →
  ∃ c, SFcompare x y = Some c ∧
    (c = Lt ↔ key_lt (f32_key x) (f32_key y)) ∧
    (c = Eq ↔ f32_key x = f32_key y).
Proof.
  intros Hx Hy. unfold key_lt.
  destruct x as [sx | sx | | sx mx ex], y as [sy | sy | | sy my ey];
    try discriminate; simpl SFcompare;
    try (destruct sx); try (destruct sy); simpl;
    try (eexists; split; [reflexivity |]; split; split;
         first [discriminate | lia | congruence | reflexivity]).
  - change (Pos.compare_cont Eq mx my) with (Pos.compare mx my).
    destruct (Z.compare_spec ex ey) as [He | He | He];
      [destruct (Pos.compare_spec mx my) as [Hm | Hm | Hm] | |];
      simpl; eexists; (split; [reflexivity |]); split; split;
      first [discriminate | lia | congruence | (intros; f_equal; lia) | idtac].
    all: try (intros [= ? ?]; lia).
  - change (Pos.compare_cont Eq mx my) with (Pos.compare mx my).
    destruct (Z.compare_spec ex ey) as [He | He | He];
      [destruct (Pos.compare_spec mx my) as [Hm | Hm | Hm] | |];
      simpl; eexists; (split; [reflexivity |]); split; split;
      first [discriminate | lia | congruence | (intros; f_equal; lia) | idtac].
    all: try (intros [= ? ?]; lia).
Qed.

Lemma f32_ltb_key (x y : f32) :
  f32_ltb x y = true ↔
  f32_nan x = false ∧ f32_nan y = false ∧ key_lt (f32_key x) (f32_key y).
Proof.
  unfold f32_ltb, SFltb. split.
  - destruct (f32_nan x) eqn:Hx; [by destruct x |].
    destruct (f32_nan y) eqn:Hy; [by destruct x, y |].
    destruct (f32_compare_key x y Hx Hy) as (c & -> & Hlt & _).
    destruct c; try done. intros _. split_and!; try done. by apply Hlt.
  - intros (Hx & Hy & Hk).
    destruct (f32_compare_key x y Hx Hy) as (c & -> & Hlt & _).
    by rewrite (proj2 Hlt Hk).
Qed.

Lemma f32_eqb_key (x y : f32) :
  f32_eqb x y = true ↔
  f32_nan x = false ∧ f32_nan y = false ∧ f32_key x = f32_key y.
Proof.
  unfold f32_eqb, SFeqb. split.
  - destruct (f32_nan x) eqn:Hx; [by destruct x |].
    destruct (f32_nan y) eqn:Hy; [by destruct x, y |].
    destruct (f32_compare_key x y Hx Hy) as (c & -> & _ & Heq).
    destruct c; try done. intros _. split_and!; try done. by apply Heq.
  - intros (Hx & Hy & Hk).
    destruct (f32_compare_key x y Hx Hy) as (c & -> & _ & Heq).
    by rewrite (proj2 Heq Hk).
Qed.

Lemma f32_leb_key (x y : f32) :
  f32_leb x y = true ↔
  f32_nan x = false ∧ f32_nan y = false ∧
  (key_lt (f32_key x) (f32_key y) ∨ f32_key x = f32_key y).
Proof.
  unfold f32_leb, SFleb. split.
  - destruct (f32_nan x) eqn:Hx; [by destruct x |].
    destruct (f32_nan y) eqn:Hy; [by destruct x, y |].
    destruct (f32_compare_key x y Hx Hy) as (c & -> & Hlt & Heq).
    destruct c; try done; intros _; split_and!; try done.
    + right. by apply Heq.
    + left. by apply Hlt.
  - intros (Hx & Hy & Hk).
    destruct (f32_compare_key x y Hx Hy) as (c & -> & Hlt & Heq).
    destruct Hk as [Hk | Hk]; [by rewrite (proj2 Hlt Hk) | by rewrite (proj2 Heq Hk)].
Qed.

Lemma f32_ltb_false (x y : f32) :
  f32_ltb x y = false ↔
  f32_nan x = true ∨ f32_nan y = true ∨ ¬ key_lt (f32_key x) (f32_key y).
Proof.
  rewrite <- not_true_iff_false, f32_ltb_key.
  destruct (f32_nan x), (f32_nan y); intuition (auto; congruence).
Qed.

Lemma f32_eqb_false (x y : f32) :
  f32_eqb x y = false ↔
  f32_nan x = true ∨ f32_nan y = true ∨ f32_key x ≠ f32_key y.
Proof.
  rewrite <- not_true_iff_false, f32_eqb_key.
  destruct (f32_nan x), (f32_nan y); intuition (auto; congruence).
Qed.

(** Unfolds the comparisons of the context into facts about keys. *)
Ltac f32_keys :=
  repeat match goal with
  | H : f32_ltb _ _ = true |- _ => apply f32_ltb_key in H as (? & ? & H)
  | H : f32_eqb _ _ = true |- _ => apply f32_eqb_key in H as (? & ? & H)
  | H : f32_leb _ _ = true |- _ => apply f32_leb_key in H as (? & ? & H)
  | H : f32_ltb _ _ = false |- _ => apply f32_ltb_false in H
  | H : f32_eqb _ _ = false |- _ => apply f32_eqb_false in H
  end.

Ltac key_arith :=
  unfold key_lt in *;
  repeat match goal with
  | |- context [f32_key ?x] =>
      let a := fresh "a" in let b := fresh "b" in let c := fresh "c" in
      destruct (f32_key x) as [[a b] c]
  | H : context [f32_key ?x] |- _ =>
      let a := fresh "a" in let b := fresh "b" in let c := fresh "c" in
      destruct (f32_key x) as [[a b] c]
  end;
  simpl in *;
  repeat match goal with
  | H : (_, _, _) = (_, _, _) |- _ => injection H as ? ? ?
  end;
  try (intros [= ? ? ?]);
  first [lia | congruence | (repeat f_equal; lia) | intuition (first [lia | congruence])].

Lemma f32_ltb_irrefl (x : f32) : f32_ltb x x = false.
Proof.
  apply f32_ltb_false. destruct (f32_nan x); [by left |].
  right; right. key_arith.
Qed.

(** A value below the least so far is below everything seen so far. *)
Lemma f32_lt_below (x m j : f32) :
  f32_ltb x m = true → f32_ltb j m = false →
  f32_ltb j x = false ∧ f32_eqb j x = false.
Proof.
  intros Hx Hj. f32_keys.
  split; [apply f32_ltb_false | apply f32_eqb_false];
    (destruct (f32_nan j) eqn:Hn; [by left |]);
    right; right; destruct Hj as [? | [? | Hj]]; try congruence; key_arith.
Qed.

Lemma f32_lt_not_lt (x m r : f32) :
  f32_ltb x m = true → f32_ltb x r = false → f32_ltb m r = false.
Proof.
  intros Hx Hr. f32_keys. apply f32_ltb_false.
  destruct (f32_nan r) eqn:Hn; [by right; left |].
  right; right. destruct Hr as [? | [? | Hr]]; try congruence. key_arith.
Qed.

Lemma f32_not_lt_trans (y m r : f32) :
  f32_nan m = false →
  f32_ltb y m = false → f32_ltb m r = false → f32_ltb y r = false.
Proof.
  intros Hm Hy Hr. f32_keys. apply f32_ltb_false.
  destruct (f32_nan y) eqn:Hny; [by left |].
  destruct (f32_nan r) eqn:Hnr; [by right; left |].
  right; right.
  destruct Hy as [? | [? | Hy]]; try congruence.
  destruct Hr as [? | [? | Hr]]; try congruence. key_arith.
Qed.

Lemma f32_not_lt_le (x y : f32) :
  f32_nan x = false → f32_nan y = false →
  f32_ltb x y = false → f32_leb y x = true.
Proof.
  intros Hx Hy Hlt. f32_keys. apply f32_leb_key. split_and!; try done.
  destruct Hlt as [? | [? | Hlt]]; try congruence.
  unfold key_lt in *.
  destruct (f32_key x) as [[a b] c], (f32_key y) as [[a' b'] c']; simpl in *.
  destruct (decide (a' = a ∧ b' = b ∧ c' = c)) as [(-> & -> & ->) | Hne];
    [by right | left; lia].
Qed.

Lemma f32_lt_le (x y : f32) : f32_ltb x y = true → f32_leb x y = true.
Proof.
  intros Hlt. f32_keys. apply f32_leb_key. split_and!; try done. by left.
Qed.

Lemma f32_leb_refl (x : f32) : f32_nan x = false → f32_leb x x = true.
Proof. intros Hx. apply f32_leb_key. split_and!; try done. by right. Qed.

Lemma f32_leb_trans (x y z : f32) :
  f32_leb x y = true → f32_leb y z = true → f32_leb x z = true.
Proof.
  intros Hxy Hyz. f32_keys. apply f32_leb_key. split_and!; try done.
  destruct Hxy as [Hxy | ->]; [| done].
  destruct Hyz as [Hyz | <-]; [| by left]. left. key_arith.
Qed.

Lemma f32_le_not_lt (m r a : f32) :
  f32_leb m r = true → f32_ltb m a = false → f32_ltb r a = false.
Proof.
  intros Hmr Hma. f32_keys. apply f32_ltb_false.
  destruct (f32_nan a) eqn:Hna; [by right; left |]. right; right.
  destruct Hma as [? | [? | Hma]]; try congruence.
  destruct Hmr as [Hmr | <-]; [key_arith | done].
Qed.

Lemma f32_leb_not_lt (x y : f32) : f32_leb x y = true → f32_ltb y x = false.
Proof.
  intros Hxy. f32_keys. apply f32_ltb_false. right; right.
  destruct Hxy as [Hxy | ->]; key_arith.
Qed.

Lemma wrap_int_id (z : Z) : is_int z → wrap_int z = z.
Proof.
  unfold is_int, INT_MIN, INT_MAX, wrap_int. intros Hz.
  rewrite Z.mod_small; lia.
Qed.

Lemma wrap_int_range (z : Z) : is_int (wrap_int z).
Proof.
  unfold is_int, INT_MIN, INT_MAX, wrap_int.
  pose proof (Z.mod_pos_bound (z + 2 ^ 31) (2 ^ 32)). lia.
Qed.

Lemma wrap_uint_id (z : Z) : is_uint z → wrap_uint z = z.
Proof.
  unfold is_uint, UINT_MAX, wrap_uint. intros Hz. rewrite Z.mod_small; lia.
Qed.

Lemma int_add_exact (a b : Z) : is_int (a + b) → int_add a b = a + b.
Proof. apply wrap_int_id. Qed.

Lemma access_ok {A : Type} (o : option A) (a : A) : o = Some a → access o = Ok a.
Proof. intros ->. reflexivity. Qed.

(** A loop over [seq] that keeps an invariant returns normally. *)
Lemma fold_result_seq {A : Type} (P : nat → A → Prop)
    (f : A → nat → result A) (len a : nat) (x : A) :
  P a x →
  (∀ i y, (a ≤ i < a + len)%nat → P i y → ∃ y', f y i = Ok y' ∧ P (S i) y') →
  ∃ r, fold_result f (seq a len) x = Ok r ∧ P (a + len)%nat r.
Proof.
  revert a x. induction len as [|len IH]; intros a x Hx Hstep; simpl.
  - exists x. rewrite Nat.add_0_r. done.
  - destruct (Hstep a x) as (y & Hy & HP); [lia | done |].
    rewrite Hy. simpl.
    destruct (IH (S a) y) as (r & Hr & HPr); [done | |].
    + intros i z Hi Hz. apply Hstep; [lia | done].
    + exists r. split; [done |]. by replace (a + S len)%nat with (S a + len)%nat by lia.
Qed.

Lemma zlookup_nat {A : Type} (l : list A) (n : nat) :
  zlookup l (Z.of_nat n) = l !! n.
Proof.
  unfold zlookup. destruct (Z.ltb_spec (Z.of_nat n) 0); [lia |].
  by rewrite Nat2Z.id.
Qed.

Lemma sum_insert (l : list Z) (i : nat) (old v : Z) :
  l !! i = Some old →
  foldr Z.add 0 (<[i := v]> l) = foldr Z.add 0 l - old + v.
Proof.
  revert i. induction l as [| a l IH]; intros [| i] Hi; simpl in *; try done.
  - injection Hi as ->. lia.
  - rewrite (IH i Hi). lia.
Qed.

Lemma sum_replicate_0 (n : nat) : foldr Z.add 0 (replicate n 0) = 0.
Proof. induction n as [| n IH]; simpl; [done | by rewrite IH]. Qed.

Lemma sum_nonneg (l : list Z) :
  (∀ j x, l !! j = Some x → 0 <= x) → 0 <= foldr Z.add 0 l.
Proof.
  induction l as [| b l IHl]; intros Hall; simpl; [lia |].
  pose proof (Hall 0%nat b eq_refl).
  assert (0 <= foldr Z.add 0 l); [| lia].
  apply IHl. intros j x Hx. by apply (Hall (S j)).
Qed.

Lemma sum_nonneg_ge (l : list Z) (i : nat) (t : Z) :
  (∀ j x, l !! j = Some x → 0 <= x) → l !! i = Some t →
  0 <= t <= foldr Z.add 0 l.
Proof.
  revert i. induction l as [| a l IH]; intros i Hall Hi; [done |].
  assert (Hrest : ∀ j x, l !! j = Some x → 0 <= x).
  { intros j x Hx. by apply (Hall (S j)). }
  pose proof (sum_nonneg l Hrest).
  pose proof (Hall 0%nat a eq_refl). destruct i as [| i]; simpl in *.
  - injection Hi as ->. lia.
  - pose proof (IH i Hrest Hi). lia.
Qed.

(** ** What single steps of the code compute *)

Section Steps.
Context `{Config}.

Lemma find_free_Some (q : list procptr) (idx : nat) :
  find_free q = Some idx ↔
  q !! idx = Some Null ∧ ∀ j x, q !! j = Some x → (j < idx)%nat → x ≠ Null.
Proof.
  unfold find_free. split.
  - intros Hf. apply fmap_Some in Hf as ([i x] & Hf & ->); simpl.
    apply list_find_Some in Hf as (Hx & -> & Hbefore). done.
  - intros [Hx Hbefore]. apply fmap_Some. exists (idx, Null). split; [| done].
    apply list_find_Some. done.
Qed.

Lemma find_free_None (q : list procptr) : find_free q = None ↔ Null ∉ q.
Proof.
  unfold find_free. rewrite fmap_None, list_find_None, Forall_forall.
  split; [intros Hq Hin; by apply (Hq Null) | intros Hq x Hx ->; done].
Qed.

Lemma find_free_lt (q : list procptr) (idx : nat) :
  find_free q = Some idx → (idx < length q)%nat.
Proof. intros [Hx _]%find_free_Some. by apply lookup_lt_Some in Hx. Qed.

Lemma runnable_spec (p : proc) :
  (runnable p = -1 ∧ ∀ tj t, threads p !! tj = Some t → t_state t ≠ RUNNABLE) ∨
  (∃ ti, runnable p = Z.of_nat ti ∧ first_runnable p ti).
Proof.
  unfold runnable, first_runnable.
  destruct (list_find _ (threads p)) as [[ti t] |] eqn:Hf.
  - right. exists ti. split; [done |].
    apply list_find_Some in Hf as (Ht & Hs & Hbefore). by exists t.
  - left. split; [done |]. rewrite list_find_None, Forall_lookup in Hf. done.
Qed.

Lemma runnable_has (p : proc) : runnable p ≠ -1 ↔ has_runnable p.
Proof.
  destruct (runnable_spec p) as [[Hr Hno] | (ti & Hr & t & Ht & Hs & _)];
    rewrite Hr.
  - split; [done |]. intros (ti & t & Ht & Hs). by destruct (Hno ti t Ht).
  - split; [| lia]. intros _. by exists ti, t.
Qed.

Lemma wf_stride_slot pt s i :
  wf_stride pt s → (0 < i < NPROC)%nat →
  ∃ x q, pass s !! i = Some x ∧ s_queue s !! i = Some q ∧ slot_ok pt x q = true.
Proof.
  intros (Hp & Hq & _ & Hall) Hi.
  destruct (lookup_lt_is_Some_2 (pass s) i) as [x Hx]; [lia |].
  destruct (lookup_lt_is_Some_2 (s_queue s) i) as [q Hx']; [lia |].
  exists x, q. split_and!; [done | done |].
  assert (Hd : drop 1 (pass s) !! (i - 1)%nat = Some x).
  { rewrite lookup_drop. by replace (1 + (i - 1))%nat with i by lia. }
  assert (Hd' : drop 1 (s_queue s) !! (i - 1)%nat = Some q).
  { rewrite lookup_drop. by replace (1 + (i - 1))%nat with i by lia. }
  pose proof (Forall2_lookup_lr _ _ _ _ _ _ Hall Hd Hd') as Hok.
  by apply Is_true_true.
Qed.

Lemma wf_stride_pos pt s : wf_stride pt s → (0 < NPROC)%nat.
Proof.
  intros (_ & Hq & H0 & _). apply lookup_lt_Some in H0. lia.
Qed.

(** The two ways [stride_append] can end, given a valid process pointer
    and a ticket array that has its slot 0. *)
Lemma stride_append_cases (k : kernel) (p : nat) (usage : Z) :
  (p < length (ptable k))%nat →
  (0 < length (ticket (metasched (sched k))))%nat →
  (stride_append k p usage = Ok (k, 0) ∧
   (MAXSTRIDE < int_add (total (metasched (sched k))) usage ∨ usage <= 0 ∨
    find_free (s_queue (metasched (sched k))) = None)) ∨
  (∃ k' idx, stride_append k p usage = Ok (k', 1) ∧
     ¬ MAXSTRIDE < int_add (total (metasched (sched k))) usage ∧ 0 < usage ∧
     find_free (s_queue (metasched (sched k))) = Some idx).
Proof.
  intros Hp Ht. unfold stride_append. cbv zeta.
  set (this := metasched (sched k)) in *.
  destruct (MAXSTRIDE <? int_add (total this) usage) eqn:Hcap; simpl.
  { left. split; [done |]. left. by apply Z.ltb_lt. }
  apply Z.ltb_ge in Hcap.
  destruct (usage <=? 0) eqn:Hu; simpl.
  { left. split; [done |]. right; left. by apply Z.leb_le. }
  apply Z.leb_gt in Hu.
  destruct (find_free (s_queue this)) as [idx |] eqn:Hf.
  2:{ left. split; [done |]. by right; right. }
  destruct (lookup_lt_is_Some_2 _ _ Hp) as [pr Hpr].
  destruct (lookup_lt_is_Some_2 _ _ Ht) as [t0 Ht0].
  rewrite Hpr; simpl. rewrite Ht0; simpl.
  right. eexists _, idx. split; [reflexivity |]. split_and!; [lia | done..].
Qed.

Lemma stride_append_success (k k' : kernel) (p : nat) (usage : Z) :
  stride_append k p usage = Ok (k', 1) →
  ∃ idx pr t0,
    ¬ MAXSTRIDE < int_add (total (metasched (sched k))) usage ∧ 0 < usage ∧
    find_free (s_queue (metasched (sched k))) = Some idx ∧
    ptable k !! p = Some pr ∧ ticket (metasched (sched k)) !! 0%nat = Some t0 ∧
    k' = appended k p usage idx pr t0.
Proof.
  unfold stride_append. cbv zeta.
  destruct (MAXSTRIDE <? int_add _ usage) eqn:Hcap; simpl; [congruence |].
  destruct (usage <=? 0) eqn:Hu; simpl; [congruence |].
  destruct (find_free _) as [idx |] eqn:Hf; [| congruence].
  destruct (ptable k !! p) as [pr |] eqn:Hpr; simpl; [| congruence].
  destruct (ticket _ !! 0%nat) as [t0 |] eqn:Ht0; simpl; [| congruence].
  intros [= <-]. exists idx, pr, t0.
  apply Z.ltb_ge in Hcap. apply Z.leb_gt in Hu.
  split_and!; try done. lia.
Qed.

Lemma stride_update_run (k : kernel) (p : procptr) (idx : nat) (x : f32) (t : Z) :
  serviced (ptable k) p = Ok idx →
  pass (metasched (sched k)) !! idx = Some x →
  ticket (metasched (sched k)) !! idx = Some t →
  let this := metasched (sched k) in
  let x' := f32_add x (f32_div (f32_of_int MAXTICKET) (f32_of_int t)) in
  stride_update k p =
  Ok (set_sched
        (set_metasched
           (mkStride (s_quantum this) (total this)
              (if f32_ltb (f32_of_int MAXPASS) x'
               then rescale <$> <[idx := x']> (pass this)
               else <[idx := x']> (pass this))
              (ticket this) (s_queue this))
           (sched k)) k, MLFQ_NEXT).
Proof.
  intros Hidx Hx Ht. unfold stride_update, serviced in *. cbv zeta.
  destruct p as [| | j]; simpl in *.
  - done.
  - injection Hidx as <-. by rewrite Hx, Ht.
  - destruct (ptable k !! j); simpl in *; [| done].
    injection Hidx as <-. by rewrite Hx, Ht.
Qed.

Lemma mlfq_append_ok (k : kernel) (p lv idx : nat) (q : list procptr) (pr : proc) :
  queue (sched k) !! lv = Some q →
  find_free q = Some idx →
  ptable k !! p = Some pr →
  mlfq_append k p (Z.of_nat lv) =
  Ok (set_ptable
        (<[p := set_pmlfq (mkInfo (Z.of_nat lv) idx 0 (start (pmlfq pr))) pr]>
           (ptable k))
        (set_sched
           (set_queue (<[lv := <[idx := Proc p]> q]> (queue (sched k))) (sched k))
           k), MLFQ_SUCCESS).
Proof.
  intros Hq Hf Hp. unfold mlfq_append.
  rewrite zlookup_nat, Hq; simpl. rewrite Hf, Hp; simpl.
  by rewrite Nat2Z.id.
Qed.


Lemma clear_slot_ok (k : kernel) (lv idx : nat) (q : list procptr) :
  queue (sched k) !! lv = Some q → (idx < length q)%nat →
  clear_slot k (Z.of_nat lv) idx =
  Ok (set_sched
        (set_queue (<[lv := <[idx := Null]> q]> (queue (sched k))) (sched k)) k).
Proof.
  intros Hq Hidx. unfold clear_slot. rewrite zlookup_nat, Hq; simpl.
  destruct (lookup_lt_is_Some_2 q idx Hidx) as [x ->]; simpl.
  by rewrite Nat2Z.id.
Qed.

End Steps.

(** ** C1: [stride_next] *)

Section StrideNext.
Context `{Config}.

Lemma next_inv_init pt s t0 : wf_stride pt s → next_inv pt s t0 1 (0%nat, t0).
Proof.
  intros Hwf. pose proof Hwf as (_ & _ & H0 & _).
  unfold next_inv; simpl. split_and!; try done.
  - lia.
  - split; [by exists MlfqProc | by left].
  - intros j xj xm Hj _ Hxj Hxm. assert (j = 0%nat) as -> by lia.
    rewrite Hxj in Hxm. injection Hxm as ->.
    split; [apply f32_ltb_irrefl | lia].
Qed.

Lemma next_inv_step pt s t0 i acc :
  wf_stride pt s → (1 ≤ i < NPROC)%nat → next_inv pt s t0 i acc →
  ∃ acc', stride_next_step pt s acc i = Ok acc' ∧ next_inv pt s t0 (S i) acc'.
Proof.
  intros Hwf Hi (Hm & Hel & Hmin & Ht0 & Ht).
  destruct acc as [m t]; simpl in *.
  destruct (wf_stride_slot pt s i Hwf) as (x & q & Hx & Hq & Hok); [lia |].
  assert (∃ xm, pass s !! m = Some xm) as [xm Hxm].
  { apply lookup_lt_is_Some_2. destruct Hwf as (-> & _). lia. }
  unfold stride_next_step; simpl. rewrite Hx, Hxm; simpl.
  (* the slot stays where it is *)
  assert (Hkeep : (¬ eligible pt s i ∨ f32_ltb x xm = false) →
                  next_inv pt s t0 (S i) (m, t)).
  { intros Hno. unfold next_inv; simpl. split_and!; try done; [lia |].
    intros j xj xm' Hj Helj Hxj Hxm'.
    destruct (decide (j = i)) as [-> | Hne]; [| apply Hmin; [lia | done..]].
    rewrite Hxj in Hx. injection Hx as ->.
    rewrite Hxm' in Hxm. injection Hxm as ->.
    destruct Hno as [Hno | Hle]; [done |]. split; [done | lia]. }
  destruct (is_nopass x) eqn:Hnp; simpl.
  { exists (m, t). split; [done |]. apply Hkeep. left.
    intros [(q' & Hq' & Hnn) _]. rewrite Hq in Hq'. injection Hq' as <-.
    destruct q; simpl in Hok; [done | done |].
    rewrite Hnp in Hok. done. }
  destruct (f32_ltb x xm) eqn:Hlt; simpl.
  2:{ exists (m, t). split; [done |]. apply Hkeep. by right. }
  rewrite Hq; simpl.
  destruct q as [| | j]; simpl in Hok; [congruence | done |].
  rewrite Hnp in Hok; simpl in Hok. apply bool_decide_eq_true in Hok.
  destruct (lookup_lt_is_Some_2 pt j Hok) as [p Hp].
  unfold runnable_at; simpl. rewrite Hp; simpl.
  destruct (runnable_spec p) as [[Hr Hnone] | (ti & Hr & Hfr)]; rewrite Hr.
  { destruct (decide (-1 = -1)) as [_ |]; [| done].
    exists (m, t). split; [done |]. apply Hkeep. left.
    intros [_ [-> | (j' & p' & Hq' & Hp' & ti & th & Hth & Hs)]]; [lia |].
    rewrite Hq in Hq'. injection Hq' as <-. rewrite Hp in Hp'.
    injection Hp' as <-. by destruct (Hnone ti th Hth). }
  destruct (decide (Z.of_nat ti = -1)) as [| _]; [lia |].
  exists (i, Z.of_nat ti). split; [done |].
  unfold next_inv; simpl. split_and!.
  - lia.
  - split; [by exists (Proc j) |]. right. exists j, p. split_and!; try done.
    destruct Hfr as (th & Hth & Hs & _). by exists ti, th.
  - intros j' xj xi Hj' Helj Hxj Hxi.
    rewrite Hx in Hxi. injection Hxi as <-.
    destruct (decide (j' = i)) as [-> | Hne].
    { rewrite Hx in Hxj. injection Hxj as <-.
      split; [apply f32_ltb_irrefl | lia]. }
    destruct (Hmin j' xj xm) as [Hle _]; [lia | done..|].
    destruct (f32_lt_below x xm xj Hlt Hle) as [Hl He].
    split; [done | congruence].
  - lia.
  - intros _. by exists j, p, ti.
Qed.

Lemma stride_next_slot_inv pt s t0 :
  wf_stride pt s →
  ∃ acc, stride_next_slot pt s t0 = Ok acc ∧ next_inv pt s t0 NPROC acc.
Proof.
  intros Hwf. pose proof (wf_stride_pos pt s Hwf) as Hpos.
  destruct (fold_result_seq (next_inv pt s t0) (stride_next_step pt s)
              (NPROC - 1) 1 (0%nat, t0)) as (r & Hr & Hinv).
  - by apply next_inv_init.
  - intros i y Hi Hy. apply next_inv_step; [done | lia | done].
  - exists r. split; [done |].
    by replace (1 + (NPROC - 1))%nat with NPROC in Hinv by lia.
Qed.

(** As long as no active slot carries the pass -1 (the stride state is
    well formed), [stride_next] returns the queue entry of a slot [m] that
    is active and can run, such that no active slot that can run (slot 0,
    the MLFQ aggregate, among them) has a smaller pass, and which is the
    lowest such slot when several share that pass; the thread index it
    reports is that of the first RUNNABLE thread of the chosen process
    (left as it was when slot 0 is chosen). *)
Lemma stride_next_min (k : kernel) (t0 : Z) :
  wf_stride (ptable k) (metasched (sched k)) →
  ∃ m q t,
    stride_next k t0 = Ok (q, t) ∧
    s_queue (metasched (sched k)) !! m = Some q ∧
    eligible (ptable k) (metasched (sched k)) m ∧
    (∀ j xj xm, eligible (ptable k) (metasched (sched k)) j →
       pass (metasched (sched k)) !! j = Some xj →
       pass (metasched (sched k)) !! m = Some xm →
       f32_ltb xj xm = false ∧ (f32_eqb xj xm = true → (m ≤ j)%nat)) ∧
    (m = 0%nat → q = MlfqProc ∧ t = t0) ∧
    (m ≠ 0%nat → ∃ j p ti, q = Proc j ∧ ptable k !! j = Some p ∧
       t = Z.of_nat ti ∧ first_runnable p ti).
Proof.
  intros Hwf.
  destruct (stride_next_slot_inv _ _ t0 Hwf)
    as ([m t] & Hrun & Hm & Hel & Hmin & Ht0 & Ht); simpl in *.
  pose proof Hel as [(q & Hq & Hnn) Hrn].
  exists m, q, t. unfold stride_next. rewrite Hrun; simpl. rewrite Hq; simpl.
  split_and!; try done.
  - intros j xj xm Helj Hxj Hxm. apply Hmin; try done.
    apply lookup_lt_Some in Hxj. destruct Hwf as (<- & _). done.
  - intros ->. destruct Hwf as (_ & _ & H0 & _). rewrite H0 in Hq.
    injection Hq as <-. auto.
  - intros Hne. destruct (Ht Hne) as (j & p & ti & Hq' & Hp & -> & Hfr).
    rewrite Hq in Hq'. injection Hq' as ->. by exists j, p, ti.
Qed.

End StrideNext.

Section StrideNextSamples.
#[local] Existing Instance sample_config.

Lemma wf_stride_boot : wf_stride (ptable boot) (metasched (sched boot)).
Proof. apply (bool_decide_unpack _). vm_compute. exact I. Qed.

Lemma wf_stride_sample :
  wf_stride (ptable stride_sample) (metasched (sched stride_sample)).
Proof. apply (bool_decide_unpack _). vm_compute. exact I. Qed.

Example stride_next_sample :
  stride_next (H := sample_config) stride_sample 0 = Ok (Proc 1, 0).
Proof. vm_compute. reflexivity. Qed.

(** Right after [pinit] only the aggregate is there. *)
Example stride_next_boot :
  stride_next (H := sample_config) boot 0 = Ok (MlfqProc, 0).
Proof. vm_compute. reflexivity. Qed.

(** C1.  The rescale of [stride_update] can leave an active slot with the
    pass -1, the value that marks a free slot.  In [collide_sample] the
    stride process of slot 1 has a RUNNABLE thread and the smaller pass,
    and [stride_next] returns it.  Once the aggregate has been serviced
    its pass is 1000.25 and that of slot 1 is 998999 - 999000 = -1: the
    slot is as active and as able to run as before and its pass is still
    the smallest, yet [stride_next] now returns the aggregate. *)
Theorem stride_next_skips_rescaled :
  wf_stride (ptable collide_sample) (metasched (sched collide_sample)) ∧
  stride_next collide_sample 0 = Ok (Proc 0, 0) ∧
  stride_update collide_sample MlfqProc = Ok (collided, MLFQ_NEXT) ∧
  ptable collided = ptable collide_sample ∧
  s_queue (metasched (sched collided))
  = s_queue (metasched (sched collide_sample)) ∧
  eligible (ptable collided) (metasched (sched collided)) 1 ∧
  ∃ x0 x1,
    pass (metasched (sched collided)) !! 0%nat = Some x0 ∧
    pass (metasched (sched collided)) !! 1%nat = Some x1 ∧
    (f32_val x0 == 4001 # 4)%Q ∧ (f32_val x1 == -1)%Q ∧
    f32_ltb x1 x0 = true ∧
    stride_next collided 0 = Ok (MlfqProc, 0).
Proof.
  split; [apply (bool_decide_unpack _); vm_compute; exact I |].
  split; [vm_compute; reflexivity |].
  split; [vm_compute; reflexivity |].
  split; [reflexivity |]. split; [reflexivity |].
  split.
  { split; [exists (Proc 0); split; [reflexivity | discriminate] |].
    right. exists 0%nat, (live_proc 1 RUNNABLE (-1) 1).
    split; [reflexivity |]. split; [reflexivity |].
    exists 0%nat, (mkThread RUNNABLE 1 1 0 0). split; reflexivity. }
  do 2 eexists. split; [reflexivity |]. split; [reflexivity |].
  split_and!; vm_compute; reflexivity.
Qed.

End StrideNextSamples.

(** ** C2: [mlfq_update] *)

Section MlfqUpdate.
Context `{Config}.

(** Distinct numbers below [n] that avoid [p] are fewer than [n]. *)
Lemma fewer_than (js : list nat) (n p : nat) :
  NoDup js → (∀ j, j ∈ js → (j < n)%nat ∧ j ≠ p) → (p < n)%nat →
  (length js < n)%nat.
Proof.
  intros Hnd Hall Hp.
  assert (Hsub : p :: js ⊆+ seq 0 n).
  { apply NoDup_submseteq.
    - apply NoDup_cons. split; [| done]. intros Hin. by destruct (Hall p Hin).
    - intros x [-> | Hin]%elem_of_cons; apply elem_of_seq; [lia |].
      destruct (Hall x Hin). lia. }
  apply submseteq_length in Hsub. rewrite length_seq in Hsub. simpl in Hsub. lia.
Qed.

(** A level whose entries point back to their slots has a free slot for a
    process that sits at another level: the other processes cannot fill
    its NPROC slots. *)
Lemma level_has_room (k : kernel) (lv p : nat) (q : list procptr) (pr : proc) :
  length (ptable k) = NPROC → length q = NPROC →
  level_points_back k lv q →
  ptable k !! p = Some pr → level (pmlfq pr) ≠ Z.of_nat lv →
  Null ∈ q.
Proof.
  intros Hpt Hq Hback Hp Hlv.
  destruct (decide (Null ∈ q)) as [| Hfull]; [done |]. exfalso.
  assert (Hentry : ∀ i j, (offset_of <$> q) !! i = Some j →
            ∃ pr', ptable k !! j = Some pr' ∧
                   level (pmlfq pr') = Z.of_nat lv ∧ index (pmlfq pr') = i).
  { intros i j Hj. rewrite list_lookup_fmap in Hj.
    destruct (q !! i) as [x |] eqn:Hx; [| done]. simpl in Hj.
    assert (x ≠ Null) as Hnn.
    { intros ->. apply Hfull. by eapply list_elem_of_lookup_2. }
    destruct (Hback i x Hx Hnn) as (j' & pr' & -> & Hrest).
    simpl in Hj. injection Hj as <-. by exists pr'. }
  pose proof (fewer_than (offset_of <$> q) NPROC p) as Hfew.
  rewrite length_fmap, Hq in Hfew. apply (Nat.lt_irrefl NPROC), Hfew.
  - apply NoDup_alt. intros i i' j Hi Hi'.
    destruct (Hentry i j Hi) as (pr1 & Hp1 & _ & <-).
    destruct (Hentry i' j Hi') as (pr2 & Hp2 & _ & <-).
    rewrite Hp1 in Hp2. by injection Hp2 as <-.
  - intros j [i Hi]%list_elem_of_lookup.
    destruct (Hentry i j Hi) as (pr' & Hp' & Hl & _).
    split; [apply lookup_lt_Some in Hp'; lia |].
    intros ->. rewrite Hp in Hp'. injection Hp' as <-. done.
  - apply lookup_lt_Some in Hp. lia.
Qed.

(** The state after the aggregate has been charged: only the passes can
    differ. *)
Lemma stride_update_aggregate (k : kernel) :
  wf_shape k →
  ∃ ps, stride_update k MlfqProc =
        Ok (set_sched
              (set_metasched
                 (mkStride (s_quantum (metasched (sched k)))
                    (total (metasched (sched k))) ps
                    (ticket (metasched (sched k)))
                    (s_queue (metasched (sched k))))
                 (sched k)) k, MLFQ_NEXT).
Proof.
  intros (Hpos & _ & _ & _ & _ & _ & _ & _ & Hp & Ht & _).
  destruct (lookup_lt_is_Some_2 (pass (metasched (sched k))) 0) as [x Hx]; [lia |].
  destruct (lookup_lt_is_Some_2 (ticket (metasched (sched k))) 0) as [t Htk]; [lia |].
  eexists. by apply (stride_update_run k MlfqProc 0 x t).
Qed.

(** C2.  Let [p] be a process of the MLFQ at level [L] that is neither
    ZOMBIE nor killed, in a kernel whose arrays have their declared sizes.
    If a level below [L] exists and [elapsed >= expire[L]], [mlfq_update]
    reports NEXT, [p] is at level [L + 1] with [elapsed = 0], the slot it
    took there points to it and its old slot is empty (the entries of the
    level below pointing back to their slots, as the data model has it, so
    that there is room).  Otherwise the processes and the queues stay as
    they are, and the report is NEXT when [ctime - start >= quantum[L]]
    (in [uint] arithmetic) and KEEP when not. *)
Theorem mlfq_update_policy (k : kernel) (p L : nat) (pr : proc)
    (ex qt ctime : Z) (qL : list procptr) :
  wf_shape k →
  ptable k !! p = Some pr →
  state pr ≠ ZOMBIE → killed pr = 0 →
  level (pmlfq pr) = Z.of_nat L →
  expire (sched k) !! L = Some ex →
  quantum (sched k) !! L = Some qt →
  queue (sched k) !! L = Some qL →
  (index (pmlfq pr) < length qL)%nat →
  ((S L < NMLFQ)%nat ∧ ex <= elapsed (pmlfq pr) →
   (∀ q', queue (sched k) !! S L = Some q' → level_points_back k (S L) q') →
   ∃ k' pr' q',
     mlfq_update k p ctime = Ok (k', MLFQ_NEXT) ∧
     ptable k' !! p = Some pr' ∧
     level (pmlfq pr') = Z.of_nat (S L) ∧ elapsed (pmlfq pr') = 0 ∧
     queue (sched k') !! S L = Some q' ∧
     q' !! index (pmlfq pr') = Some (Proc p) ∧
     queue (sched k') !! L = Some (<[index (pmlfq pr) := Null]> qL)) ∧
  (¬ ((S L < NMLFQ)%nat ∧ ex <= elapsed (pmlfq pr)) →
   ∃ k',
     mlfq_update k p ctime =
       Ok (k', if decide (qt <= uint_sub ctime (start (pmlfq pr)))
               then MLFQ_NEXT else MLFQ_KEEP) ∧
     ptable k' = ptable k ∧ queue (sched k') = queue (sched k) ∧
     iterstate (sched k') = iterstate (sched k)).
Proof.
  intros Hwf Hp Hz Hk HL Hex Hqt HqL Hidx.
  destruct (stride_update_aggregate k Hwf) as [ps Hagg].
  assert (HL1 : level (pmlfq pr) ≠ -1) by lia.
  split.
  - intros [HSL Hexp] Hback.
    pose proof Hwf as (_ & Hlpt & _ & _ & Hlq & Hlens & _).
    destruct (lookup_lt_is_Some_2 (queue (sched k)) (S L)) as [q' Hq']; [lia |].
    assert (Hfree : Null ∈ q').
    { apply (level_has_room k (S L) p q' pr); try done.
      - apply (Forall_lookup_1 _ _ _ _ Hlens Hq').
      - by apply Hback.
      - lia. }
    destruct (find_free q') as [idx' |] eqn:Hf.
    2:{ by apply find_free_None in Hf. }
    pose proof (find_free_lt _ _ Hf) as Hidx'.
    unfold mlfq_update. rewrite Hp; simpl.
    destruct (decide (state pr = ZOMBIE)); [done |].
    destruct (decide (killed pr ≠ 0)); [done |].
    destruct (decide (level (pmlfq pr) = -1)); [done |].
    rewrite Hagg; simpl. rewrite HL.
    destruct (Z.ltb_spec (Z.of_nat L + 1) (Z.of_nat NMLFQ)); [| lia].
    rewrite !zlookup_nat, Hex; simpl.
    destruct (Z.leb_spec ex (elapsed (pmlfq pr))); [| lia].
    replace (Z.of_nat L + 1) with (Z.of_nat (S L)) by lia.
    erewrite mlfq_append_ok; [| exact Hq' | exact Hf | exact Hp]. simpl.
    erewrite clear_slot_ok; [| simpl; rewrite list_lookup_insert_ne by lia; exact HqL | done].
    simpl. eexists _, _, _. split; [reflexivity |]. simpl.
    rewrite list_lookup_insert_eq by (by eapply lookup_lt_Some).
    split; [reflexivity |]. simpl.
    rewrite list_lookup_insert_ne by lia.
    rewrite list_lookup_insert_eq by (by eapply lookup_lt_Some).
    split_and!; try done.
    + by apply list_lookup_insert_eq.
    + apply list_lookup_insert_eq. rewrite length_insert. by eapply lookup_lt_Some.
  - intros Hno.
    unfold mlfq_update. rewrite Hp; simpl.
    destruct (decide (state pr = ZOMBIE)); [done |].
    destruct (decide (killed pr ≠ 0)); [done |].
    destruct (decide (level (pmlfq pr) = -1)); [done |].
    rewrite Hagg; simpl. rewrite HL.
    assert (Hexp : (if Z.of_nat L + 1 <? Z.of_nat NMLFQ
                    then ex0 ← access (zlookup (expire (sched k)) (Z.of_nat L));
                         Ok (ex0 <=? elapsed (pmlfq pr))
                    else Ok false) = Ok false).
    { destruct (Z.ltb_spec (Z.of_nat L + 1) (Z.of_nat NMLFQ)); [| done].
      rewrite !zlookup_nat, Hex; simpl.
      destruct (Z.leb_spec ex (elapsed (pmlfq pr))); [| done].
      exfalso. apply Hno. split; [lia | done]. }
    rewrite Hexp; simpl. rewrite !zlookup_nat, Hqt; simpl.
    eexists. split.
    { destruct (Z.ltb_spec (uint_sub ctime (start (pmlfq pr))) qt);
        destruct (decide (qt <= uint_sub ctime (start (pmlfq pr))));
        try lia; reflexivity. }
    done.
Qed.

End MlfqUpdate.

Section MlfqUpdateSamples.
#[local] Existing Instance sample_config.

Example mlfq_update_demotes :
  ('(k', v) ← mlfq_update tired 0 105;
   Ok (v, pmlfq <$> ptable k' !! 0%nat,
       take 2 <$> queue (sched k') !! 0%nat,
       take 2 <$> queue (sched k') !! 1%nat))
  = Ok (MLFQ_NEXT, Some (mkInfo 1 0 0 100),
        Some [Null; Null], Some [Proc 0; Null]).
Proof. vm_compute. reflexivity. Qed.

(** At the last level nothing is below: a full quantum gives NEXT, a
    shorter slice KEEP. *)
Example mlfq_update_last_level :
  let k := set_ptable (<[0%nat := set_pmlfq (mkInfo 2 0 500 100) tired_proc]>
                         (ptable tired)) tired in
  snd <$> mlfq_update k 0 120 = Ok MLFQ_NEXT ∧
  snd <$> mlfq_update k 0 119 = Ok MLFQ_KEEP.
Proof. split; vm_compute; reflexivity. Qed.

Lemma mlfq_update_policy_witness :
  ∃ k' pr' q',
    mlfq_update tired 0 105 = Ok (k', MLFQ_NEXT) ∧
    ptable k' !! 0%nat = Some pr' ∧
    level (pmlfq pr') = Z.of_nat 1 ∧ elapsed (pmlfq pr') = 0 ∧
    queue (sched k') !! 1%nat = Some q' ∧
    q' !! index (pmlfq pr') = Some (Proc 0) ∧
    queue (sched k') !! 0%nat =
      Some (<[index (pmlfq tired_proc) := Null]>
              (<[0%nat := Proc 0]> (replicate NPROC Null))).
Proof.
  refine (proj1 (mlfq_update_policy tired 0 0 tired_proc 20 5 105
                   (<[0%nat := Proc 0]> (replicate NPROC Null))
                   _ _ _ _ _ _ _ _ _) _ _).
  - apply (bool_decide_unpack _). vm_compute. exact I.
  - reflexivity.
  - discriminate.
  - reflexivity.
  - reflexivity.
  - reflexivity.
  - reflexivity.
  - reflexivity.
  - vm_compute. lia.
  - split; [vm_compute; lia | vm_compute; discriminate].
  - intros q' Hq'.
    assert (q' = replicate NPROC Null) as ->.
    { apply (inj Some). symmetry. exact Hq'. }
    intros i x Hx Hnn. apply lookup_replicate in Hx as [-> _]. done.
Defined.

End MlfqUpdateSamples.

(** ** C3: when [stride_append] refuses *)

Section StrideAppend.
Context `{Config}.

(** [stride_append] returns 0, and then leaves the whole state as it
    was, exactly when the [int] sum the code computes for [total + usage]
    exceeds MAXSTRIDE, or [usage <= 0], or no slot of the queue is free.
    That sum is the sum of the integers whenever the latter fits an [int];
    then a request that brings the total to exactly MAXSTRIDE is admitted
    when a slot is free, and one ticket more is refused. *)
Lemma stride_append_refuses (k : kernel) (p : nat) (usage : Z) :
  (p < length (ptable k))%nat →
  (0 < length (ticket (metasched (sched k))))%nat →
  is_int MAXSTRIDE → MAXSTRIDE < INT_MAX →
  let this := metasched (sched k) in
  ∃ k' r, stride_append k p usage = Ok (k', r) ∧ (r = 0 ∨ r = 1) ∧
    (r = 0 ↔ MAXSTRIDE < int_add (total this) usage ∨ usage <= 0 ∨
             Null ∉ s_queue this) ∧
    (is_int (total this + usage) →
     (r = 0 ↔ MAXSTRIDE < total this + usage ∨ usage <= 0 ∨
              Null ∉ s_queue this)) ∧
    (r = 0 → k' = k) ∧
    (total this + usage = MAXSTRIDE → 0 < usage → Null ∈ s_queue this → r = 1) ∧
    (total this + usage = MAXSTRIDE + 1 → r = 0).
Proof.
  intros Hp Ht Hms Hlt this. subst this.
  assert (∃ k' r, stride_append k p usage = Ok (k', r) ∧
            (r = 0 ∨ r = 1) ∧ (r = 0 → k' = k) ∧
            (r = 0 ↔ MAXSTRIDE < int_add (total (metasched (sched k))) usage ∨
                     usage <= 0 ∨ Null ∉ s_queue (metasched (sched k))))
    as (k' & r & Hrun & H01 & Hsame & Hr).
  { destruct (stride_append_cases k p usage Hp Ht)
      as [[Hr Hwhy] | (k1 & idx & Hr & Hcap & Hu & Hf)].
    - exists k, 0. split_and!; [done | by left | done |].
      rewrite <- find_free_None. done.
    - exists k1, 1. split_and!; [done | by right | done |]. split; [done |].
      intros [? | [? | Hn]]; [done | lia |].
      apply find_free_None in Hn. rewrite Hf in Hn. done. }
  exists k', r. split_and!; try done.
  - intros Hfit. by rewrite <- (int_add_exact _ _ Hfit).
  - intros Hsum Hu Hfree.
    destruct H01 as [-> | ->]; [| done]. exfalso.
    assert (int_add (total (metasched (sched k))) usage = MAXSTRIDE) as Hadd.
    { rewrite int_add_exact; [done | by rewrite Hsum]. }
    destruct Hr as [Hr _].
    destruct (Hr eq_refl) as [? | [? | ?]]; [lia | lia | done].
  - intros Hsum. apply Hr. left.
    rewrite int_add_exact; [lia |]. rewrite Hsum.
    unfold is_int, INT_MIN, INT_MAX in *. lia.
Qed.

End StrideAppend.

Section StrideAppendSamples.
#[local] Existing Instance sample_config.

(** Requests of 40, 40 and 40 tickets with MAXSTRIDE = 80: the third one
    is refused. *)
Example share_exhaustion :
  ('(k1, r1) ← stride_append boot 1 40;
   '(k2, r2) ← stride_append k1 2 40;
   '(k3, r3) ← stride_append k2 3 40;
   Ok (r1, r2, r3, total (metasched (sched k3))))
  = Ok (1, 1, 0, 80).
Proof. vm_compute. reflexivity. Qed.

Example stride_append_nonpositive : stride_append boot 1 0 = Ok (boot, 0).
Proof. vm_compute. reflexivity. Qed.

(** C3.  A request whose sum with the reserved total does not fit an
    [int]: process 0 holds 20 tickets, slots are free, and process 1 asks
    for INT_MAX.  The sum exceeds MAXSTRIDE, yet the call returns 1 and
    enters the process in slot 2 with all the tickets it asked for. *)
Theorem stride_append_admits_past_cap :
  set_cpu_share rr_sample 0 20 = Ok (reserved, 0) ∧
  total (metasched (sched reserved)) = 20 ∧
  Null ∈ s_queue (metasched (sched reserved)) ∧
  0 < INT_MAX ∧ is_int INT_MAX ∧
  MAXSTRIDE < total (metasched (sched reserved)) + INT_MAX ∧
  stride_append reserved 1 INT_MAX = Ok (overdrawn, 1) ∧
  overdrawn ≠ reserved ∧
  s_queue (metasched (sched overdrawn)) !! 2%nat = Some (Proc 1) ∧
  ticket (metasched (sched overdrawn)) !! 2%nat = Some INT_MAX.
Proof.
  split; [vm_compute; reflexivity |].
  split; [reflexivity |].
  split; [apply (list_elem_of_lookup_2 _ 2%nat); reflexivity |].
  split; [reflexivity |]. split; [split; discriminate |].
  split; [reflexivity |]. split; [vm_compute; reflexivity |].
  split; [| split; vm_compute; reflexivity].
  intros Heq. apply (f_equal (λ k, total (metasched (sched k)))) in Heq.
  vm_compute in Heq. discriminate.
Qed.

End StrideAppendSamples.

(** ** C4: the pass a new slot starts with *)

Section StrideSeed.
Context `{Config}.

Lemma minpass_fold (l : list f32) (m0 : f32) :
  (foldl minpass_step m0 l = m0 ∨
   ∃ i x, l !! i = Some x ∧ is_nopass x = false ∧ foldl minpass_step m0 l = x) ∧
  f32_ltb m0 (foldl minpass_step m0 l) = false ∧
  (f32_nan m0 = true → foldl minpass_step m0 l = m0) ∧
  (∀ i x, l !! i = Some x → is_nopass x = false →
     f32_ltb x (foldl minpass_step m0 l) = false).
Proof.
  revert m0. induction l as [| y l IH]; intros m0; simpl.
  { split_and!; [by left | apply f32_ltb_irrefl | done | intros i x Hx; done]. }
  destruct (IH (minpass_step m0 y)) as (Hatt & Hle & Hnan & Hall).
  unfold minpass_step in *.
  destruct (is_nopass y) eqn:Hnp; simpl in *.
  { split_and!; [| done | done |].
    - destruct Hatt as [-> | (i & x & Hx & Hnx & ->)]; [by left |].
      right. by exists (S i), x.
    - intros [| i] x Hx Hnx; simpl in Hx; [congruence | by apply (Hall i)]. }
  destruct (f32_ltb y m0) eqn:Hlt; simpl in *.
  - split_and!.
    + right. destruct Hatt as [-> | (i & x & Hx & Hnx & ->)];
        [by exists 0%nat, y | by exists (S i), x].
    + by apply (f32_lt_not_lt y).
    + intros Hm0. apply f32_ltb_key in Hlt as (_ & Hm & _). congruence.
    + intros [| i] x Hx Hnx; simpl in Hx; [| by apply (Hall i)].
      by injection Hx as <-.
  - split_and!; [| done | done |].
    + destruct Hatt as [-> | (i & x & Hx & Hnx & ->)]; [by left |].
      right. by exists (S i), x.
    + intros [| i] x Hx Hnx; simpl in Hx; [| by apply (Hall i)].
      injection Hx as <-.
      destruct (f32_nan m0) eqn:Hm0; [by rewrite (Hnan eq_refl) |].
      by apply (f32_not_lt_trans y m0).
Qed.

(** As long as no active slot carries the pass -1 (the stride state is
    well formed), the slot a successful [stride_append] fills starts with
    the pass of one of the slots that were active before the call, and
    none of these had a smaller one. *)
Lemma stride_append_seeds_min (k k' : kernel) (p : nat) (usage : Z) :
  wf_stride (ptable k) (metasched (sched k)) →
  stride_append k p usage = Ok (k', 1) →
  ∃ idx m,
    find_free (s_queue (metasched (sched k))) = Some idx ∧
    s_queue (metasched (sched k')) !! idx = Some (Proc p) ∧
    pass (metasched (sched k')) !! idx = Some m ∧
    (∃ i, active_slot (metasched (sched k)) i ∧
          pass (metasched (sched k)) !! i = Some m) ∧
    (∀ i x, active_slot (metasched (sched k)) i →
       pass (metasched (sched k)) !! i = Some x → f32_ltb x m = false).
Proof.
  intros Hwf Hrun.
  destruct (stride_append_success _ _ _ _ Hrun)
    as (idx & pr & t0 & _ & _ & Hf & _ & _ & ->).
  pose proof (wf_stride_pos _ _ Hwf) as Hpos.
  pose proof Hwf as (Hlp & Hlq & H0 & _).
  pose proof (find_free_lt _ _ Hf) as Hidx.
  destruct (lookup_lt_is_Some_2 (pass (metasched (sched k))) 0) as [x0 Hx0]; [lia |].
  exists idx, (minpass_of (pass (metasched (sched k)))). simpl.
  split_and!; [done | | | |].
  - apply list_lookup_insert_eq. lia.
  - apply list_lookup_insert_eq. lia.
  - unfold minpass_of. rewrite (list_lookup_total_correct _ _ _ Hx0).
    destruct (minpass_fold (drop 1 (pass (metasched (sched k)))) x0)
      as ([-> | Hatt] & _ & _ & _).
    + exists 0%nat. split; [by exists MlfqProc | done].
    + destruct Hatt as (i & x & Hx & Hnp & ->).
      rewrite lookup_drop in Hx. exists (1 + i)%nat. split; [| done].
      destruct (wf_stride_slot _ _ (1 + i) Hwf) as (x' & q & Hx' & Hq & Hok).
      { apply lookup_lt_Some in Hx. lia. }
      rewrite Hx in Hx'. injection Hx' as <-.
      exists q. split; [done |]. intros ->. simpl in Hok. congruence.
  - intros i x [q [Hq Hnn]] Hx.
    unfold minpass_of. rewrite (list_lookup_total_correct _ _ _ Hx0).
    destruct (minpass_fold (drop 1 (pass (metasched (sched k)))) x0)
      as (_ & Hle & _ & Hall).
    destruct i as [| i].
    + rewrite Hx0 in Hx. by injection Hx as <-.
    + apply (Hall i); [by rewrite lookup_drop |].
      destruct (wf_stride_slot _ _ (S i) Hwf) as (x' & q' & Hx' & Hq' & Hok).
      { apply lookup_lt_Some in Hx. lia. }
      rewrite Hx in Hx'. injection Hx' as <-.
      rewrite Hq in Hq'. injection Hq' as <-.
      destruct q; simpl in Hok; [done | done |].
      by apply andb_true_iff in Hok as [?%negb_true_iff _].
Qed.

End StrideSeed.

Section StrideSeedSamples.
#[local] Existing Instance sample_config.

(** C4.  In [collided] slot 1 is active and its pass, -1, is the smallest;
    a process admitted now starts with the pass of the aggregate,
    1000.25. *)
Theorem stride_append_seeds_above_rescaled :
  active_slot (metasched (sched collided)) 1 ∧
  find_free (s_queue (metasched (sched collided))) = Some 2%nat ∧
  stride_append collided 1 10 = Ok (seeded, 1) ∧
  ∃ x0 x1 m,
    pass (metasched (sched collided)) !! 0%nat = Some x0 ∧
    pass (metasched (sched collided)) !! 1%nat = Some x1 ∧
    pass (metasched (sched seeded)) !! 2%nat = Some m ∧
    (f32_val x0 == 4001 # 4)%Q ∧ (f32_val x1 == -1)%Q ∧
    m = x0 ∧ f32_ltb x1 m = true.
Proof.
  split; [exists (Proc 0); split; [reflexivity | discriminate] |].
  split; [vm_compute; reflexivity |].
  split; [vm_compute; reflexivity |].
  do 3 eexists. split; [reflexivity |]. split; [reflexivity |].
  split; [reflexivity |]. split_and!; vm_compute; reflexivity.
Qed.

Example stride_append_sample_pass :
  pass (metasched (sched (appended stride_sample 5 20 4 idle_proc 40))) !! 4%nat
  = Some (f32_of_int 2).
Proof. vm_compute. reflexivity. Qed.

End StrideSeedSamples.

(** ** C5: the ticket totals *)

Section Tickets.
Context `{Config}.

Lemma stride_inv_init pt m n :
  config_ok → Forall (λ pr, level (pmlfq pr) ≠ -1) pt →
  stride_inv (mkKernel pt mlfq_init m n).
Proof.
  intros (H0 & Hle & Hint & Hpos) Hlv. unfold stride_inv; simpl.
  rewrite !length_replicate.
  split_and!; try done; try lia.
  - intros [| i] Hi; simpl in *; [done |].
    apply lookup_replicate in Hi as [_ Hi]. by apply lookup_replicate.
  - intros [| i] t Hi Ht; simpl in *; [lia |].
    apply lookup_replicate in Ht as [-> _]. lia.
  - unfold reserved_sum; simpl. by rewrite drop_0, sum_replicate_0.
  - intros p pr Hp Hl. rewrite Forall_lookup in Hlv. by destruct (Hlv p pr Hp).
  - unfold ticket_inv, ticket_sum, reserved_sum; simpl.
    rewrite drop_0, sum_replicate_0. lia.
Qed.

Lemma stride_inv_append (k k' : kernel) (p : nat) (usage r : Z) :
  config_ok → stride_inv k →
  is_int (total (metasched (sched k)) + usage) →
  stride_append k p usage = Ok (k', r) →
  stride_inv k'.
Proof.
  intros (H0 & Hle & Hint & Hpos) Hinv Hfit Hrun.
  destruct (decide (r = 1)) as [-> | Hr].
  2:{ assert (k' = k) as ->; [| done].
      revert Hrun. unfold stride_append. cbv zeta.
      destruct (_ || _); [congruence |].
      destruct (find_free _); [| congruence].
      destruct (ptable k !! p); simpl; [| done].
      destruct (ticket _ !! 0%nat); simpl; [| done]. congruence. }
  destruct (stride_append_success _ _ _ _ Hrun)
    as (idx & pr & t0 & Hcap & Hu & Hf & Hp & Ht0 & ->).
  rewrite (int_add_exact _ _ Hfit) in Hcap.
  destruct Hinv as (Hlt & Hlq & Hq0 & Hfree & Hnn & Htot & Hlev & Hsum & Hres).
  pose proof Hf as [Hnull Hfirst]%find_free_Some.
  pose proof (find_free_lt _ _ Hf) as Hidx.
  destruct idx as [| j]; [rewrite Hq0 in Hnull; done |].
  pose proof (Hfree _ Hnull) as Hzero.
  destruct (ticket (metasched (sched k))) as [| t0' rest] eqn:Htk; [done |].
  simpl in Ht0. injection Ht0 as ->.
  unfold ticket_sum, reserved_sum in *. rewrite Htk in *. simpl in *.
  rewrite drop_0 in *.
  assert (Hge : 0 <= foldr Z.add 0 rest).
  { apply sum_nonneg. intros i x Hx. apply (Hnn (S i)); [lia | done]. }
  assert (Hsub : int_sub t0 usage = t0 - usage).
  { apply wrap_int_id. unfold is_int, INT_MIN, INT_MAX in *. lia. }
  unfold stride_inv, appended, ticket_inv, ticket_sum, reserved_sum; simpl.
  rewrite Htk; simpl.
  rewrite !length_insert, !drop_0, (int_add_exact _ _ Hfit), Hsub.
  rewrite (sum_insert rest j 0 usage Hzero).
  split_and!; try done.
  - rewrite list_lookup_insert_ne by done. done.
  - intros i Hi. destruct (decide (i = S j)) as [-> | Hne].
    { rewrite list_lookup_insert_eq in Hi by lia. done. }
    rewrite list_lookup_insert_ne in Hi by done.
    destruct i as [| i]; [rewrite Hq0 in Hi; done |]. simpl.
    rewrite list_lookup_insert_ne by lia.
    by apply (Hfree (S i)).
  - intros [| i] t Hi Ht; [lia |]. simpl in Ht.
    destruct (decide (i = j)) as [-> | Hne].
    + rewrite list_lookup_insert_eq in Ht by (by eapply lookup_lt_Some).
      injection Ht as <-. lia.
    + rewrite list_lookup_insert_ne in Ht by done.
      by apply (Hnn (S i)); [lia |].
  - lia.
  - intros q qr Hq Hl. destruct (decide (q = p)) as [-> | Hne].
    + rewrite list_lookup_insert_eq in Hq by (by eapply lookup_lt_Some).
      injection Hq as <-. simpl. lia.
    + rewrite list_lookup_insert_ne in Hq by done. by apply (Hlev q).
  - lia.
  - lia.
Qed.

Lemma stride_inv_delete (k : kernel) (p : nat) (pr : proc) :
  config_ok → stride_inv k →
  ptable k !! p = Some pr → level (pmlfq pr) = -1 →
  ∃ k', stride_delete k p = Ok k' ∧ stride_inv k'.
Proof.
  intros (H0 & Hle & Hint & Hpos) Hinv Hp Hl.
  destruct Hinv as (Hlt & Hlq & Hq0 & Hfree & Hnn & Htot & Hlev & Hsum & Hres).
  destruct (Hlev p pr Hp Hl) as [Hi0 Hi1].
  destruct (index (pmlfq pr)) as [| j] eqn:Hidx; [lia |].
  destruct (ticket (metasched (sched k))) as [| t0 rest] eqn:Htk; [simpl in Hlt; lia |].
  destruct (lookup_lt_is_Some_2 rest j) as [u Hu]; [simpl in Hlt; lia |].
  unfold ticket_sum, reserved_sum in *. rewrite Htk in *. simpl in *.
  rewrite drop_0 in *.
  assert (Hub : 0 <= u <= foldr Z.add 0 rest).
  { apply (sum_nonneg_ge rest j); [| done].
    intros i x Hx. apply (Hnn (S i)); [lia | done]. }
  assert (Hsub : int_sub (total (metasched (sched k))) u
                 = total (metasched (sched k)) - u).
  { apply wrap_int_id. unfold is_int, INT_MIN, INT_MAX in *. lia. }
  assert (Hadd : int_add t0 u = t0 + u).
  { apply wrap_int_id. unfold is_int, INT_MIN, INT_MAX in *. lia. }
  unfold stride_delete. rewrite Hp; simpl. rewrite Hidx, Htk; simpl.
  rewrite Hu; simpl. eexists. split; [reflexivity |].
  unfold stride_inv, ticket_inv, ticket_sum, reserved_sum; simpl.
  rewrite !length_insert, !drop_0, Hsub, Hadd.
  rewrite (sum_insert rest j u 0 Hu).
  split_and!; try done.
  - rewrite list_lookup_insert_ne by done. done.
  - intros i Hi. destruct (decide (i = S j)) as [-> | Hne].
    { simpl. apply list_lookup_insert_eq. by eapply lookup_lt_Some. }
    rewrite list_lookup_insert_ne in Hi by done.
    destruct i as [| i]; [rewrite Hq0 in Hi; done |]. simpl.
    rewrite list_lookup_insert_ne by lia. by apply (Hfree (S i)).
  - intros [| i] t Hi Ht; [lia |]. simpl in Ht.
    destruct (decide (i = j)) as [-> | Hne].
    + rewrite list_lookup_insert_eq in Ht by (by eapply lookup_lt_Some).
      injection Ht as <-. lia.
    + rewrite list_lookup_insert_ne in Ht by done. by apply (Hnn (S i)); [lia |].
  - lia.
  - lia.
  - lia.
Qed.

(** X28.  As long as no request overflows the [int] sum of the admission
    test, both totals hold in every state the stride operations lead to. *)
Lemma stride_reachable_inv (k : kernel) :
  config_ok → stride_reachable k → ticket_inv (metasched (sched k)).
Proof.
  intros Hcfg Hreach.
  assert (stride_inv k) as (_ & _ & _ & _ & _ & _ & _ & Hinv); [| done].
  induction Hreach as [pt m n Hpt | k k' p usage r _ IH Hfit Hrun
                       | k k' p pr _ IH Hp Hl Hrun].
  - by apply stride_inv_init.
  - by apply (stride_inv_append k k' p usage r).
  - destruct (stride_inv_delete k p pr Hcfg IH Hp Hl) as (k'' & Hrun' & Hinv).
    rewrite Hrun in Hrun'. by injection Hrun' as <-.
Qed.

End Tickets.

Section TicketSamples.
#[local] Existing Instance sample_config.

Lemma config_ok_sample : config_ok.
Proof. vm_compute. split_and!; try discriminate; lia. Qed.

(** C5.  From the initial state a request of 20 tickets is admitted, and
    then one of 2147483647: the [int] sum [total + usage] of the admission
    test wraps around to -2147483629, which is not above MAXSTRIDE.  The
    tickets of the slots after slot 0 then add up to 2147483667, far above
    MAXSTRIDE = 80.  A third request of the same size is admitted as well,
    [ticket[0]] wraps around, and the tickets no longer add up to
    MAXTICKET = 100 either. *)
Theorem stride_append_overflow_breaks_totals :
  ('(k1, r1) ← stride_append boot 1 20;
   '(k2, r2) ← stride_append k1 2 2147483647;
   '(k3, r3) ← stride_append k2 3 2147483647;
   Ok (r1, r2, r3,
       (total (metasched (sched k2)), take 3 (ticket (metasched (sched k2))),
        ticket_sum (metasched (sched k2)), reserved_sum (metasched (sched k2)),
        bool_decide (ticket_inv (metasched (sched k2)))),
       (take 4 (ticket (metasched (sched k3))),
        ticket_sum (metasched (sched k3)),
        bool_decide (ticket_inv (metasched (sched k3))))))
  = Ok (1, 1, 1,
        (-2147483629, [-2147483567; 20; 2147483647], 100, 2147483667, false),
        ([82; 20; 2147483647; 2147483647], 4294967396, false)).
Proof. vm_compute. reflexivity. Qed.

End TicketSamples.

(** ** C6: [mlfq_next] *)

Section MlfqNext.
Context `{Config}.

(** One turn of the loop body of [mlfq_next] at position [pos]. *)
Lemma scan_level_turn fuel pt q c flag iter pos :
  (flag = true ∨ iter ≠ S c) →
  pos = (if (iter =? NPROC)%nat then 0%nat else iter) →
  (pos < length q)%nat → Forall (valid_entry pt) q →
  scan_level (S fuel) pt q c flag iter =
  match hit pt q pos with
  | Some r => Ok (Some r)
  | None => scan_level fuel pt q c false (S pos)
  end.
Proof.
  intros Htest -> Hpos Hq. simpl.
  assert ((flag || negb (iter =? c + 1)%nat) = true) as ->.
  { destruct Htest as [-> | Hne]; [done |].
    apply orb_true_iff. right. apply negb_true_iff, Nat.eqb_neq. lia. }
  set (pos := if (iter =? NPROC)%nat then 0%nat else iter) in *.
  destruct (lookup_lt_is_Some_2 q pos Hpos) as [x Hx].
  unfold hit. rewrite Hx; simpl.
  pose proof (Forall_lookup_1 _ _ _ _ Hq Hx) as Hv.
  destruct x as [| | j]; simpl in *; [done | done |].
  destruct (decide (Proc j = Null)); [done |].
  destruct (lookup_lt_is_Some_2 pt j Hv) as [p Hp].
  unfold runnable_at; simpl. rewrite Hp; simpl.
  by destruct (decide (runnable p = -1)).
Qed.

(** The last stretch of the scan: positions [i] up to the iterator. *)
Lemma scan_level_low pt q c n :
  ∀ fuel i, (i + n = S c)%nat → (n < fuel)%nat →
  (c < length q)%nat → length q = NPROC → Forall (valid_entry pt) q →
  (i = S c ∨ i < NPROC)%nat →
  scan_level fuel pt q c false i = Ok (first_hit pt q (seq i n)).
Proof.
  induction n as [| n IH]; intros fuel i Hin Hfuel Hc Hlen Hq Hi.
  - destruct fuel as [| fuel]; [lia |]. simpl.
    assert (i = S c) as -> by lia.
    replace (S c =? c + 1)%nat with true; [done |].
    symmetry. apply Nat.eqb_eq. lia.
  - destruct fuel as [| fuel]; [lia |].
    rewrite (scan_level_turn fuel pt q c false i i); try done.
    + simpl. destruct (hit pt q i); [done |].
      apply IH; try done; lia.
    + right. lia.
    + destruct (Nat.eqb_spec i NPROC); [lia | done].
    + lia.
Qed.

(** The first stretch: positions [i] up to the end of the array, then the
    wrap. *)
Lemma scan_level_high pt q c n :
  ∀ fuel i flag, (i + n = NPROC)%nat → (n + S c < fuel)%nat →
  (c < NPROC)%nat → length q = NPROC → Forall (valid_entry pt) q →
  (S c ≤ i)%nat → (i = S c → flag = true) →
  scan_level fuel pt q c flag i = Ok (first_hit pt q (seq i n ++ seq 0 (S c))).
Proof.
  induction n as [| n IH]; intros fuel i flag Hin Hfuel Hc Hlen Hq Hi Hflag.
  - assert (i = NPROC) as -> by lia. simpl.
    destruct fuel as [| fuel]; [lia |].
    rewrite (scan_level_turn fuel pt q c flag NPROC 0); try done.
    + destruct (hit pt q 0); [done |].
      apply (scan_level_low pt q c c fuel 1); try done; lia.
    + destruct (decide (NPROC = S c)) as [Heq | Hne]; [left; by apply Hflag | by right].
    + by rewrite Nat.eqb_refl.
    + lia.
  - destruct fuel as [| fuel]; [lia |].
    rewrite (scan_level_turn fuel pt q c flag i i); try done.
    + simpl. destruct (hit pt q i); [done |].
      apply IH; try done; lia.
    + destruct (decide (i = S c)) as [Heq | Hne]; [left; by apply Hflag | by right].
    + destruct (Nat.eqb_spec i NPROC); [lia | done].
    + lia.
Qed.

Lemma circular_after (c : nat) :
  (c < NPROC)%nat →
  circular (S c mod NPROC) = seq (S c) (NPROC - S c) ++ seq 0 (S c).
Proof.
  intros Hc. unfold circular.
  destruct (decide (S c = NPROC)) as [Heq | Hne].
  - rewrite Heq, Nat.Div0.mod_same, Nat.sub_diag, Nat.sub_0_r. simpl.
    by rewrite app_nil_r.
  - by rewrite Nat.mod_small by lia.
Qed.

(** The inner loop finishes within its step bound and finds what the
    circular scan from the cursor finds. *)
Lemma scan_level_circular pt q c :
  (c < NPROC)%nat → length q = NPROC → Forall (valid_entry pt) q →
  scan_level (S NPROC) pt q c true (S c) =
  Ok (first_hit pt q (circular (S c mod NPROC))).
Proof.
  intros Hc Hlen Hq. rewrite circular_after by done.
  apply scan_level_high; try done; lia.
Qed.

Lemma hit_Some pt q pos r :
  hit pt q pos = Some r →
  ∃ j p, q !! pos = Some (Proc j) ∧ pt !! j = Some p ∧ runnable p ≠ -1 ∧
         r = (pos, Proc j, runnable p).
Proof.
  unfold hit. destruct (q !! pos) as [[| | j] |]; try done.
  destruct (pt !! j) as [p |] eqn:Hp; [| done].
  destruct (decide (runnable p = -1)); [done |].
  intros [= <-]. by exists j, p.
Qed.

Lemma hit_None pt q pos : hit pt q pos = None ↔ ¬ entry_runs pt q pos.
Proof.
  unfold hit, entry_runs. split.
  - intros Hh (j & p & Hq & Hp & Hr). rewrite Hq, Hp in Hh.
    apply runnable_has in Hr. by destruct (decide (runnable p = -1)).
  - intros Hno. destruct (q !! pos) as [[| | j] |]; try done.
    destruct (pt !! j) as [p |] eqn:Hp; [| done].
    destruct (decide (runnable p = -1)) as [| Hr]; [done |].
    exfalso. apply Hno. exists j, p. split_and!; try done.
    by apply runnable_has.
Qed.

Lemma first_hit_Some pt q ps r :
  first_hit pt q ps = Some r →
  ∃ pos, hit pt q pos = Some r ∧ first_in ps (entry_runs pt q) pos.
Proof.
  induction ps as [| a ps IH]; simpl; [done |].
  destruct (hit pt q a) as [r' |] eqn:Ha.
  - intros [= ->]. exists a. split; [done |]. exists 0%nat.
    split_and!; [done | | intros; lia].
    apply hit_Some in Ha as (j & p & ? & ? & ? & _).
    exists j, p. split_and!; try done. by apply runnable_has.
  - intros (pos & Hpos & n & Hn & HP & Hbefore)%IH. exists pos.
    split; [done |]. exists (S n). split_and!; [done | done |].
    intros [| m] pos' Hm Hpos'; simpl in Hpos'.
    + injection Hpos' as <-. by apply hit_None.
    + apply (Hbefore m); [lia | done].
Qed.

Lemma first_hit_None pt q ps :
  first_hit pt q ps = None ↔ ∀ pos, pos ∈ ps → ¬ entry_runs pt q pos.
Proof.
  induction ps as [| a ps IH]; simpl.
  { split; [| done]. intros _ pos Hin. by apply not_elem_of_nil in Hin. }
  destruct (hit pt q a) as [r |] eqn:Ha.
  - split; [done |]. intros Hall. exfalso.
    apply hit_Some in Ha as (j & p & ? & ? & ? & _).
    apply (Hall a); [by left |].
    exists j, p. split_and!; try done. by apply runnable_has.
  - rewrite IH. split.
    + intros Hall pos [-> | Hin]%elem_of_cons; [by apply hit_None | by apply Hall].
    + intros Hall pos Hin. apply Hall. by right.
Qed.

Lemma circular_all (s pos : nat) :
  (s ≤ NPROC)%nat → (pos < NPROC)%nat → pos ∈ circular s.
Proof.
  intros Hs Hpos. unfold circular. apply elem_of_app.
  destruct (decide (pos < s)%nat).
  - right. apply elem_of_seq. lia.
  - left. apply elem_of_seq. lia.
Qed.

Lemma first_hit_idle pt q s :
  (s ≤ NPROC)%nat → length q = NPROC →
  first_hit pt q (circular s) = None → level_idle pt q.
Proof.
  intros Hs Hlen Hnone pos Hrun. rewrite first_hit_None in Hnone.
  apply (Hnone pos); [| done]. apply circular_all; [done |].
  destruct Hrun as (j & p & Hq & _). apply lookup_lt_Some in Hq. lia.
Qed.

#[local] Arguments scan_level : simpl never.

(** The loop over the levels, from level [i] on. *)
Lemma mlfq_next_from_spec (n i : nat) (k : kernel) (t0 : Z) :
  wf_shape k → wf_queues k → (i + n = NMLFQ)%nat →
  ∃ k' ptr t,
    mlfq_next_from n i k t0 = Ok (k', ptr, t) ∧
    ((ptr = Null ∧ k' = k ∧ t = t0 ∧
      ∀ l q, (i ≤ l)%nat → queue (sched k) !! l = Some q →
             level_idle (ptable k) q) ∨
     (∃ l q c pos j p,
        (i ≤ l)%nat ∧ queue (sched k) !! l = Some q ∧
        iterstate (sched k) !! l = Some c ∧
        (∀ l' q', (i ≤ l' < l)%nat → queue (sched k) !! l' = Some q' →
                  level_idle (ptable k) q') ∧
        first_in (circular (S c mod NPROC)) (entry_runs (ptable k) q) pos ∧
        q !! pos = Some (Proc j) ∧ ptable k !! j = Some p ∧
        ptr = Proc j ∧ t = runnable p ∧ t ≠ -1 ∧
        k' = set_sched
               (set_iterstate (<[l := pos]> (iterstate (sched k))) (sched k)) k)).
Proof.
  intros Hwf Hq. revert i.
  pose proof Hwf as (Hpos & _ & _ & _ & Hlq & Hlens & Hli & Hits & _).
  induction n as [| n IH]; intros i Hin; simpl.
  { exists k, Null, t0. split; [done |]. left. split_and!; try done.
    intros l q Hl Hlq'. apply lookup_lt_Some in Hlq'. lia. }
  destruct (lookup_lt_is_Some_2 (queue (sched k)) i) as [q Hqi]; [lia |].
  destruct (lookup_lt_is_Some_2 (iterstate (sched k)) i) as [c Hci]; [lia |].
  pose proof (Forall_lookup_1 _ _ _ _ Hlens Hqi) as Hlen.
  pose proof (Forall_lookup_1 _ _ _ _ Hits Hci) as Hc. simpl in Hc.
  pose proof (Forall_lookup_1 _ _ _ _ Hq Hqi) as Hvalid.
  rewrite Hqi, Hci; simpl.
  rewrite (scan_level_circular _ _ _ Hc Hlen Hvalid); simpl.
  destruct (first_hit (ptable k) q (circular (S c mod NPROC)))
    as [[[pos ptr] idx] |] eqn:Hfh.
  - eexists _, _, _. split; [reflexivity |]. right.
    apply first_hit_Some in Hfh as (pos' & Hhit & Hfirst).
    apply hit_Some in Hhit as (j & p & Hqp & Hp & Hr & [= <- -> ->]).
    exists i, q, c, pos, j, p. split_and!; try done. intros l' q' Hl'. lia.
  - destruct (IH (S i)) as (k' & ptr & t & Hrun & Hres); [lia |].
    exists k', ptr, t. split; [done |].
    assert (Hidle : level_idle (ptable k) q).
    { apply (first_hit_idle _ _ (S c mod NPROC)); [| done | done].
      pose proof (Nat.mod_upper_bound (S c) NPROC). lia. }
    destruct Hres as [(-> & -> & -> & Hall) | Hfound].
    + left. split_and!; try done. intros l q' Hl Hq'.
      destruct (decide (l = i)) as [-> | Hne].
      * rewrite Hqi in Hq'. by injection Hq' as <-.
      * apply (Hall l); [lia | done].
    + right. destruct Hfound as (l & q' & c' & pos & j & p & Hl & Hrest).
      destruct Hrest as (Hq' & Hc' & Hbelow & Hrest).
      destruct Hrest as (Hfirst & Hqp & Hp & Hptr & Ht & Hr & Hk').
      exists l, q', c', pos, j, p. split; [lia |].
      split_and!; try done.
      intros l' q'' Hl' Hq''. destruct (decide (l' = i)) as [-> | Hne].
      * rewrite Hqi in Hq''. by injection Hq'' as <-.
      * apply (Hbelow l'); [lia | done].
Qed.

(** C6.  In a kernel whose arrays have their declared sizes and whose
    queue entries are processes of the table, [mlfq_next] returns, and
    leaves the processes and the queues as they are.  It returns null,
    changing nothing, exactly when no entry of any level has a RUNNABLE
    thread.  Otherwise there is a level [l] such that every level before
    it is idle, the entry returned is the first one with a RUNNABLE thread
    when the positions of level [l] are taken circularly from its cursor,
    the thread index reported is that of the first RUNNABLE thread of the
    process, the cursor of level [l] ends up just past the chosen
    position, and the iterators of the other levels are untouched. *)
Theorem mlfq_next_round_robin (k : kernel) (t0 : Z) :
  wf_shape k → wf_queues k →
  ∃ k' ptr t,
    mlfq_next k t0 = Ok (k', ptr, t) ∧
    ptable k' = ptable k ∧ queue (sched k') = queue (sched k) ∧
    (ptr = Null ↔
     ∀ l q, queue (sched k) !! l = Some q → level_idle (ptable k) q) ∧
    (ptr = Null → k' = k ∧ t = t0) ∧
    (ptr ≠ Null →
     ∃ l q s pos j p ti,
       queue (sched k) !! l = Some q ∧ cursor (sched k) l = Some s ∧
       (∀ l' q', (l' < l)%nat → queue (sched k) !! l' = Some q' →
                 level_idle (ptable k) q') ∧
       first_in (circular s) (entry_runs (ptable k) q) pos ∧
       q !! pos = Some ptr ∧ ptr = Proc j ∧ ptable k !! j = Some p ∧
       t = Z.of_nat ti ∧ first_runnable p ti ∧
       cursor (sched k') l = Some (S pos mod NPROC)%nat ∧
       (∀ l', l' ≠ l → iterstate (sched k') !! l' = iterstate (sched k) !! l')).
Proof.
  intros Hwf Hq.
  destruct (mlfq_next_from_spec NMLFQ 0 k t0 Hwf Hq) as (k' & ptr & t & Hrun & Hres);
    [done |].
  exists k', ptr, t. split; [done |].
  destruct Hres as [(-> & -> & -> & Hall) | Hfound].
  - split_and!; try done.
    split; [| done]. intros _ l q Hl. apply (Hall l); [lia | done].
  - destruct Hfound
      as (l & q & c & pos & j & p & _ & Hql & Hcl & Hbelow & Hfirst & Hqp & Hp
          & -> & -> & Hr & ->).
    simpl. split_and!; try done.
    + split; [done |]. intros Hall. exfalso.
      destruct Hfirst as (n & _ & Hruns & _). by apply (Hall l q Hql pos).
    + intros _.
      destruct (runnable_spec p) as [[Hno _] | (ti & Hti & Hfr)]; [done |].
      exists l, q, (S c mod NPROC)%nat, pos, j, p, ti.
      split_and!; try done.
      * unfold cursor. by rewrite Hcl.
      * intros l' q' Hl'. apply Hbelow. lia.
      * unfold cursor; simpl.
        rewrite list_lookup_insert_eq by (by eapply lookup_lt_Some). done.
      * intros l' Hne. by rewrite list_lookup_insert_ne.
Qed.

End MlfqNext.

Section MlfqNextSamples.
#[local] Existing Instance sample_config.

(** The scan starts after the iterator: process 1 is served first, then
    process 0, then process 1 again. *)
Example mlfq_next_rounds :
  ('(k1, p1, _) ← mlfq_next rr_sample 0;
   '(k2, p2, _) ← mlfq_next k1 0;
   '(k3, p3, _) ← mlfq_next k2 0;
   Ok (p1, p2, p3, iterstate (sched k3)))
  = Ok (Proc 1, Proc 0, Proc 1, [1; 0; 0]%nat).
Proof. vm_compute. reflexivity. Qed.

(** With the iterator on the last entry of the level the scan wraps and
    starts at position 0. *)
Example mlfq_next_wraps :
  ('(k1, p1, _) ← mlfq_next
      (set_sched (set_iterstate [63; 0; 0]%nat (sched rr_sample)) rr_sample) 0;
   Ok (p1, iterstate (sched k1)))
  = Ok (Proc 0, [0; 0; 0]%nat).
Proof. vm_compute. reflexivity. Qed.

Example mlfq_next_nothing : mlfq_next boot 7 = Ok (boot, Null, 7).
Proof. vm_compute. reflexivity. Qed.

Lemma mlfq_next_round_robin_witness :
  ∃ k' ptr t,
    mlfq_next rr_sample 0 = Ok (k', ptr, t) ∧
    ptable k' = ptable rr_sample ∧ queue (sched k') = queue (sched rr_sample) ∧
    (ptr = Null ↔
     ∀ l q, queue (sched rr_sample) !! l = Some q →
            level_idle (ptable rr_sample) q) ∧
    (ptr = Null → k' = rr_sample ∧ t = 0) ∧
    (ptr ≠ Null →
     ∃ l q s pos j p ti,
       queue (sched rr_sample) !! l = Some q ∧
       cursor (sched rr_sample) l = Some s ∧
       (∀ l' q', (l' < l)%nat → queue (sched rr_sample) !! l' = Some q' →
                 level_idle (ptable rr_sample) q') ∧
       first_in (circular s) (entry_runs (ptable rr_sample) q) pos ∧
       q !! pos = Some ptr ∧ ptr = Proc j ∧ ptable rr_sample !! j = Some p ∧
       t = Z.of_nat ti ∧ first_runnable p ti ∧
       cursor (sched k') l = Some (S pos mod NPROC)%nat ∧
       (∀ l', l' ≠ l →
              iterstate (sched k') !! l' = iterstate (sched rr_sample) !! l')).
Proof.
  apply (mlfq_next_round_robin rr_sample 0).
  - apply (bool_decide_unpack _). vm_compute. exact I.
  - apply (bool_decide_unpack _). vm_compute. exact I.
Defined.

End MlfqNextSamples.

(** ** C7: the rescale of [stride_update] *)

Section StrideUpdate.
Context `{Config}.

Lemma rescale_pos (y : f32) :
  f32_ltb (f32_of_int 0) y = true →
  rescale y = f32_sub y (f32_of_int (int_sub MAXPASS SCALEPASS)).
Proof. intros Hy. unfold rescale. by rewrite Hy. Qed.

Lemma rescale_nonpos (y : f32) : f32_ltb (f32_of_int 0) y = false → rescale y = y.
Proof. intros Hy. unfold rescale. by rewrite Hy. Qed.

(** X29.  What [stride_update] does to the passes, in float arithmetic.
    The serviced slot is charged the float quotient MAXTICKET / ticket,
    added with rounding; nothing but the passes changes.  When the charged
    pass does not compare greater than MAXPASS (which includes its not
    being a number) no other slot is touched.  When it does, every slot
    whose pass compares greater than 0 gets the rounded float difference
    [pass - (MAXPASS - SCALEPASS)], and every other slot, active or not,
    keeps its pass. *)
Lemma stride_update_rescales (k k' : kernel) (p : procptr) (idx : nat)
    (x : f32) (t : Z) (v : verdict) :
  serviced (ptable k) p = Ok idx →
  pass (metasched (sched k)) !! idx = Some x →
  ticket (metasched (sched k)) !! idx = Some t →
  stride_update k p = Ok (k', v) →
  let x' := f32_add x (f32_div (f32_of_int MAXTICKET) (f32_of_int t)) in
  let charged := <[idx := x']> (pass (metasched (sched k))) in
  v = MLFQ_NEXT ∧ ptable k' = ptable k ∧
  queue (sched k') = queue (sched k) ∧
  ticket (metasched (sched k')) = ticket (metasched (sched k)) ∧
  s_queue (metasched (sched k')) = s_queue (metasched (sched k)) ∧
  total (metasched (sched k')) = total (metasched (sched k)) ∧
  (f32_ltb (f32_of_int MAXPASS) x' = false →
   pass (metasched (sched k')) = charged) ∧
  (f32_ltb (f32_of_int MAXPASS) x' = true →
   ∀ j y, charged !! j = Some y →
     ∃ y', pass (metasched (sched k')) !! j = Some y' ∧
       (f32_ltb (f32_of_int 0) y = true →
        y' = f32_sub y (f32_of_int (int_sub MAXPASS SCALEPASS))) ∧
       (f32_ltb (f32_of_int 0) y = false → y' = y)).
Proof.
  intros Hidx Hx Ht Hrun x' charged.
  rewrite (stride_update_run k p idx x t Hidx Hx Ht) in Hrun. cbv zeta in Hrun.
  injection Hrun as <- <-. simpl. split_and!; try done.
  - intros Hsmall. fold x'. by rewrite Hsmall.
  - intros Hbig j y Hy. fold x'. rewrite Hbig.
    exists (rescale y). rewrite list_lookup_fmap. fold charged. rewrite Hy.
    split_and!; [done | apply rescale_pos | apply rescale_nonpos].
Qed.

End StrideUpdate.

Section StrideUpdateSamples.
#[local] Existing Instance sample_config.

(** C7.  The aggregate is serviced in [rescale_sample]: its pass goes
    from 1000000 to 1000000 + 100/80, which exceeds MAXPASS, and the
    rescale takes MAXPASS - SCALEPASS off it; slot 1 is active, yet its
    pass is not reduced, so the distance between the two passes is not
    what it was.  Every float involved stands for the number named. *)
Theorem stride_update_skips_nonpositive :
  ∃ k' x0 x1,
    stride_update rescale_sample MlfqProc = Ok (k', MLFQ_NEXT) ∧
    active_slot (metasched (sched rescale_sample)) 1 ∧
    pass (metasched (sched rescale_sample)) !! 1%nat
    = Some (f32_of_int (-998995)) ∧
    pass (metasched (sched k')) !! 0%nat = Some x0 ∧
    pass (metasched (sched k')) !! 1%nat = Some x1 ∧
    (f32_val x0 == 1000000 + 100 / 80 - (inject_Z MAXPASS - inject_Z SCALEPASS))%Q ∧
    x1 = f32_of_int (-998995) ∧ (f32_val x1 == -998995)%Q ∧
    ¬ (f32_val x0 - f32_val x1 == (1000000 + 100 / 80) - (-998995))%Q.
Proof.
  do 3 eexists. split; [reflexivity |].
  split; [exists (Proc 0); split; [reflexivity | discriminate] |].
  split; [reflexivity |]. split; [reflexivity |]. split; [reflexivity |].
  split; [vm_compute; reflexivity |]. split; [reflexivity |].
  split; [vm_compute; reflexivity |].
  vm_compute. discriminate.
Qed.

End StrideUpdateSamples.

(** ** C8: [wakeup] *)

Section Wakeup.
Context `{Config}.

Lemma wake_thread_fields (c : Z) (t : thread) :
  tid (wake_thread c t) = tid t ∧ kstack (wake_thread c t) = kstack t ∧
  chan (wake_thread c t) = chan t ∧ retval (wake_thread c t) = retval t.
Proof. unfold wake_thread. by destruct (decide _). Qed.

Lemma wake_proc_fields (c : Z) (p : proc) :
  state (wake_proc c p) = state p ∧ pid (wake_proc c p) = pid p ∧
  killed (wake_proc c p) = killed p ∧ tidx (wake_proc c p) = tidx p ∧
  sz (wake_proc c p) = sz p ∧ pgdir (wake_proc c p) = pgdir p ∧
  parent (wake_proc c p) = parent p ∧ kstacks (wake_proc c p) = kstacks p ∧
  ustacks (wake_proc c p) = ustacks p ∧ pmlfq (wake_proc c p) = pmlfq p ∧
  length (threads (wake_proc c p)) = length (threads p).
Proof.
  unfold wake_proc. destruct (decide _); simpl; split_and!; try done.
  by rewrite length_fmap.
Qed.

Lemma wake_proc_thread (c : Z) (p : proc) (j : nat) (t : thread) :
  threads p !! j = Some t →
  ∃ t', threads (wake_proc c p) !! j = Some t' ∧
    (woken c p t → t_state t' = RUNNABLE) ∧
    (¬ woken c p t → t' = t).
Proof.
  intros Ht. unfold wake_proc, woken.
  destruct (decide (state p = RUNNABLE)) as [Hp | Hp]; simpl.
  - rewrite list_lookup_fmap, Ht; simpl. eexists; split; [done |].
    unfold wake_thread. destruct (decide _) as [Hw | Hw]; simpl.
    + split; [done | intros Hn; by destruct Hn].
    + split; [intros (_ & ? & ?); by destruct Hw | done].
  - exists t. split; [done |]. split; [intros [? _]; done | done].
Qed.

(** C8.  [wakeup(chan)] leaves the scheduler structures, the counters, the
    size of the table and every field of every process other than its
    threads as they were; a thread becomes RUNNABLE when it is SLEEPING on
    [chan] in a process whose state is RUNNABLE, and every other thread
    is left exactly as it was (those that are woken change in their state
    only). *)
Theorem wakeup_exact (k : kernel) (c : Z) :
  sched (wakeup k c) = sched k ∧
  nextpid (wakeup k c) = nextpid k ∧ nexttid (wakeup k c) = nexttid k ∧
  length (ptable (wakeup k c)) = length (ptable k) ∧
  ∀ i p, ptable k !! i = Some p →
    ∃ p', ptable (wakeup k c) !! i = Some p' ∧
      state p' = state p ∧ pid p' = pid p ∧ killed p' = killed p ∧
      tidx p' = tidx p ∧ sz p' = sz p ∧ pgdir p' = pgdir p ∧
      parent p' = parent p ∧ kstacks p' = kstacks p ∧
      ustacks p' = ustacks p ∧ pmlfq p' = pmlfq p ∧
      length (threads p') = length (threads p) ∧
      ∀ j t, threads p !! j = Some t →
        ∃ t', threads p' !! j = Some t' ∧
          tid t' = tid t ∧ kstack t' = kstack t ∧ chan t' = chan t ∧
          retval t' = retval t ∧
          (woken c p t → t_state t' = RUNNABLE) ∧
          (¬ woken c p t → t_state t' = t_state t).
Proof.
  unfold wakeup, wakeup1; simpl. split_and!; try done.
  { by rewrite length_fmap. }
  intros i p Hp. exists (wake_proc c p).
  rewrite list_lookup_fmap, Hp; simpl.
  destruct (wake_proc_fields c p)
    as (? & ? & ? & ? & ? & ? & ? & ? & ? & ? & ?).
  split_and!; try done.
  intros j t Ht. destruct (wake_proc_thread c p j t Ht) as (t' & Ht' & Hw & Hn).
  exists t'. split; [done |].
  destruct (decide (woken c p t)) as [Hyes | Hno].
  - assert (t' = wake_thread c t) as ->.
    { unfold wake_proc in Ht'. destruct Hyes as (Hr & _).
      destruct (decide (state p = RUNNABLE)); [| done]. simpl in Ht'.
      rewrite list_lookup_fmap, Ht in Ht'. by injection Ht' as <-. }
    destruct (wake_thread_fields c t) as (? & ? & ? & ?).
    split_and!; try done; by apply Hw.
  - rewrite (Hn Hno). split_and!; done.
Qed.

End Wakeup.

Section WakeupSamples.
#[local] Existing Instance sample_config.

(** Of the three sleepers only the one on channel 5 in the live process
    is woken. *)
Example wakeup_sample :
  thread_states (wakeup sleep_sample 5) 0 = Some [RUNNABLE; SLEEPING] ∧
  thread_states (wakeup sleep_sample 5) 1 = Some [SLEEPING; UNUSED].
Proof. split; vm_compute; reflexivity. Qed.

End WakeupSamples.

(** ** C9: allocation failures during process creation *)

Section AllocFailure.
Context `{Config}.

(** When [kalloc] fails in [allocproc] the slot goes back to UNUSED, yet
    the entry [mlfq_append] made for it stays in level 0. *)
Lemma allocproc_oom (k : kernel) (i idx : nat) (p : proc) (q0 : list procptr) :
  list_find (λ p, state p = UNUSED) (ptable k) = Some (i, p) →
  is_Some (threads p !! 0%nat) →
  queue (sched k) !! 0%nat = Some q0 →
  find_free q0 = Some idx →
  ∃ k' p',
    allocproc k 0 = Ok (k', Null) ∧
    ptable k' !! i = Some p' ∧ state p' = UNUSED ∧
    t_state <$> threads p' !! 0%nat = Some UNUSED ∧
    queue (sched k') !! 0%nat = Some (<[idx := Proc i]> q0) ∧
    registered k' 0 i.
Proof.
  intros Hfind [t Ht] Hq0 Hfree.
  pose proof Hfind as (Hi & _ & _)%list_find_Some.
  pose proof (lookup_lt_Some _ _ _ Hi) as Hlen.
  pose proof (lookup_lt_Some _ _ _ Hq0) as Hlenq.
  pose proof (find_free_lt _ _ Hfree) as Hidx.
  unfold allocproc. rewrite Hfind, Ht; simpl.
  match goal with
  | |- context [mlfq_append ?k1 i 0] =>
      pose proof (mlfq_append_ok k1 i 0 idx q0 _ Hq0 Hfree
                    (list_lookup_insert_eq _ _ _ Hlen)) as Happ
  end.
  change (Z.of_nat 0) with 0 in Happ. rewrite Happ. clear Happ.
  simpl. rewrite list_lookup_insert_eq by (by rewrite length_insert); simpl.
  destruct (decide (0 = 0)) as [_ |]; [| done].
  eexists _, _. split; [reflexivity |]. simpl.
  rewrite list_lookup_insert_eq by (by rewrite !length_insert).
  split; [reflexivity |]. simpl.
  rewrite list_lookup_alter, list_lookup_alter, Ht; simpl.
  rewrite list_lookup_insert_eq by done.
  split_and!; try done.
  exists (<[idx := Proc i]> q0). simpl.
  rewrite list_lookup_insert_eq by done. split; [done |].
  apply list_elem_of_lookup. exists idx. by apply list_lookup_insert_eq.
Qed.

(** The way out through [wait] does take the process out of its queue. *)
Lemma wait_reap_unregisters (k : kernel) (i L : nat) (p : proc)
    (q : list procptr) :
  ptable k !! i = Some p → level (pmlfq p) = Z.of_nat L →
  queue (sched k) !! L = Some q → (index (pmlfq p) < length q)%nat →
  ∃ k' p',
    wait_reap k i = Ok (k', pid p) ∧
    ptable k' !! i = Some p' ∧ state p' = UNUSED ∧
    queue (sched k') !! L = Some (<[index (pmlfq p) := Null]> q).
Proof.
  intros Hp HL Hq Hidx. unfold wait_reap, mlfq_delete. rewrite Hp; simpl.
  rewrite list_lookup_insert_eq by (by eapply lookup_lt_Some). simpl.
  destruct (decide (level (pmlfq p) = -1)); [lia |].
  rewrite HL. erewrite clear_slot_ok; [| exact Hq | done]. simpl.
  eexists _, _. split; [reflexivity |]. simpl.
  rewrite list_lookup_insert_eq by (by eapply lookup_lt_Some).
  split; [reflexivity |]. split; [reflexivity |].
  apply list_lookup_insert_eq. by eapply lookup_lt_Some.
Qed.

End AllocFailure.

Section AllocFailureSamples.
#[local] Existing Instance sample_config.

(** C9.  In [one_proc], [allocproc] with a failing [kalloc] returns 0 and
    [fork] with a failing [copyuvm] returns -1; in both cases the process
    slot and its thread 0 are UNUSED again, but slot 1 of MLFQ level 0
    still points to the process.  A later [fork] that succeeds takes the
    same process slot and enters it a second time. *)
Theorem failed_creation_stays_registered :
  ('(k1, r) ← allocproc one_proc 0; Ok (r, creation_view k1 1))
  = Ok (Null, (Some UNUSED, Some UNUSED, Some [Proc 0; Proc 1; Null])) ∧
  ('(k2, r) ← fork one_proc 0 4096 0; Ok (r, creation_view k2 1))
  = Ok (-1, (Some UNUSED, Some UNUSED, Some [Proc 0; Proc 1; Null])) ∧
  ('(k2, _) ← fork one_proc 0 4096 0;
   '(k3, r) ← fork k2 0 4096 8192; Ok (r, creation_view k3 1))
  = Ok (3, (Some RUNNABLE, Some RUNNABLE, Some [Proc 0; Proc 1; Proc 1])).
Proof. split_and!; vm_compute; reflexivity. Qed.

End AllocFailureSamples.

(** ** C10: which threads [thread_join] can find *)

Section ThreadJoin.
Context `{Config}.

Lemma thread_slot_Some (t0 : Z) (p : proc) (j : nat) :
  thread_slot t0 p = Some j ↔
  ∃ t, threads p !! j = Some t ∧ tid t = t0 ∧
       ∀ j' t', threads p !! j' = Some t' → (j' < j)%nat → tid t' ≠ t0.
Proof.
  unfold thread_slot. split.
  - intros ([j' t] & Hf & ->)%fmap_Some; simpl.
    apply list_find_Some in Hf as (Ht & Htid & Hbefore). by exists t.
  - intros (t & Ht & Htid & Hbefore). apply fmap_Some. exists (j, t).
    split; [| done]. by apply list_find_Some.
Qed.

Lemma thread_slot_None (t0 : Z) (p : proc) :
  thread_slot t0 p = None ↔ ∀ j t, threads p !! j = Some t → tid t ≠ t0.
Proof.
  unfold thread_slot. rewrite fmap_None, list_find_None, Forall_lookup.
  done.
Qed.

Lemma find_thread_None (pt : list proc) (n : nat) (t0 : Z) :
  find_thread pt n t0 = None ↔ ∀ i j, ¬ joinable pt t0 i j.
Proof.
  revert n. induction pt as [| p pt IH]; intros n; simpl.
  { split; [| done]. intros _ i j (p & t & Hp & _). done. }
  destruct (decide (state p = RUNNABLE)) as [Hr | Hr].
  - destruct (thread_slot t0 p) as [j |] eqn:Hs.
    + split; [done |]. intros Hno. exfalso.
      apply thread_slot_Some in Hs as (t & Ht & Htid & _).
      apply (Hno 0%nat j). by exists p, t.
    + rewrite IH. split.
      * intros Hno [| i] j (p' & t & Hp' & Hr' & Ht & Htid); simpl in Hp'.
        -- injection Hp' as <-. rewrite thread_slot_None in Hs.
           by apply (Hs j t).
        -- apply (Hno i j). by exists p', t.
      * intros Hno i j (p' & t & Hp' & Hrest). apply (Hno (S i) j).
        by exists p', t.
  - rewrite IH. split.
    + intros Hno [| i] j (p' & t & Hp' & Hr' & Ht & Htid); simpl in Hp'.
      * injection Hp' as <-. done.
      * apply (Hno i j). by exists p', t.
    + intros Hno i j (p' & t & Hp' & Hrest). apply (Hno (S i) j).
      by exists p', t.
Qed.

Lemma find_thread_Some (pt : list proc) (n : nat) (t0 : Z) (a j : nat) :
  find_thread pt n t0 = Some (a, j) →
  ∃ i, a = (n + i)%nat ∧ joinable pt t0 i j.
Proof.
  revert n. induction pt as [| p pt IH]; intros n; simpl; [done |].
  assert (Hrest : find_thread pt (S n) t0 = Some (a, j) →
                  ∃ i, a = (n + i)%nat ∧ joinable (p :: pt) t0 i j).
  { intros (i & -> & (p' & t & Hp' & Hr))%IH. exists (S i).
    split; [lia |]. by exists p', t. }
  destruct (decide (state p = RUNNABLE)) as [Hr | Hr]; [| done].
  destruct (thread_slot t0 p) as [j' |] eqn:Hs; [| done].
  intros [= <- <-]. exists 0%nat. split; [lia |].
  apply thread_slot_Some in Hs as (t & Ht & Htid & _). by exists p, t.
Qed.

Lemma thread_matches_spec (t0 : Z) (p : proc) (j : nat) :
  j ∈ thread_matches t0 p ↔ ∃ t, threads p !! j = Some t ∧ tid t = t0.
Proof.
  unfold thread_matches. rewrite list_elem_of_fmap. split.
  - intros ([j' t] & -> & [Htid Hin]%list_elem_of_filter); simpl in *.
    apply elem_of_lookup_imap in Hin as (j'' & t' & [= -> ->] & Ht). by exists t'.
  - intros (t & Ht & Htid). exists (j, t). split; [done |].
    apply list_elem_of_filter. split; [done |].
    apply elem_of_lookup_imap. by exists j, t.
Qed.

Lemma joinable_matches (pt : list proc) (t0 : Z) (i j : nat) :
  joinable pt t0 i j ↔ (i, j) ∈ table_matches pt t0.
Proof.
  unfold table_matches, joinable. rewrite list_elem_of_join. split.
  - intros (p & t & Hp & Hr & Ht & Htid).
    exists (pair i <$> thread_matches t0 p). split.
    + apply list_elem_of_fmap. exists j. split; [done |].
      apply thread_matches_spec. by exists t.
    + apply elem_of_lookup_imap. exists i, p.
      by destruct (decide (state p = RUNNABLE)).
  - intros (l & Hin & (i' & p & -> & Hp)%elem_of_lookup_imap).
    destruct (decide (state p = RUNNABLE)) as [Hr | Hr].
    2:{ by apply not_elem_of_nil in Hin. }
    apply list_elem_of_fmap in Hin as (j' & [= -> ->] & Hj).
    apply thread_matches_spec in Hj as (t & Ht & Htid). by exists p, t.
Qed.


End ThreadJoin.

Section ThreadJoinSamples.
#[local] Existing Instance sample_config.

(** A target that has not exited yet puts the caller to sleep on the
    thread id; when the caller runs again the slot is freed whatever the
    state of the target is by then. *)
Example thread_join_blocks :
  (o ← thread_join join_sample 0 2;
   match o with
   | JoinSleep k' pi ti =>
       '(k'', out) ← thread_join_resume k' 0 pi ti;
       Ok (pi, ti, ptable k' !! 0%nat ≫= (λ p, threads p !! 0%nat), out,
           ptable k'' !! pi ≫= (λ p, threads p !! ti))
   | _ => Err BadAccess
   end)
  = Ok (1%nat, 0%nat, Some (mkThread SLEEPING 1 1 2 0), 0,
        Some (mkThread UNUSED 0 0 0 0)).
Proof. vm_compute. reflexivity. Qed.


End ThreadJoinSamples.

(** ** The older [mlfq.c] *)

Section LegacyFacts.
Context `{Config}.

(** The loop of the older [stride_next] has no normal exit: it either
    keeps going back to slot 0 or runs off the end of the queue. *)
Lemma legacy_stride_next_never_returns (fuel : nat) (this : Legacy.stride) :
  length (Legacy.queue this) = NPROC →
  ∃ e, Legacy.stride_next fuel this = Err e.
Proof.
  intros Hlen. unfold Legacy.stride_next. generalize 1%nat as i.
  induction fuel as [| fuel IH]; intros i; simpl; [by eexists |].
  destruct (Nat.eqb_spec i NPROC) as [-> | Hne].
  - rewrite lookup_ge_None_2 by lia. by eexists.
  - destruct (Legacy.pass this !! i); simpl; [| by eexists].
    destruct (Legacy.pass this !! 0%nat); simpl; [| by eexists].
    apply IH.
Qed.

End LegacyFacts.

Section LegacySamples.
#[local] Existing Instance sample_config.

(** The older [stride_append] admits a request of -5 tickets, and gives a
    newcomer the largest pass in the table, not the smallest. *)
Example legacy_stride_append_differs :
  ('(s, _, r) ← Legacy.stride_append (Legacy.stride_init 80) (ptable boot) 1 (-5);
   Ok (r, take 2 (Legacy.ticket s)))
  = Ok (1, [105; -5]) ∧
  ('(s, _, r) ← Legacy.stride_append
                  (Legacy.mkStride 80 40
                     [f32_of_int 10; f32_of_int 2; f32_of_int 7; NOPASS]
                     [60; 20; 20; 0] [MlfqProc; Proc 0; Proc 1; Null])
                  (ptable boot) 5 20;
   Ok (r, Legacy.pass s !! 3%nat))
  = Ok (1, Some (f32_of_int 10)).
Proof. split; vm_compute; reflexivity. Qed.

End LegacySamples.

(** * Properties of the other entry points *)

(** ** Sleeping and waking *)

Section WakeupAlgebra.
Context `{Config}.

Lemma wake_thread_idem (c : Z) (t : thread) :
  wake_thread c (wake_thread c t) = wake_thread c t.
Proof.
  unfold wake_thread. destruct (decide (t_state t = SLEEPING ∧ chan t = c)) as [Hw | Hw].
  - destruct (decide _) as [[Hs _] | _]; [done | done].
  - destruct (decide _); done.
Qed.

Lemma wake_thread_comm (c c' : Z) (t : thread) :
  wake_thread c (wake_thread c' t) = wake_thread c' (wake_thread c t).
Proof.
  unfold wake_thread.
  destruct (decide (t_state t = SLEEPING ∧ chan t = c')) as [[Hs Hc'] | Hw'];
    destruct (decide (t_state t = SLEEPING ∧ chan t = c)) as [[Hs' Hc] | Hw];
    simpl; repeat (destruct (decide _) as [[? ?] | ?]; simpl in * ); try done;
    try congruence; try tauto.
Qed.

Lemma wake_proc_idem (c : Z) (p : proc) :
  wake_proc c (wake_proc c p) = wake_proc c p.
Proof.
  unfold wake_proc. destruct (decide (state p = RUNNABLE)) as [Hp | Hp]; simpl.
  - destruct (decide _) as [_ | Hn]; [| done]. unfold set_threads; simpl.
    f_equal. rewrite <- list_fmap_compose. apply list_fmap_ext.
    intros i t _. apply wake_thread_idem.
  - by destruct (decide _).
Qed.

Lemma wake_proc_comm (c c' : Z) (p : proc) :
  wake_proc c (wake_proc c' p) = wake_proc c' (wake_proc c p).
Proof.
  unfold wake_proc. destruct (decide (state p = RUNNABLE)) as [Hp | Hp]; simpl.
  - destruct (decide _) as [_ | Hn]; [| done]. unfold set_threads; simpl.
    f_equal. rewrite <- !list_fmap_compose. apply list_fmap_ext.
    intros i t _. apply wake_thread_comm.
  - by destruct (decide _).
Qed.

(** X1.  Waking a channel twice is the same as waking it once, and the
    order in which two channels are woken does not matter. *)
Theorem wakeup_idempotent_commutes (k : kernel) (c c' : Z) :
  wakeup (wakeup k c) c = wakeup k c ∧
  wakeup (wakeup k c) c' = wakeup (wakeup k c') c.
Proof.
  unfold wakeup, wakeup1, set_ptable; simpl. split; f_equal.
  - rewrite <- list_fmap_compose. apply list_fmap_ext.
    intros i p _. apply wake_proc_idem.
  - rewrite <- !list_fmap_compose. apply list_fmap_ext.
    intros i p _. simpl. apply wake_proc_comm.
Qed.

End WakeupAlgebra.

Section SleepWake.
Context `{Config}.

Lemma wake_thread_other (c : Z) (t : thread) :
  t_state t ≠ SLEEPING → wake_thread c t = t.
Proof.
  intros Hs. unfold wake_thread.
  destruct (decide (t_state t = SLEEPING ∧ chan t = c)) as [[? _] | _]; done.
Qed.

Lemma wake_thread_hit (c : Z) (t : thread) :
  t_state t = SLEEPING → chan t = c → wake_thread c t = set_t_state RUNNABLE t.
Proof.
  intros Hs Hc. unfold wake_thread.
  destruct (decide (t_state t = SLEEPING ∧ chan t = c)) as [_ | Hn]; [done |].
  by destruct Hn.
Qed.

Lemma thread_at_put (k : kernel) (i j : nat) (p p' : proc) :
  ptable k !! i = Some p →
  thread_at (set_ptable (<[i := p']> (ptable k)) k) i j = threads p' !! j.
Proof.
  intros Hp. unfold thread_at; simpl.
  rewrite list_lookup_insert_eq by (by eapply lookup_lt_Some). done.
Qed.

Lemma thread_at_put_ne (k : kernel) (i i' j : nat) (p' : proc) :
  i ≠ i' →
  thread_at (set_ptable (<[i := p']> (ptable k)) k) i' j = thread_at k i' j.
Proof.
  intros Hne. unfold thread_at; simpl. by rewrite list_lookup_insert_ne.
Qed.

Lemma thread_at_wakeup (k : kernel) (c : Z) (i j : nat) (p : proc) :
  ptable k !! i = Some p → state p = RUNNABLE →
  thread_at (wakeup k c) i j = wake_thread c <$> thread_at k i j.
Proof.
  intros Hp Hs. unfold thread_at, wakeup, wakeup1; simpl.
  rewrite list_lookup_fmap, Hp; simpl. unfold wake_proc.
  destruct (decide _); [| done]. simpl. by rewrite list_lookup_fmap.
Qed.

(** X2.  A thread that [sleep] puts to sleep on a channel stays asleep
    through a [wakeup] of any other channel, is made RUNNABLE by a [wakeup]
    of its own channel, and leaves [sleep] with its channel cleared and
    its other fields as they were. *)
Theorem sleep_wakeup_round_trip (k : kernel) (cur : nat) (c : Z)
    (p : proc) (t : thread) :
  ptable k !! cur = Some p → state p = RUNNABLE →
  threads p !! tidx p = Some t →
  ∃ k1, go_sleep k cur c = Ok k1 ∧
    thread_at k1 cur (tidx p)
      = Some (mkThread SLEEPING (tid t) (kstack t) c (retval t)) ∧
    (∀ c', c' ≠ c →
       thread_at (wakeup k1 c') cur (tidx p)
         = Some (mkThread SLEEPING (tid t) (kstack t) c (retval t))) ∧
    thread_at (wakeup k1 c) cur (tidx p)
      = Some (mkThread RUNNABLE (tid t) (kstack t) c (retval t)) ∧
    ∃ k2, sleep_resume (wakeup k1 c) cur = Ok k2 ∧
      thread_at k2 cur (tidx p)
        = Some (mkThread RUNNABLE (tid t) (kstack t) 0 (retval t)).
Proof.
  intros Hp Hs Ht. unfold go_sleep. rewrite Hp; simpl. rewrite Ht; simpl.
  eexists. split; [reflexivity |].
  set (p1 := upd_thread (tidx p) _ p).
  assert (Hp1 : ptable (set_ptable (<[cur := p1]> (ptable k)) k) !! cur = Some p1).
  { simpl. apply list_lookup_insert_eq. by eapply lookup_lt_Some. }
  assert (Hs1 : state p1 = RUNNABLE) by done.
  assert (Ht1 : thread_at (set_ptable (<[cur := p1]> (ptable k)) k) cur (tidx p)
                = Some (mkThread SLEEPING (tid t) (kstack t) c (retval t))).
  { rewrite (thread_at_put k cur _ p) by done. unfold p1, upd_thread; simpl.
    by rewrite list_lookup_alter_eq, Ht. }
  split; [done |]. split.
  { intros c' Hc. rewrite (thread_at_wakeup _ c' cur _ p1) by done.
    rewrite Ht1; simpl. unfold wake_thread; simpl.
    destruct (decide _) as [[_ ?] | _]; [congruence | done]. }
  assert (Hw : thread_at (wakeup (set_ptable (<[cur := p1]> (ptable k)) k) c) cur (tidx p)
               = Some (mkThread RUNNABLE (tid t) (kstack t) c (retval t))).
  { rewrite (thread_at_wakeup _ c cur _ p1) by done.
    rewrite Ht1; simpl. unfold wake_thread; simpl.
    destruct (decide _) as [_ | Hn]; [done | by destruct Hn]. }
  split; [done |].
  unfold sleep_resume.
  remember (wakeup (set_ptable (<[cur := p1]> (ptable k)) k) c) as kw eqn:Hkw.
  unfold thread_at in Hw.
  destruct (ptable kw !! cur) as [pw |] eqn:Hpw; simpl in Hw; [| done].
  assert (Htw : tidx pw = tidx p).
  { rewrite Hkw in Hpw. unfold wakeup, wakeup1 in Hpw; simpl in Hpw.
    rewrite list_lookup_fmap in Hpw. simpl in Hp1. rewrite Hp1 in Hpw.
    simpl in Hpw. injection Hpw as <-. unfold wake_proc.
    by destruct (decide _). }
  simpl. rewrite Htw, Hw; simpl. eexists. split; [reflexivity |].
  rewrite (thread_at_put kw cur _ pw) by done. unfold upd_thread; simpl.
  by rewrite ?Htw, list_lookup_alter_eq, Hw.
Qed.

End SleepWake.

(** ** Creating processes *)

Section Alloc.
Context `{Config}.

Lemma alter_insert {A : Type} (f : A → A) (l : list A) (i : nat) (x : A) :
  l !! i = Some x → alter f i l = <[i := f x]> l.
Proof.
  intros Hx. apply list_eq. intros j. rewrite list_lookup_alter.
  destruct (decide (i = j)) as [<- | Hne].
  - rewrite list_lookup_insert_eq by (by eapply lookup_lt_Some). by rewrite Hx.
  - by rewrite list_lookup_insert_ne.
Qed.

Lemma allocproc_page (k : kernel) (i idx : nat) (p : proc) (t : thread)
    (q0 : list procptr) (page : Z) :
  list_find (λ p, state p = UNUSED) (ptable k) = Some (i, p) →
  threads p !! 0%nat = Some t →
  queue (sched k) !! 0%nat = Some q0 →
  find_free q0 = Some idx →
  page ≠ 0 →
  allocproc k page = Ok (allocated k i idx p t page, Proc i).
Proof.
  intros Hfind Ht Hq0 Hfree Hpage.
  pose proof Hfind as (Hi & _ & _)%list_find_Some.
  pose proof (lookup_lt_Some _ _ _ Hi) as Hlen.
  unfold allocproc. rewrite Hfind, Ht; simpl.
  match goal with
  | |- context [mlfq_append ?k1 i 0] =>
      pose proof (mlfq_append_ok k1 i 0 idx q0 _ Hq0 Hfree
                    (list_lookup_insert_eq _ _ _ Hlen)) as Happ
  end.
  change (Z.of_nat 0) with 0 in Happ. rewrite Happ. clear Happ.
  simpl. rewrite list_lookup_insert_eq by (by rewrite length_insert); simpl.
  destruct (decide (page = 0)) as [| _]; [done |].
  unfold allocated, set_ptable, set_sched, set_queue, upd_thread; simpl.
  rewrite !list_insert_insert_eq.
  rewrite (alter_insert _ _ _ _ Hq0).
  rewrite list_alter_alter_eq, (alter_insert _ _ _ _ Ht). done.
Qed.

Lemma int_succ (n : Z) : 0 <= n < INT_MAX → int_add n 1 = n + 1.
Proof.
  intros Hn. apply int_add_exact. unfold is_int, INT_MIN, INT_MAX in *. lia.
Qed.

(** X3.  A process made by [allocproc] gets a pid and a thread id that no
    other process or thread of the table carries, as long as the two
    counters have not reached INT_MAX; its slot is EMBRYO, it runs on
    thread 0 and stands in the first free slot of MLFQ level 0 with no
    time used.  The flag [killed] of the slot is taken over as it is. *)
Theorem allocproc_fresh_ids (k : kernel) (i idx : nat) (p : proc) (t : thread)
    (q0 : list procptr) (page : Z) :
  list_find (λ p, state p = UNUSED) (ptable k) = Some (i, p) →
  threads p !! 0%nat = Some t →
  queue (sched k) !! 0%nat = Some q0 →
  find_free q0 = Some idx →
  page ≠ 0 →
  pids_below k → tids_below k →
  0 <= nextpid k < INT_MAX → 0 <= nexttid k < INT_MAX →
  ∃ k' p',
    allocproc k page = Ok (k', Proc i) ∧ ptable k' !! i = Some p' ∧
    state p' = EMBRYO ∧ pid p' = nextpid k ∧ tidx p' = 0%nat ∧
    killed p' = killed p ∧
    (∃ t', threads p' !! 0%nat = Some t' ∧ t_state t' = EMBRYO ∧
           tid t' = nexttid k ∧ kstack t' = page) ∧
    level (pmlfq p') = 0 ∧ index (pmlfq p') = idx ∧ elapsed (pmlfq p') = 0 ∧
    queue (sched k') !! 0%nat = Some (<[idx := Proc i]> q0) ∧
    (∀ j q, j ≠ i → ptable k' !! j = Some q →
       ptable k !! j = Some q ∧ pid q ≠ pid p' ∧
       ∀ t', t' ∈ threads q → tid t' ≠ nexttid k) ∧
    (∀ n t', (0 < n)%nat → threads p' !! n = Some t' → tid t' ≠ nexttid k) ∧
    pids_below k' ∧ tids_below k'.
Proof.
  intros Hfind Ht Hq0 Hfree Hpage Hpids Htids Hnp Hnt.
  pose proof Hfind as (Hi & _ & _)%list_find_Some.
  pose proof (lookup_lt_Some _ _ _ Hi) as Hlen.
  rewrite (allocproc_page k i idx p t q0 page) by done.
  unfold pids_below, tids_below in *. rewrite Forall_lookup in Hpids, Htids.
  pose proof (Htids i p Hi) as Htp. rewrite Forall_lookup in Htp.
  eexists _, _. split; [reflexivity |]. unfold allocated; simpl.
  rewrite list_lookup_insert_eq by done. split; [reflexivity |]. simpl.
  rewrite !int_succ by done.
  split_and!; try done.
  - eexists. rewrite list_lookup_insert_eq by (by eapply lookup_lt_Some). done.
  - by rewrite list_lookup_alter_eq, Hq0.
  - intros j q Hne Hq. rewrite list_lookup_insert_ne in Hq by done.
    split; [done |]. pose proof (Hpids j q Hq). split; [lia |].
    intros t' [n Hn]%list_elem_of_lookup. pose proof (Htids j q Hq) as Hall.
    rewrite Forall_lookup in Hall. pose proof (Hall n t' Hn). lia.
  - intros n t' Hn Ht'. rewrite list_lookup_insert_ne in Ht' by lia.
    pose proof (Htp n t' Ht'). lia.
  - apply Forall_lookup. intros j q Hq.
    destruct (decide (j = i)) as [-> | Hne].
    + rewrite list_lookup_insert_eq in Hq by done. injection Hq as <-. simpl. lia.
    + rewrite list_lookup_insert_ne in Hq by done. pose proof (Hpids j q Hq). lia.
  - apply Forall_lookup. intros j q Hq. apply Forall_lookup. intros n t' Ht'.
    destruct (decide (j = i)) as [-> | Hne].
    + rewrite list_lookup_insert_eq in Hq by done. injection Hq as <-.
      simpl in Ht'. destruct n as [| n].
      * rewrite list_lookup_insert_eq in Ht' by (by eapply lookup_lt_Some).
        injection Ht' as <-. simpl. lia.
      * rewrite list_lookup_insert_ne in Ht' by lia.
        pose proof (Htp (S n) t' Ht'). lia.
    + rewrite list_lookup_insert_ne in Hq by done.
      pose proof (Htids j q Hq) as Hall. rewrite Forall_lookup in Hall.
      pose proof (Hall n t' Ht'). lia.
Qed.


Lemma swap0_lookup (j : nat) (a : list Z) :
  (j < length a)%nat →
  swap0 j a !! 0%nat = a !! j ∧ swap0 j a !! j = a !! 0%nat ∧
  ∀ n, n ≠ 0%nat → n ≠ j → swap0 j a !! n = a !! n.
Proof.
  intros Hj. unfold swap0.
  destruct (lookup_lt_is_Some_2 a j Hj) as [x Hx].
  destruct (lookup_lt_is_Some_2 a 0) as [y Hy]; [lia |].
  rewrite (list_lookup_total_correct _ _ _ Hx), (list_lookup_total_correct _ _ _ Hy).
  split_and!.
  - destruct (decide (j = 0%nat)) as [-> | Hne].
    + rewrite list_lookup_insert_eq by (rewrite length_insert; lia). congruence.
    + rewrite list_lookup_insert_ne by done.
      rewrite list_lookup_insert_eq by lia. done.
  - rewrite list_lookup_insert_eq by (rewrite length_insert; lia). done.
  - intros n Hn0 Hnj. by rewrite !list_lookup_insert_ne.
Qed.

(** X7.  A [fork] that gets its memory returns the pid of the child: a
    fresh slot made RUNNABLE on thread 0, with the caller as parent, the
    caller's size and the copied page directory.  The child's user stacks
    are the caller's with the one of the calling thread swapped into place
    0; the caller's own slot is not touched. *)
Theorem fork_child (k : kernel) (cur i idx : nat) (c p : proc) (t : thread)
    (q0 : list procptr) (page pgd : Z) :
  list_find (λ p, state p = UNUSED) (ptable k) = Some (i, p) →
  threads p !! 0%nat = Some t →
  queue (sched k) !! 0%nat = Some q0 →
  find_free q0 = Some idx →
  page ≠ 0 → pgd ≠ 0 →
  ptable k !! cur = Some c → state c ≠ UNUSED →
  (tidx c < length (ustacks c))%nat →
  ∃ k' np,
    fork k cur page pgd = Ok (k', nextpid k) ∧
    ptable k' !! i = Some np ∧ ptable k' !! cur = Some c ∧
    state np = RUNNABLE ∧ pid np = nextpid k ∧ parent np = Proc cur ∧
    sz np = sz c ∧ pgdir np = pgd ∧ tidx np = 0%nat ∧
    threads np !! 0%nat
      = Some (mkThread RUNNABLE (nexttid k) page (chan t) (retval t)) ∧
    ustacks np !! 0%nat = ustacks c !! tidx c ∧
    ustacks np !! tidx c = ustacks c !! 0%nat ∧
    (∀ n, n ≠ 0%nat → n ≠ tidx c → ustacks np !! n = ustacks c !! n) ∧
    level (pmlfq np) = 0 ∧
    queue (sched k') !! 0%nat = Some (<[idx := Proc i]> q0).
Proof.
  intros Hfind Ht Hq0 Hfree Hpage Hpgd Hc Hlive Hti.
  pose proof Hfind as (Hi & Hst & _)%list_find_Some.
  pose proof (lookup_lt_Some _ _ _ Hi) as Hlen.
  assert (Hne : i ≠ cur) by (intros ->; congruence).
  unfold fork. rewrite (allocproc_page k i idx p t q0 page) by done. simpl.
  rewrite (list_lookup_insert_ne _ i cur) by done. rewrite Hc; simpl.
  rewrite list_lookup_insert_eq by done; simpl.
  destruct (decide (pgd = 0)) as [| _]; [done |].
  destruct (swap0_lookup (tidx c) (ustacks c) Hti) as (Hs0 & Hsj & Hsn).
  eexists _, _. split; [reflexivity |]. simpl.
  rewrite list_lookup_insert_eq by (by rewrite length_insert).
  rewrite !(list_lookup_insert_ne _ i cur) by done.
  split; [reflexivity |]. simpl. split_and!; try done.
  - rewrite list_lookup_alter_eq.
    rewrite list_lookup_insert_eq by (by eapply lookup_lt_Some). done.
  - by rewrite list_lookup_alter_eq, Hq0.
Qed.

End Alloc.

(** ** [kill] *)

Section Kill.
Context `{Config}.

Lemma kill_proc_roused (p : proc) :
  Forall2 roused (threads p) (threads (kill_proc p)).
Proof.
  unfold kill_proc; simpl. apply Forall2_fmap_r, Forall_Forall2_diag.
  apply Forall_forall. intros t _. unfold roused, compose.
  destruct (decide (t_state t = SLEEPING)); done.
Qed.

(** X5.  [kill(pid)] returns -1 and changes nothing when no slot of the
    table carries the pid.  Otherwise it returns 0 and changes the first
    slot that carries it, whatever the state of that slot: [killed]
    becomes 1 and every SLEEPING thread of it becomes RUNNABLE, whatever
    it sleeps on; nothing else changes. *)
Theorem kill_exact (k : kernel) (id : Z) :
  sched (kill k id).1 = sched k ∧ nextpid (kill k id).1 = nextpid k ∧
  nexttid (kill k id).1 = nexttid k ∧
  (((kill k id).2 = -1 ∧ (kill k id).1 = k ∧
    Forall (λ p, pid p ≠ id) (ptable k)) ∨
   ((kill k id).2 = 0 ∧
    ∃ i p p', ptable k !! i = Some p ∧ pid p = id ∧
      (∀ j q, ptable k !! j = Some q → (j < i)%nat → pid q ≠ id) ∧
      ptable (kill k id).1 = <[i := p']> (ptable k) ∧
      killed p' = 1 ∧ state p' = state p ∧ pid p' = pid p ∧
      tidx p' = tidx p ∧ sz p' = sz p ∧ pgdir p' = pgdir p ∧
      parent p' = parent p ∧ kstacks p' = kstacks p ∧
      ustacks p' = ustacks p ∧ pmlfq p' = pmlfq p ∧
      Forall2 roused (threads p) (threads p'))).
Proof.
  unfold kill. destruct (list_find _ (ptable k)) as [[i p] |] eqn:Hf; simpl.
  - split_and!; try done. right. split; [done |].
    apply list_find_Some in Hf as (Hi & Hid & Hbefore).
    exists i, p, (kill_proc p). split_and!; try done.
    apply kill_proc_roused.
  - split_and!; try done. left. split_and!; try done.
    by apply list_find_None in Hf.
Qed.

(** X6.  [kill(0)] finds the first slot whose pid is 0, which is a free
    slot when every slot before it is in use; it marks that slot, and the
    process [allocproc] then makes in it is born with [killed] set. *)
Theorem kill_zero_marks_free_slot (k : kernel) (i idx : nat) (p : proc)
    (t : thread) (q0 : list procptr) (page : Z) :
  list_find (λ p, state p = UNUSED) (ptable k) = Some (i, p) →
  pid p = 0 →
  (∀ j q, ptable k !! j = Some q → (j < i)%nat → pid q ≠ 0) →
  threads p !! 0%nat = Some t → t_state t = UNUSED →
  queue (sched k) !! 0%nat = Some q0 →
  find_free q0 = Some idx →
  page ≠ 0 →
  (kill k 0).2 = 0 ∧
  ∃ k' p',
    allocproc (kill k 0).1 page = Ok (k', Proc i) ∧
    ptable k' !! i = Some p' ∧ state p' = EMBRYO ∧ pid p' = nextpid k ∧
    killed p' = 1.
Proof.
  intros Hfind Hpid Hbefore Ht Hts Hq0 Hfree Hpage.
  pose proof Hfind as (Hi & Hst & Hused)%list_find_Some.
  pose proof (lookup_lt_Some _ _ _ Hi) as Hlen.
  assert (Hk : list_find (λ p, pid p = 0) (ptable k) = Some (i, p)).
  { apply list_find_Some. split_and!; done. }
  unfold kill. rewrite Hk; simpl. split; [done |].
  assert (Hfind' : list_find (λ p, state p = UNUSED) (<[i := kill_proc p]> (ptable k))
                   = Some (i, kill_proc p)).
  { apply list_find_Some. split_and!.
    - by apply list_lookup_insert_eq.
    - done.
    - intros j q Hq Hj. rewrite list_lookup_insert_ne in Hq by lia.
      by apply (Hused j). }
  assert (Ht' : threads (kill_proc p) !! 0%nat = Some t).
  { unfold kill_proc; simpl. rewrite list_lookup_fmap, Ht; simpl.
    destruct (decide _) as [Hs |]; [congruence | done]. }
  erewrite (allocproc_page _ i idx (kill_proc p) t q0 page); try done.
  eexists _, _. split; [reflexivity |]. unfold allocated; simpl.
  rewrite list_lookup_insert_eq by (by rewrite length_insert). done.
Qed.

End Kill.

(** ** Threads: creation, exit and join *)

Section Threads.
Context `{Config}.

(** X8.  [thread_create] returns -1 exactly when the process has no UNUSED
    thread slot, or the first such slot has no kernel stack and [kalloc]
    gives none, or it has no user stack and [allocuvm] gives none.  On -1
    no thread of the process changes its state and the slot stays without
    an id.  On 0 the first UNUSED slot is RUNNABLE with the id taken from
    [nexttid], which is what is stored in [*tid], and the other threads are
    as they were.  No other process is touched. *)
Theorem thread_create_outcomes (k : kernel) (cur : nat) (p : proc)
    (page grown : Z) :
  ptable k !! cur = Some p →
  length (kstacks p) = length (threads p) →
  length (ustacks p) = length (threads p) →
  ∃ k' r out,
    thread_create k cur page grown = Ok (k', r, out) ∧
    sched k' = sched k ∧ nextpid k' = nextpid k ∧
    (∀ j, j ≠ cur → ptable k' !! j = ptable k !! j) ∧
    ((r = -1 ∧ out = None ∧
      (∀ j, t_state <$> thread_at k' cur j = t_state <$> thread_at k cur j) ∧
      (list_find (λ t, t_state t = UNUSED) (threads p) = None ∧ k' = k ∨
       ∃ ti t ks us,
         list_find (λ t, t_state t = UNUSED) (threads p) = Some (ti, t) ∧
         kstacks p !! ti = Some ks ∧ ustacks p !! ti = Some us ∧
         (ks = 0 ∧ page = 0 ∨ us = 0 ∧ grown = 0) ∧
         tid <$> thread_at k' cur ti = Some 0)) ∨
     (r = 0 ∧ out = Some (nexttid k) ∧
      ∃ ti t ks us,
        list_find (λ t, t_state t = UNUSED) (threads p) = Some (ti, t) ∧
        kstacks p !! ti = Some ks ∧ ustacks p !! ti = Some us ∧
        (ks ≠ 0 ∨ page ≠ 0) ∧ (us ≠ 0 ∨ grown ≠ 0) ∧
        thread_at k' cur ti
          = Some (mkThread RUNNABLE (nexttid k) (if decide (ks = 0) then page else ks)
                           (chan t) 0) ∧
        (∀ j, j ≠ ti → thread_at k' cur j = thread_at k cur j) ∧
        nexttid k' = int_add (nexttid k) 1)).
Proof.
  intros Hp Hks Hus. unfold thread_create. rewrite Hp; simpl.
  pose proof (lookup_lt_Some _ _ _ Hp) as Hlen.
  destruct (list_find _ (threads p)) as [[ti t] |] eqn:Hf.
  2:{ eexists _, _, _. split; [reflexivity |]. split_and!; try done.
      left. split_and!; try done. by left. }
  pose proof Hf as (Ht & Hst & _)%list_find_Some.
  pose proof (lookup_lt_Some _ _ _ Ht) as Hti.
  destruct (lookup_lt_is_Some_2 (kstacks p) ti) as [ks Hk]; [lia |].
  destruct (lookup_lt_is_Some_2 (ustacks p) ti) as [us Hu]; [lia |].
  rewrite Hk; simpl.
  destruct (decide ((if decide (ks = 0) then page else ks) = 0)) as [Hzero | Hnz].
  { eexists _, _, _. split; [reflexivity |]. split_and!; try done.
    { intros j Hj. simpl. by rewrite list_lookup_insert_ne. }
    left. split_and!; try done.
    { intros j. unfold thread_at; simpl.
      rewrite list_lookup_insert_eq by done. rewrite Hp; simpl.
      rewrite list_lookup_alter. destruct (decide (ti = j)) as [<- | Hne].
      - rewrite !list_lookup_alter_eq, Ht; simpl. congruence.
      - by rewrite !list_lookup_alter_ne. }
    right. exists ti, t, ks, us. split_and!; try done.
    - left. destruct (decide (ks = 0)); [done | contradiction].
    - unfold thread_at; simpl. rewrite list_lookup_insert_eq by done. simpl.
      rewrite list_lookup_alter_eq, list_lookup_alter_eq, Ht. done. }
  rewrite Hu; simpl.
  assert (Hkok : ks ≠ 0 ∨ page ≠ 0).
  { destruct (decide (ks = 0)); [by right | by left]. }
  destruct (decide (us ≠ 0)) as [Hunz | Huz].
  { eexists _, _, _. split; [reflexivity |]. split_and!; try done.
    { intros j Hj. simpl. by rewrite list_lookup_insert_ne. }
    right. split_and!; try done. exists ti, t, ks, us. split_and!; try done.
    - by left.
    - unfold thread_at; simpl. rewrite list_lookup_insert_eq by done. simpl.
      rewrite !list_lookup_alter_eq, Ht. done.
    - intros j Hj. unfold thread_at; simpl.
      rewrite list_lookup_insert_eq by done. rewrite Hp; simpl.
      by rewrite !list_lookup_alter_ne. }
  assert (us = 0) as -> by (destruct (decide (us = 0)); [done | contradiction]).
  destruct (decide (grown = 0)) as [Hg | Hg].
  { eexists _, _, _. split; [reflexivity |]. split_and!; try done.
    { intros j Hj. simpl. by rewrite list_lookup_insert_ne. }
    left. split_and!; try done.
    { intros j. unfold thread_at; simpl.
      rewrite list_lookup_insert_eq by done. rewrite Hp; simpl.
      rewrite list_lookup_alter. destruct (decide (ti = j)) as [<- | Hne].
      - rewrite !list_lookup_alter_eq, Ht; simpl. congruence.
      - by rewrite !list_lookup_alter_ne. }
    right. exists ti, t, ks, 0. split_and!; try done.
    - by right.
    - unfold thread_at; simpl. rewrite list_lookup_insert_eq by done. simpl.
      rewrite !list_lookup_alter_eq, Ht. done. }
  eexists _, _, _. split; [reflexivity |]. split_and!; try done.
  { intros j Hj. simpl. by rewrite list_lookup_insert_ne. }
  right. split_and!; try done. exists ti, t, ks, 0. split_and!; try done.
  - by right.
  - unfold thread_at; simpl. rewrite list_lookup_insert_eq by done. simpl.
    rewrite !list_lookup_alter_eq, Ht. done.
  - intros j Hj. unfold thread_at; simpl.
    rewrite list_lookup_insert_eq by done. rewrite Hp; simpl.
    by rewrite !list_lookup_alter_ne.
Qed.

Lemma joinable_wakeup (pt : list proc) (c t0 : Z) (i j : nat) :
  joinable (wake_proc c <$> pt) t0 i j ↔ joinable pt t0 i j.
Proof.
  unfold joinable. split.
  - intros (q & t & Hq & Hr & Ht & Htid).
    rewrite list_lookup_fmap in Hq.
    destruct (pt !! i) as [p |] eqn:Hp; simpl in Hq; [| done].
    injection Hq as <-. unfold wake_proc in *.
    destruct (decide (state p = RUNNABLE)) as [Hs | Hs]; simpl in *.
    + rewrite list_lookup_fmap in Ht.
      destruct (threads p !! j) as [s |] eqn:Hs'; simpl in Ht; [| done].
      injection Ht as <-. exists p, s. split_and!; try done.
      unfold wake_thread in Htid. by destruct (decide _).
    + by exists p, t.
  - intros (p & t & Hp & Hr & Ht & Htid).
    exists (wake_proc c p), (wake_thread c t).
    rewrite list_lookup_fmap, Hp.
    destruct (wake_proc_fields c p) as (Hst & _).
    split_and!;
      [done | by rewrite Hst | | by rewrite (proj1 (wake_thread_fields c t))].
    unfold wake_proc. destruct (decide (state p = RUNNABLE)); [| done]. simpl.
    by rewrite list_lookup_fmap, Ht.
Qed.

Lemma joinable_upd (pt : list proc) (cur n : nat) (p : proc)
    (f : thread → thread) (t0 : Z) (i j : nat) :
  pt !! cur = Some p → (∀ t, tid (f t) = tid t) →
  joinable (<[cur := upd_thread n f p]> pt) t0 i j ↔ joinable pt t0 i j.
Proof.
  intros Hp Hf. unfold joinable.
  destruct (decide (i = cur)) as [-> | Hne].
  2:{ by rewrite list_lookup_insert_ne. }
  rewrite list_lookup_insert_eq by (by eapply lookup_lt_Some). split.
  - intros (q & t & [= <-] & Hr & Ht & Htid). simpl in *.
    rewrite list_lookup_alter in Ht. destruct (decide (n = j)) as [-> | Hnj].
    + destruct (threads p !! j) as [s |] eqn:Hs; simpl in Ht; [| done].
      injection Ht as <-. exists p, s. by rewrite <- (Hf s).
    + by exists p, t.
  - intros (q & t & Hq & Hr & Ht & Htid). rewrite Hp in Hq. injection Hq as <-.
    destruct (decide (n = j)) as [-> | Hnj].
    + exists (upd_thread j f p), (f t). simpl.
      rewrite list_lookup_alter_eq, Ht, Hf. done.
    + exists (upd_thread n f p), t. simpl.
      by rewrite list_lookup_alter_ne.
Qed.

Lemma thread_exit_run (k : kernel) (cur : nat) (rv : Z) (p : proc) (t : thread) :
  ptable k !! cur = Some p → threads p !! tidx p = Some t →
  thread_exit k cur rv
  = Ok (wakeup1
          (set_ptable
             (<[cur := upd_thread (tidx p)
                         (λ t, set_t_state ZOMBIE (set_retval rv t)) p]>
                (ptable k)) k)
          (tid t)).
Proof.
  intros Hp Ht. pose proof (lookup_lt_Some _ _ _ Hp) as Hlen.
  unfold thread_exit, thread_epilogue. rewrite Hp; simpl. rewrite Ht; simpl.
  rewrite list_lookup_insert_eq by done. simpl.
  rewrite list_lookup_alter_eq, Ht; simpl.
  rewrite list_insert_insert_eq. unfold upd_thread; simpl.
  by rewrite list_alter_alter_eq.
Qed.

(** X9.  When a thread ends with [thread_exit(v)], it becomes ZOMBIE
    holding [v] and every thread that sleeps on its id in a RUNNABLE
    process becomes RUNNABLE.  If no other thread of a RUNNABLE process
    carries the id, a [thread_join] on it, from any process, then returns 0
    at once with [v] and frees the slot; the stacks kept for the slot in
    [kstacks] and [ustacks] stay where they are. *)
Theorem thread_exit_then_join (k : kernel) (cur caller : nat) (rv : Z)
    (p : proc) (t : thread) :
  ptable k !! cur = Some p → state p = RUNNABLE →
  threads p !! tidx p = Some t →
  (∀ i j, joinable (ptable k) (tid t) i j → i = cur ∧ j = tidx p) →
  ∃ k1,
    thread_exit k cur rv = Ok k1 ∧
    thread_at k1 cur (tidx p)
      = Some (mkThread ZOMBIE (tid t) (kstack t) (chan t) rv) ∧
    (∀ i j q s, (i, j) ≠ (cur, tidx p) →
       ptable k !! i = Some q → threads q !! j = Some s → woken (tid t) q s →
       t_state <$> thread_at k1 i j = Some RUNNABLE) ∧
    ∃ k2 p2,
      thread_join k1 caller (tid t) = Ok (JoinDone k2 rv) ∧
      ptable k2 !! cur = Some p2 ∧
      threads p2 !! tidx p = Some (mkThread UNUSED 0 0 (chan t) 0) ∧
      kstacks p2 = kstacks p ∧ ustacks p2 = ustacks p.
Proof.
  intros Hp Hs Ht Honly. pose proof (lookup_lt_Some _ _ _ Hp) as Hlen.
  rewrite (thread_exit_run k cur rv p t Hp Ht).
  eexists. split; [reflexivity |].
  set (f := λ t : thread, set_t_state ZOMBIE (set_retval rv t)).
  set (p' := upd_thread (tidx p) f p).
  set (k0 := set_ptable (<[cur := p']> (ptable k)) k).
  assert (Hp' : ptable k0 !! cur = Some p').
  { simpl. by apply list_lookup_insert_eq. }
  assert (Hz : thread_at (wakeup1 k0 (tid t)) cur (tidx p)
               = Some (mkThread ZOMBIE (tid t) (kstack t) (chan t) rv)).
  { change (wakeup1 k0 (tid t)) with (wakeup k0 (tid t)).
    rewrite (thread_at_wakeup k0 _ cur _ p') by done.
    unfold k0. rewrite (thread_at_put k cur _ p) by done.
    unfold p', upd_thread; simpl. rewrite list_lookup_alter_eq, Ht. simpl.
    by rewrite wake_thread_other. }
  split; [exact Hz |]. split.
  { intros i j q s Hne Hq Hsq (Hqr & Hss & Hsc).
    change (wakeup1 k0 (tid t)) with (wakeup k0 (tid t)).
    assert (∃ q', ptable k0 !! i = Some q' ∧ state q' = RUNNABLE ∧
                  threads q' !! j = Some s) as (q' & Hq' & Hr' & Hs').
    { destruct (decide (i = cur)) as [-> | Hi].
      - exists p'. rewrite Hp in Hq. injection Hq as <-.
        split_and!; try done. unfold p', upd_thread; simpl.
        rewrite list_lookup_alter_ne; [done | congruence].
      - exists q. simpl. by rewrite list_lookup_insert_ne. }
    rewrite (thread_at_wakeup k0 _ i j q') by done.
    unfold thread_at. rewrite Hq'; simpl. rewrite Hs'; simpl.
    by rewrite wake_thread_hit. }
  assert (Hj : ∀ i j, joinable (ptable (wakeup1 k0 (tid t))) (tid t) i j ↔
                      joinable (ptable k) (tid t) i j).
  { intros i j. simpl. rewrite joinable_wakeup. by apply joinable_upd. }
  unfold thread_at in Hz.
  destruct (ptable (wakeup1 k0 (tid t)) !! cur) as [pc |] eqn:Hpc;
    simpl in Hz; [| done].
  assert (Hstacks : kstacks pc = kstacks p ∧ ustacks pc = ustacks p).
  { simpl in Hpc. rewrite list_lookup_fmap in Hpc.
    rewrite list_lookup_insert_eq in Hpc by done. simpl in Hpc.
    injection Hpc as <-.
    destruct (wake_proc_fields (tid t) p')
      as (_ & _ & _ & _ & _ & _ & _ & Hk & Hu & _). by rewrite Hk, Hu. }
  unfold thread_join.
  destruct (find_thread _ 0 (tid t)) as [[a j'] |] eqn:Hf.
  2:{ exfalso. rewrite find_thread_None in Hf. apply (Hf cur (tidx p)).
      apply Hj. by exists p, t. }
  apply find_thread_Some in Hf as (i' & -> & Hjn). simpl (0 + i')%nat.
  destruct (Honly i' j' (proj1 (Hj _ _) Hjn)) as [-> ->].
  rewrite Hpc; simpl. rewrite Hz; simpl.
  unfold thread_reap. rewrite Hpc; simpl. rewrite Hz; simpl.
  eexists _, _. split; [reflexivity |]. simpl.
  rewrite list_lookup_insert_eq by (by rewrite length_fmap, length_insert).
  split; [reflexivity |]. simpl. split; [| done].
  apply list_lookup_insert_eq. by eapply lookup_lt_Some.
Qed.

(** X10.  Freeing a thread slot in [thread_join] keeps its kernel stack
    and its user stack in [kstacks] and [ustacks]; if no slot before it is
    UNUSED, the next [thread_create] of the process takes the same slot and
    the same two stacks, asks neither [kalloc] nor [allocuvm] for memory
    (it returns 0 whatever they would give) and leaves the size of the
    process as it is. *)
Theorem join_then_create_reuses_stacks (k : kernel) (cur ti : nat) (p : proc)
    (t : thread) (ks us page grown : Z) :
  ptable k !! cur = Some p → threads p !! ti = Some t →
  (∀ j s, threads p !! j = Some s → (j < ti)%nat → t_state s ≠ UNUSED) →
  kstacks p !! ti = Some ks → ks ≠ 0 →
  ustacks p !! ti = Some us → us ≠ 0 →
  ∃ k1 k2 p2,
    thread_reap k cur ti = Ok (k1, retval t) ∧
    thread_create k1 cur page grown = Ok (k2, 0, Some (nexttid k)) ∧
    ptable k2 !! cur = Some p2 ∧
    threads p2 !! ti = Some (mkThread RUNNABLE (nexttid k) ks (chan t) 0) ∧
    (∀ j, j ≠ ti → threads p2 !! j = threads p !! j) ∧
    sz p2 = sz p ∧ kstacks p2 = kstacks p ∧ ustacks p2 = ustacks p.
Proof.
  intros Hp Ht Hbefore Hk Hknz Hu Hunz.
  pose proof (lookup_lt_Some _ _ _ Hp) as Hlen.
  pose proof (lookup_lt_Some _ _ _ Ht) as Hti.
  unfold thread_reap. rewrite Hp; simpl. rewrite Ht; simpl.
  eexists _, _, _. split; [reflexivity |].
  unfold thread_create. simpl. rewrite list_lookup_insert_eq by done. simpl.
  assert (Hf : list_find (λ t, t_state t = UNUSED)
                 (<[ti := mkThread UNUSED 0 0 (chan t) 0]> (threads p))
               = Some (ti, mkThread UNUSED 0 0 (chan t) 0)).
  { apply list_find_Some. split_and!.
    - by apply list_lookup_insert_eq.
    - done.
    - intros j s Hs Hj. rewrite list_lookup_insert_ne in Hs by lia.
      by apply (Hbefore j). }
  rewrite Hf, Hk; simpl.
  destruct (decide (ks = 0)) as [| _]; [done |].
  destruct (decide (ks = 0)) as [| _]; [done |].
  rewrite Hu; simpl. destruct (decide (us ≠ 0)) as [_ |]; [| done].
  split; [reflexivity |]. simpl.
  rewrite list_lookup_insert_eq by (by rewrite length_insert).
  split; [reflexivity |]. simpl. split_and!; try done.
  - rewrite !list_lookup_alter_eq.
    rewrite list_lookup_insert_eq by done. done.
  - intros j Hj. rewrite !list_lookup_alter_ne by done.
    by rewrite list_lookup_insert_ne.
  - by apply list_insert_id.
Qed.

End Threads.

(** ** The time slice: [mlfq_yieldable] against [mlfq_update] *)

Section Yieldable.
Context `{Config}.

Lemma wrap_uint_int (z : Z) : wrap_uint (wrap_int z) = wrap_uint z.
Proof.
  unfold wrap_uint, wrap_int.
  change (2 ^ 32) with 4294967296. change (2 ^ 31) with 2147483648.
  Z.div_mod_to_equations. lia.
Qed.

(** What [mlfq_update] reports for a live process of the MLFQ that is not
    due for the next level. *)
Lemma mlfq_update_stays (k : kernel) (p L : nat) (pr : proc) (ex qt ctime : Z) :
  wf_shape k →
  ptable k !! p = Some pr →
  state pr ≠ ZOMBIE → killed pr = 0 →
  level (pmlfq pr) = Z.of_nat L →
  expire (sched k) !! L = Some ex →
  quantum (sched k) !! L = Some qt →
  ¬ ((S L < NMLFQ)%nat ∧ ex <= elapsed (pmlfq pr)) →
  ∃ k',
    mlfq_update k p ctime =
      Ok (k', if decide (qt <= uint_sub ctime (start (pmlfq pr)))
              then MLFQ_NEXT else MLFQ_KEEP) ∧
    ptable k' = ptable k ∧ queue (sched k') = queue (sched k).
Proof.
  intros Hwf Hp Hz Hk HL Hex Hqt Hno.
  destruct (stride_update_aggregate k Hwf) as [ps Hagg].
  unfold mlfq_update. rewrite Hp; simpl.
  destruct (decide (state pr = ZOMBIE)); [done |].
  destruct (decide (killed pr ≠ 0)); [done |].
  destruct (decide (level (pmlfq pr) = -1)); [lia |].
  rewrite Hagg; simpl. rewrite HL.
  assert (Hexp : (if Z.of_nat L + 1 <? Z.of_nat NMLFQ
                  then ex0 ← access (zlookup (expire (sched k)) (Z.of_nat L));
                       Ok (ex0 <=? elapsed (pmlfq pr))
                  else Ok false) = Ok false).
  { destruct (Z.ltb_spec (Z.of_nat L + 1) (Z.of_nat NMLFQ)); [| done].
    rewrite !zlookup_nat, Hex; simpl.
    destruct (Z.leb_spec ex (elapsed (pmlfq pr))); [| done].
    exfalso. apply Hno. split; [lia | done]. }
  rewrite Hexp; simpl. rewrite !zlookup_nat, Hqt; simpl.
  eexists. split.
  { destruct (Z.ltb_spec (uint_sub ctime (start (pmlfq pr))) qt);
      destruct (decide (qt <= uint_sub ctime (start (pmlfq pr))));
      try lia; reflexivity. }
  done.
Qed.

(** X11.  For a live process of the MLFQ that is not due for the next
    level, [mlfq_yieldable] at a tick says yes exactly when [mlfq_update] at
    the same tick reports NEXT, which is when the ticks since [start]
    (a [uint] difference) have reached the quantum of its level; neither
    call moves a process. *)
Theorem mlfq_yieldable_agrees (k : kernel) (p L : nat) (pr : proc)
    (ex qt now : Z) :
  wf_shape k →
  ptable k !! p = Some pr →
  state pr ≠ ZOMBIE → killed pr = 0 →
  level (pmlfq pr) = Z.of_nat L →
  expire (sched k) !! L = Some ex →
  quantum (sched k) !! L = Some qt →
  ¬ ((S L < NMLFQ)%nat ∧ ex <= elapsed (pmlfq pr)) →
  ∃ b k' v,
    mlfq_yieldable k p now = Ok b ∧ mlfq_update k p now = Ok (k', v) ∧
    (b = true ↔ v = MLFQ_NEXT) ∧
    (b = true ↔ qt <= uint_sub now (start (pmlfq pr))) ∧
    ptable k' = ptable k ∧ queue (sched k') = queue (sched k).
Proof.
  intros Hwf Hp Hz Hk HL Hex Hqt Hno.
  destruct (mlfq_update_stays k p L pr ex qt now) as (k' & Hup & Hpt & Hq);
    try done.
  unfold mlfq_yieldable. rewrite Hp; simpl.
  rewrite bool_decide_eq_false_2 by lia. simpl.
  rewrite HL, zlookup_nat, Hqt; simpl. rewrite wrap_uint_int.
  eexists _, k', _. split; [reflexivity |]. split; [exact Hup |].
  fold (uint_sub now (start (pmlfq pr))).
  destruct (decide (qt <= uint_sub now (start (pmlfq pr)))) as [Hle | Hgt].
  - rewrite (proj2 (Z.leb_le _ _) Hle). done.
  - rewrite (proj2 (Z.leb_gt _ _)) by lia. split_and!; try done.
Qed.

(** X12.  For a process of the stride scheduler (level -1)
    [mlfq_yieldable] says yes once the ticks since [start] have reached
    the stride quantum; before that it goes on to the second test and
    indexes [quantum] with -1. *)
Theorem mlfq_yieldable_stride (k : kernel) (p : nat) (pr : proc) (now : Z) :
  ptable k !! p = Some pr → level (pmlfq pr) = -1 →
  (s_quantum (metasched (sched k)) <= wrap_int (now - start (pmlfq pr)) →
   mlfq_yieldable k p now = Ok true) ∧
  (wrap_int (now - start (pmlfq pr)) < s_quantum (metasched (sched k)) →
   mlfq_yieldable k p now = Err BadAccess).
Proof.
  intros Hp HL. unfold mlfq_yieldable. rewrite Hp; simpl.
  rewrite bool_decide_eq_true_2 by done. simpl. split; intros Hd.
  - by rewrite (proj2 (Z.leb_le _ _) Hd).
  - rewrite (proj2 (Z.leb_gt _ _) Hd). by rewrite HL.
Qed.

End Yieldable.

(** ** Taking and giving back a share *)

Section Shares.
Context `{Config}.

Lemma int_add_sub (a b : Z) : is_int a → int_sub (int_add a b) b = a.
Proof.
  unfold is_int, INT_MIN, INT_MAX, int_sub, int_add, wrap_int.
  change (2 ^ 32) with 4294967296. change (2 ^ 31) with 2147483648.
  intros Ha. Z.div_mod_to_equations. lia.
Qed.

Lemma int_sub_add (a b : Z) : is_int a → int_add (int_sub a b) b = a.
Proof.
  unfold is_int, INT_MIN, INT_MAX, int_sub, int_add, wrap_int.
  change (2 ^ 32) with 4294967296. change (2 ^ 31) with 2147483648.
  intros Ha. Z.div_mod_to_equations. lia.
Qed.

(** X13.  [set_cpu_share] by a process of the MLFQ either is refused,
    returning -1 with nothing changed (the cap would be exceeded, the
    request is not positive or no stride slot is free), or returns 0: the
    process then holds the first free stride slot with the tickets it asked
    for, its level reads -1, and the MLFQ slot it had is empty. *)
Theorem set_cpu_share_moves (k : kernel) (p L : nat) (pr : proc)
    (q : list procptr) (usage : Z) :
  ptable k !! p = Some pr →
  level (pmlfq pr) = Z.of_nat L →
  queue (sched k) !! L = Some q → (index (pmlfq pr) < length q)%nat →
  length (ticket (metasched (sched k)))
    = length (s_queue (metasched (sched k))) →
  (0 < length (s_queue (metasched (sched k))))%nat →
  (set_cpu_share k p usage = Ok (k, -1) ∧
   (MAXSTRIDE < int_add (total (metasched (sched k))) usage ∨ usage <= 0 ∨
    find_free (s_queue (metasched (sched k))) = None)) ∨
  (∃ k' idx pr',
     set_cpu_share k p usage = Ok (k', 0) ∧
     ¬ MAXSTRIDE < int_add (total (metasched (sched k))) usage ∧ 0 < usage ∧
     find_free (s_queue (metasched (sched k))) = Some idx ∧
     ptable k' !! p = Some pr' ∧
     level (pmlfq pr') = -1 ∧ index (pmlfq pr') = idx ∧
     getlev k' (Proc p) = Ok (-1) ∧
     s_queue (metasched (sched k')) !! idx = Some (Proc p) ∧
     ticket (metasched (sched k')) !! idx = Some usage ∧
     queue (sched k') !! L = Some (<[index (pmlfq pr) := Null]> q) ∧
     ∀ L', L' ≠ L → queue (sched k') !! L' = queue (sched k) !! L').
Proof.
  intros Hp HL Hq Hidx Hlen Hpos.
  pose proof (lookup_lt_Some _ _ _ Hp) as Hplen.
  unfold set_cpu_share, mlfq_cpu_share. rewrite Hp; simpl.
  destruct (stride_append_cases k p usage Hplen) as [[Hrun Hwhy] | Hyes];
    [lia | |].
  { left. rewrite Hrun; simpl. done. }
  destruct Hyes as (k1 & idx & Hrun & Hcap & Hu & Hf).
  right. rewrite Hrun; simpl.
  destruct (stride_append_success _ _ _ _ Hrun)
    as (idx' & pr0 & t0 & _ & _ & Hf' & Hp0 & Ht0 & ->).
  assert (idx' = idx) as -> by congruence.
  assert (pr0 = pr) as -> by congruence.
  pose proof (find_free_lt _ _ Hf) as Hi.
  rewrite HL.
  erewrite clear_slot_ok; [| exact Hq | done]. simpl.
  eexists _, idx, _. split; [reflexivity |]. simpl.
  rewrite list_lookup_insert_eq by done.
  split_and!; try done.
  - unfold getlev; simpl. by rewrite list_lookup_insert_eq by done.
  - by apply list_lookup_insert_eq.
  - apply list_lookup_insert_eq. rewrite length_insert. lia.
  - apply list_lookup_insert_eq. by eapply lookup_lt_Some.
  - intros L' HL'. by rewrite list_lookup_insert_ne.
Qed.

(** X14.  A process that already has a share (level -1) cannot change it:
    a second [set_cpu_share] is refused with -1, or, when the request is
    admitted, goes on to clear [queue[-1][index]], outside the array. *)
Theorem set_cpu_share_twice (k : kernel) (p : nat) (pr : proc) (usage : Z) :
  ptable k !! p = Some pr → level (pmlfq pr) = -1 →
  (0 < length (ticket (metasched (sched k))))%nat →
  (set_cpu_share k p usage = Ok (k, -1) ∧
   (MAXSTRIDE < int_add (total (metasched (sched k))) usage ∨ usage <= 0 ∨
    find_free (s_queue (metasched (sched k))) = None)) ∨
  (set_cpu_share k p usage = Err BadAccess ∧
   ¬ MAXSTRIDE < int_add (total (metasched (sched k))) usage ∧ 0 < usage ∧
   is_Some (find_free (s_queue (metasched (sched k))))).
Proof.
  intros Hp HL Hpos.
  pose proof (lookup_lt_Some _ _ _ Hp) as Hplen.
  unfold set_cpu_share, mlfq_cpu_share. rewrite Hp; simpl.
  destruct (stride_append_cases k p usage Hplen Hpos)
    as [[Hrun Hwhy] | (k1 & idx & Hrun & Hcap & Hu & Hf)].
  { left. rewrite Hrun; simpl. done. }
  right. rewrite Hrun; simpl. rewrite HL.
  split_and!; try done.
Qed.

Lemma insert_back {A : Type} (l : list A) (i : nat) (x y : A) :
  l !! i = Some x → <[i := x]> (<[i := y]> l) = l.
Proof. intros Hx. rewrite list_insert_insert_eq. by apply list_insert_id. Qed.

Lemma tickets_back (tk : list Z) (idx : nat) (t0 a b c : Z) :
  idx ≠ 0%nat → tk !! 0%nat = Some t0 → tk !! idx = Some 0 →
  <[idx := 0]> (<[0%nat := t0]> (<[idx := a]> (<[0%nat := b]> tk))) = tk.
Proof.
  intros Hne H0 Hi. apply list_eq. intros j.
  pose proof (lookup_lt_Some _ _ _ H0). pose proof (lookup_lt_Some _ _ _ Hi).
  destruct (decide (j = idx)) as [-> | Hj].
  { rewrite list_lookup_insert_eq by (rewrite !length_insert; lia). done. }
  rewrite list_lookup_insert_ne by done.
  destruct (decide (j = 0%nat)) as [-> | Hj0].
  { rewrite list_lookup_insert_eq by (rewrite !length_insert; lia). done. }
  by rewrite !list_lookup_insert_ne.
Qed.

(** X15.  Taking a share and giving it back is a round trip for the
    scheduler: after a [stride_append] that was admitted, the
    [mlfq_delete] that [wait] runs for the process leaves every array of
    the stride scheduler, its total and all the MLFQ queues exactly as they
    were before the share was taken, also when the additions wrapped
    around. *)
Theorem share_round_trip (k k1 : kernel) (p : nat) (usage : Z) :
  stride_append k p usage = Ok (k1, 1) →
  (∀ i, s_queue (metasched (sched k)) !! i = Some Null →
        (0 < i)%nat ∧ pass (metasched (sched k)) !! i = Some NOPASS ∧
        ticket (metasched (sched k)) !! i = Some 0) →
  is_int (total (metasched (sched k))) →
  (∀ t0, ticket (metasched (sched k)) !! 0%nat = Some t0 → is_int t0) →
  ∃ k2, mlfq_delete k1 p = Ok k2 ∧ sched k2 = sched k ∧
        nextpid k2 = nextpid k ∧ nexttid k2 = nexttid k ∧
        ∀ j, j ≠ p → ptable k2 !! j = ptable k !! j.
Proof.
  intros Hrun Hfree Htot Ht0int.
  destruct (stride_append_success _ _ _ _ Hrun)
    as (idx & pr & t0 & _ & _ & Hf & Hp & Ht0 & ->).
  pose proof Hf as [Hnull _]%find_free_Some.
  destruct (Hfree idx Hnull) as (Hidx & Hpass & Htk).
  pose proof (lookup_lt_Some _ _ _ Hp) as Hplen.
  pose proof (lookup_lt_Some _ _ _ Htk) as Htlen.
  pose proof (lookup_lt_Some _ _ _ Ht0) as Ht0len.
  specialize (Ht0int t0 Ht0).
  unfold mlfq_delete, appended; simpl.
  rewrite list_lookup_insert_eq by done. simpl.
  destruct (decide (-1 = -1)) as [_ |]; [| done].
  unfold stride_delete; simpl. rewrite list_lookup_insert_eq by done. simpl.
  rewrite list_lookup_insert_eq by (rewrite length_insert; lia). simpl.
  rewrite list_lookup_insert_ne by lia.
  rewrite list_lookup_insert_eq by lia. simpl.
  eexists. split; [reflexivity |]. simpl. split_and!; try done.
  2:{ intros j Hj. by rewrite list_lookup_insert_ne. }
  rewrite (int_add_sub _ _ Htot), (int_sub_add _ _ Ht0int).
  rewrite (insert_back _ _ _ _ Hpass), (insert_back _ _ _ _ Hnull).
  rewrite (tickets_back _ idx t0) by (done || lia).
  by destruct (sched k) as [? ? ? ? []].
Qed.

(** The empty slots of the initial stride table carry no pass and no
    tickets. *)
Lemma stride_init_free (i : nat) :
  s_queue stride_init !! i = Some Null →
  (0 < i)%nat ∧ pass stride_init !! i = Some NOPASS ∧
  ticket stride_init !! i = Some 0.
Proof.
  destruct i as [| i]; simpl; [done |].
  intros [_ Hi]%lookup_replicate. split; [lia |].
  split; by apply lookup_replicate.
Qed.

End Shares.

(** ** [mlfq_boost] *)

Section Boost.
Context `{Config}.

Lemma fold_result_split {A B : Type} (P : list B → A → Prop)
    (f : A → B → result A) (l : list B) (a r : A) :
  P [] a →
  (∀ pre b suf y y', l = pre ++ b :: suf → P pre y → f y b = Ok y' →
                     P (pre ++ [b]) y') →
  fold_result f l a = Ok r → P l r.
Proof.
  intros H0 Hstep.
  assert (Hgen : ∀ suf pre y, l = pre ++ suf → P pre y →
                              fold_result f suf y = Ok r → P l r).
  { induction suf as [| b suf IH]; intros pre y Hl Hy Hrun; simpl in Hrun.
    - injection Hrun as <-. rewrite app_nil_r in Hl. by subst.
    - destruct (f y b) as [y' |] eqn:Hf; simpl in Hrun; [| done].
      apply (IH (pre ++ [b]) y'); [by rewrite <- app_assoc | | done].
      by apply (Hstep pre b suf y y'). }
  intros Hrun. by apply (Hgen l [] a).
Qed.

Lemma fold_result_total {A B : Type} (Q : list B → A → Prop)
    (f : A → B → result A) (l : list B) (a : A) :
  Q l a →
  (∀ b suf y, Q (b :: suf) y → ∃ y', f y b = Ok y' ∧ Q suf y') →
  ∃ r, fold_result f l a = Ok r ∧ Q [] r.
Proof.
  revert a. induction l as [| b l IH]; intros a Ha Hstep; simpl.
  - by exists a.
  - destruct (Hstep b l a Ha) as (y' & Hf & Hy'). rewrite Hf; simpl.
    by apply IH.
Qed.

Lemma lower_slots_spec (pos : nat * nat) : pos ∈ lower_slots ↔ lower_slot pos.
Proof.
  unfold lower_slots, lower_slot. rewrite list_elem_of_bind. split.
  - intros (lv & Hin & Hlv). apply list_elem_of_fmap in Hin as (i & -> & Hi).
    apply elem_of_seq in Hlv, Hi. simpl. lia.
  - intros [Hlv Hi]. exists pos.1. split.
    + apply list_elem_of_fmap. exists pos.2. split; [by destruct pos |].
      apply elem_of_seq. lia.
    + apply elem_of_seq. lia.
Qed.

Lemma lower_slots_NoDup : NoDup lower_slots.
Proof.
  unfold lower_slots. apply NoDup_bind.
  - intros lv1 lv2 pos _ _ (i1 & -> & _)%list_elem_of_fmap
      (i2 & [= -> _] & _)%list_elem_of_fmap. done.
  - intros lv _. apply NoDup_fmap_2; [| apply NoDup_seq].
    intros i1 i2 [= ->]. done.
  - apply NoDup_seq.
Qed.

Lemma entry2_alter (qs : list (list procptr)) (lv i : nat) (v : procptr)
    (pos : nat * nat) :
  is_Some (entry2 qs (lv, i)) →
  entry2 (alter (λ q, <[i := v]> q) lv qs) pos
  = if decide (pos = (lv, i)) then Some v else entry2 qs pos.
Proof.
  unfold entry2. destruct pos as [lv' i']; simpl. intros [x Hx].
  destruct (qs !! lv) as [q |] eqn:Hq; simpl in Hx; [| done].
  rewrite list_lookup_alter.
  destruct (decide (lv = lv')) as [<- | Hlv].
  - rewrite Hq; simpl. destruct (decide (i = i')) as [<- | Hi].
    + rewrite decide_True by done.
      apply list_lookup_insert_eq. by eapply lookup_lt_Some.
    + rewrite decide_False by congruence. by rewrite list_lookup_insert_ne.
  - by rewrite decide_False by congruence.
Qed.

Lemma boost_step_null (k : kernel) (top : nat) (pos : nat * nat) :
  entry_at k pos = Some Null → boost_step (k, top) pos = Ok (k, top).
Proof.
  destruct pos as [lv i]. unfold entry_at, entry2, boost_step; simpl.
  destruct (queue (sched k) !! lv) as [q |]; simpl; [| done].
  intros ->. simpl. by destruct (decide (Null = Null)).
Qed.

Lemma boost_step_move (k : kernel) (top lv i n d : nat) (pr : proc)
    (q0 : list procptr) :
  entry_at k (lv, i) = Some (Proc n) → lv ≠ 0%nat →
  ptable k !! n = Some pr →
  queue (sched k) !! 0%nat = Some q0 →
  find_free (drop top q0) = Some d →
  boost_step (k, top) (lv, i) = Ok (boosted k lv i n pr (top + d), (top + d)%nat).
Proof.
  unfold entry_at, entry2, boost_step; simpl. intros He Hlv Hp Hq0 Hf.
  destruct (queue (sched k) !! lv) as [q |] eqn:Hq; simpl in *; [| done].
  rewrite He; simpl. destruct (decide (Proc n = Null)); [done |].
  rewrite Hq0; simpl. rewrite Hf.
  rewrite list_lookup_insert_ne by done. rewrite Hq; simpl. rewrite Hp; simpl.
  unfold boosted. do 4 f_equal.
  rewrite (alter_insert _ _ _ _ Hq0).
  rewrite (alter_insert _ (<[0%nat := _]> _) lv q); [done |].
  by rewrite list_lookup_insert_ne.
Qed.

(** The only ways a turn of the outer loop can end normally. *)
Lemma boost_step_inv (k k' : kernel) (top top' lv i : nat) :
  boost_step (k, top) (lv, i) = Ok (k', top') → lv ≠ 0%nat →
  (entry_at k (lv, i) = Some Null ∧ k' = k ∧ top' = top) ∨
  (∃ n pr q0 d,
     entry_at k (lv, i) = Some (Proc n) ∧ ptable k !! n = Some pr ∧
     queue (sched k) !! 0%nat = Some q0 ∧
     find_free (drop top q0) = Some d ∧
     k' = boosted k lv i n pr (top + d) ∧ top' = (top + d)%nat).
Proof.
  intros Hrun Hlv. pose proof Hrun as Hrun'.
  unfold boost_step in Hrun. unfold entry_at, entry2. simpl in Hrun |- *.
  destruct (queue (sched k) !! lv) as [q |] eqn:Hq; simpl in Hrun |- *; [| done].
  destruct (q !! i) as [x |] eqn:Hx; simpl in Hrun |- *; [| done].
  destruct (decide (x = Null)) as [-> | Hnn].
  { left. by injection Hrun as <- <-. }
  right.
  destruct (queue (sched k) !! 0%nat) as [q0 |] eqn:Hq0; simpl in Hrun |- *; [| done].
  destruct (find_free (drop top q0)) as [d |] eqn:Hf; [| done].
  rewrite list_lookup_insert_ne in Hrun by done. rewrite Hq in Hrun.
  simpl in Hrun. destruct x as [| | n]; [done | done |].
  destruct (ptable k !! n) as [pr |] eqn:Hp; simpl in Hrun; [| done].
  rewrite (boost_step_move k top lv i n d pr q0) in Hrun'; try done.
  - injection Hrun' as <- <-. by exists n, pr, q0, d.
  - unfold entry_at, entry2; simpl. by rewrite Hq.
Qed.

(** The entries and the processes of a [boosted] state. *)
Lemma boosted_entry (k : kernel) (lv i n j : nat) (pr : proc) (pos : nat * nat) :
  is_Some (entry_at k (lv, i)) → is_Some (entry_at k (0%nat, j)) →
  lv ≠ 0%nat →
  entry_at (boosted k lv i n pr j) pos
  = if decide (pos = (lv, i)) then Some Null
    else if decide (pos = (0%nat, j)) then Some (Proc n)
    else entry_at k pos.
Proof.
  intros Hlow Htop Hlv. unfold entry_at, boosted; simpl.
  rewrite entry2_alter.
  - destruct (decide (pos = (lv, i))); [done |]. by rewrite entry2_alter.
  - rewrite entry2_alter by done.
    destruct (decide ((lv, i) = (0%nat, j))); [congruence | done].
Qed.

Lemma find_free_drop (q : list procptr) (top d : nat) :
  find_free (drop top q) = Some d → q !! (top + d)%nat = Some Null.
Proof. intros [Hd _]%find_free_Some. by rewrite lookup_drop in Hd. Qed.

Lemma boost_inv_step (k kc kc' : kernel) (top top' : nat)
    (pre : list (nat * nat)) (b : nat * nat) :
  (∀ pos, pos ∈ pre → lower_slot pos) → lower_slot b → b ∉ pre →
  boost_inv k pre kc →
  boost_step (kc, top) b = Ok (kc', top') →
  boost_inv k (pre ++ [b]) kc'.
Proof.
  intros Hpre Hb Hnew (Hdone & Hrest & Htop & Hmoved & Hkept) Hrun.
  destruct b as [lv i]. destruct Hb as [Hlv Hi]. simpl in Hlv, Hi.
  assert (Hlv0 : lv ≠ 0%nat) by lia.
  assert (Hsame : entry_at kc (lv, i) = entry_at k (lv, i)).
  { apply Hrest; [split; simpl; lia | done]. }
  destruct (boost_step_inv kc kc' top top' lv i Hrun Hlv0)
    as [(He & -> & ->) | (n & pr & q0 & d & He & Hp & Hq0 & Hf & -> & ->)].
  - (* an empty slot *)
    unfold boost_inv. split_and!.
    + intros pos [Hin | ->%list_elem_of_singleton]%elem_of_app; [by apply Hdone | done].
    + intros pos Hl Hn. apply Hrest; [done |]. intros Hin. apply Hn.
      apply elem_of_app. by left.
    + done.
    + intros pos n [Hin | ->%list_elem_of_singleton]%elem_of_app Hn.
      * by apply (Hmoved pos).
      * congruence.
    + intros n pr Hn Hno. apply Hkept; [done |]. intros pos Hin.
      apply Hno. apply elem_of_app. by left.
  - (* a process is moved to slot [top + d] of level 0 *)
    pose proof (find_free_drop _ _ _ Hf) as Hnull.
    assert (Hslot : entry_at kc (0%nat, (top + d)%nat) = Some Null).
    { unfold entry_at, entry2; simpl. by rewrite Hq0. }
    assert (Hentry : ∀ pos,
              entry_at (boosted kc lv i n pr (top + d)) pos
              = if decide (pos = (lv, i)) then Some Null
                else if decide (pos = (0%nat, (top + d)%nat)) then Some (Proc n)
                else entry_at kc pos).
    { intros pos. apply boosted_entry; [by rewrite He | by rewrite Hslot | done]. }
    assert (Hlow : ∀ pos, lower_slot pos → pos ≠ (0%nat, (top + d)%nat)).
    { intros pos [Hl _] ->. simpl in Hl. lia. }
    pose proof (lookup_lt_Some _ _ _ Hp) as Hnlen.
    unfold boost_inv. split_and!.
    + intros pos Hin. rewrite Hentry.
      destruct (decide (pos = (lv, i))); [done |].
      apply elem_of_app in Hin as [Hin | ->%list_elem_of_singleton]; [| done].
      rewrite decide_False by (by apply Hlow, Hpre). by apply Hdone.
    + intros pos Hl Hn. rewrite Hentry.
      rewrite decide_False.
      2:{ intros ->. apply Hn, elem_of_app. right. by apply list_elem_of_singleton. }
      rewrite decide_False by (by apply Hlow).
      apply Hrest; [done |]. intros Hin. apply Hn, elem_of_app. by left.
    + intros j x Hx Hnn. rewrite Hentry.
      rewrite decide_False by (intros [= <- _]; done).
      pose proof (Htop j x Hx Hnn) as Hc.
      rewrite decide_False; [done |]. intros [= ->]. congruence.
    + intros pos m Hin Hm.
      destruct (decide (m = n)) as [-> | Hmn].
      { eexists. simpl. rewrite list_lookup_insert_eq by done.
        split; [reflexivity |]. simpl. split_and!; try done.
        rewrite Hentry. rewrite decide_False by (intros [= <- _]; done).
        by rewrite decide_True. }
      apply elem_of_app in Hin as [Hin | ->%list_elem_of_singleton].
      2:{ congruence. }
      destruct (Hmoved pos m Hin Hm) as (pr' & Hpr' & Hl & Hel & Hback).
      exists pr'. simpl. rewrite list_lookup_insert_ne by done.
      split_and!; try done. rewrite Hentry.
      rewrite decide_False by (intros [= <- _]; done).
      rewrite decide_False; [done |]. intros [= Heq]. rewrite Heq in Hback.
      congruence.
    + intros m pr0 Hm Hno. simpl.
      assert (m ≠ n).
      { intros ->. apply (Hno (lv, i)).
        - apply elem_of_app. right. by apply list_elem_of_singleton.
        - congruence. }
      rewrite list_lookup_insert_ne by done. apply Hkept; [done |].
      intros pos Hin. apply Hno, elem_of_app. by left.
Qed.

Lemma boost_inv_run (k k' : kernel) (top : nat) :
  fold_result boost_step lower_slots (k, 0%nat) = Ok (k', top) →
  boost_inv k lower_slots k'.
Proof.
  intros Hrun.
  apply (fold_result_split (λ pre st, boost_inv k pre st.1)
           boost_step lower_slots (k, 0%nat) (k', top)); [| | done].
  - unfold boost_inv; simpl. split_and!; try done.
    + intros pos Hin. by apply not_elem_of_nil in Hin.
    + intros pos n Hin. by apply not_elem_of_nil in Hin.
  - intros pre b suf [kc t] [kc' t'] Hl Hinv Hstep. simpl in *.
    pose proof lower_slots_NoDup as Hnd. rewrite Hl in Hnd.
    apply NoDup_app in Hnd as (_ & Hdisj & _).
    apply (boost_inv_step k kc kc' t t'); try done.
    + intros pos Hin. apply lower_slots_spec. rewrite Hl.
      apply elem_of_app. by left.
    + apply lower_slots_spec. rewrite Hl. apply elem_of_app. right.
      by apply elem_of_cons; left.
    + intros Hin. apply (Hdisj b Hin). by apply elem_of_cons; left.
Qed.

(** X16.  When [mlfq_boost] returns, every slot of the levels after the
    first is empty; every process that stood in one of them is at level 0
    with no time used, in the slot its record names; the entries level 0
    had are where they were, and no other process has been touched. *)
Theorem mlfq_boost_lifts (k k' : kernel) :
  mlfq_boost k = Ok k' →
  (∀ pos, lower_slot pos → entry_at k' pos = Some Null) ∧
  (∀ j x, entry_at k (0%nat, j) = Some x → x ≠ Null →
          entry_at k' (0%nat, j) = Some x) ∧
  (∀ pos n, lower_slot pos → entry_at k pos = Some (Proc n) →
     ∃ pr', ptable k' !! n = Some pr' ∧
            level (pmlfq pr') = 0 ∧ elapsed (pmlfq pr') = 0 ∧
            entry_at k' (0%nat, index (pmlfq pr')) = Some (Proc n)) ∧
  (∀ n pr, ptable k !! n = Some pr →
     (∀ pos, lower_slot pos → entry_at k pos ≠ Some (Proc n)) →
     ptable k' !! n = Some pr).
Proof.
  unfold mlfq_boost. intros Hrun.
  destruct (fold_result boost_step lower_slots (k, 0%nat)) as [[kf top] |] eqn:Hf;
    simpl in Hrun; [| done].
  injection Hrun as ->.
  destruct (boost_inv_run k k' top Hf) as (Hdone & _ & Htop & Hmoved & Hkept).
  split_and!.
  - intros pos Hl. by apply Hdone, lower_slots_spec.
  - done.
  - intros pos n Hl. by apply Hmoved, lower_slots_spec.
  - intros n pr Hn Hno. apply Hkept; [done |].
    intros pos Hin. by apply Hno, lower_slots_spec.
Qed.

Lemma nulls_cons (a : procptr) (q : list procptr) :
  nulls (a :: q) = ((if decide (a = Null) then 1 else 0) + nulls q)%nat.
Proof.
  unfold nulls. rewrite filter_cons. by destruct (decide (a = Null)).
Qed.

Lemma find_free_cons (a : procptr) (q : list procptr) (d : nat) :
  find_free (a :: q) = Some (S d) → a ≠ Null ∧ find_free q = Some d.
Proof.
  intros [Hd Hbefore]%find_free_Some. split.
  - apply (Hbefore 0%nat); [done | lia].
  - apply find_free_Some. split; [done |].
    intros j x Hx Hj. apply (Hbefore (S j)); [done | lia].
Qed.

Lemma nulls_fill (q : list procptr) (d : nat) (x : procptr) :
  find_free q = Some d → x ≠ Null →
  (nulls (<[0%nat := x]> (drop d q)) + 1 = nulls q)%nat.
Proof.
  revert q. induction d as [| d IH]; intros q Hf Hx.
  - pose proof Hf as [H0 _]%find_free_Some.
    destruct q as [| a q]; [done |]. simpl in H0. injection H0 as ->.
    rewrite drop_0. simpl. rewrite !nulls_cons.
    rewrite decide_False by done. rewrite decide_True by done. lia.
  - destruct q as [| a q]; [by apply find_free_Some in Hf as [? _] |].
    apply find_free_cons in Hf as [Ha Hf]. simpl.
    rewrite nulls_cons, decide_False by done. by apply IH.
Qed.

Lemma nulls_move (q : list procptr) (top d : nat) (x : procptr) :
  find_free (drop top q) = Some d → x ≠ Null →
  (nulls (drop (top + d) (<[(top + d)%nat := x]> q)) + 1 = nulls (drop top q))%nat.
Proof.
  intros Hf Hx. rewrite drop_insert_ge by lia.
  replace (top + d - (top + d))%nat with 0%nat by lia.
  rewrite <- drop_drop. by apply nulls_fill.
Qed.

Lemma nulls_pos (q : list procptr) :
  (0 < nulls q)%nat → is_Some (find_free q).
Proof.
  intros Hn. destruct (find_free q) as [d |] eqn:Hf; [by exists d |].
  apply find_free_None in Hf. exfalso. unfold nulls in Hn.
  destruct (filter (λ x, x = Null) q) as [| a l] eqn:Hfl; [simpl in Hn; lia |].
  assert (Ha : a ∈ filter (λ x, x = Null) q) by (rewrite Hfl; left).
  apply list_elem_of_filter in Ha as [-> Hin]. done.
Qed.

Lemma held_snoc (k : kernel) (pre : list (nat * nat)) (b : nat * nat) :
  held k (pre ++ [b])
  = (held k pre + if decide (entry_at k b ≠ Some Null) then 1 else 0)%nat.
Proof.
  unfold held. rewrite filter_app, length_app. f_equal.
  rewrite filter_cons. by destruct (decide (entry_at k b ≠ Some Null)).
Qed.

Lemma held_cons (k : kernel) (b : nat * nat) (suf : list (nat * nat)) :
  held k (b :: suf)
  = ((if decide (entry_at k b ≠ Some Null) then 1 else 0) + held k suf)%nat.
Proof.
  unfold held. rewrite filter_cons.
  by destruct (decide (entry_at k b ≠ Some Null)).
Qed.

Lemma held_app (k : kernel) (pre suf : list (nat * nat)) :
  held k (pre ++ suf) = (held k pre + held k suf)%nat.
Proof. unfold held. by rewrite filter_app, length_app. Qed.

Lemma boosted_top (k : kernel) (lv i n j : nat) (pr : proc) (q0 : list procptr) :
  queue (sched k) !! 0%nat = Some q0 → lv ≠ 0%nat →
  queue (sched (boosted k lv i n pr j)) !! 0%nat = Some (<[j := Proc n]> q0).
Proof.
  intros Hq0 Hlv. unfold boosted; simpl.
  rewrite list_lookup_alter_ne by done. by rewrite list_lookup_alter_eq, Hq0.
Qed.

(** The count the loop keeps: the processes met so far and the empty
    slots of level 0 from [top] on add up to the empty slots level 0 had
    at the start. *)
Lemma boost_count_step (k kc kc' : kernel) (top top' : nat)
    (pre : list (nat * nat)) (b : nat * nat) (q0 : list procptr) :
  lower_slot b → b ∉ pre → boost_inv k pre kc →
  queue (sched kc) !! 0%nat = Some q0 →
  (held k pre + nulls (drop top q0) = top_room k)%nat →
  boost_step (kc, top) b = Ok (kc', top') →
  ∃ q0', queue (sched kc') !! 0%nat = Some q0' ∧
         (held k (pre ++ [b]) + nulls (drop top' q0') = top_room k)%nat ∧
         length (ptable kc') = length (ptable kc).
Proof.
  intros Hb Hnew (_ & Hrest & _) Hq0 Hcount Hrun.
  destruct b as [lv i]. pose proof Hb as [Hlv Hi]. simpl in Hlv, Hi.
  assert (Hlv0 : lv ≠ 0%nat) by lia.
  pose proof (Hrest (lv, i) Hb Hnew) as Hsame.
  rewrite held_snoc.
  destruct (boost_step_inv kc kc' top top' lv i Hrun Hlv0)
    as [(He & -> & ->) | (n & pr & q0' & d & He & Hp & Hq0' & Hf & -> & ->)].
  - exists q0. rewrite <- Hsame, He. rewrite decide_False by (intros Hn; done).
    split_and!; [done | lia | done].
  - rewrite Hq0 in Hq0'. injection Hq0' as <-.
    exists (<[(top + d)%nat := Proc n]> q0).
    rewrite (boosted_top kc lv i n (top + d) pr q0) by done.
    rewrite <- Hsame, He. rewrite decide_True by done.
    pose proof (nulls_move q0 top d (Proc n) Hf) as Hmv.
    split_and!; [done | | simpl; by rewrite length_insert].
    assert (Proc n ≠ Null) as Hne by done. specialize (Hmv Hne). lia.
Qed.

Lemma entry_valid (k : kernel) (pos : nat * nat) :
  wf_shape k → wf_queues k → (pos.1 < NMLFQ)%nat → (pos.2 < NPROC)%nat →
  ∃ x, entry_at k pos = Some x ∧ valid_entry (ptable k) x.
Proof.
  intros (_ & _ & _ & _ & Hlq & Hlens & _) Hval Hlv Hi.
  destruct pos as [lv i]; simpl in *. unfold entry_at, entry2; simpl.
  destruct (lookup_lt_is_Some_2 (queue (sched k)) lv) as [q Hq]; [lia |].
  pose proof (Forall_lookup_1 _ _ _ _ Hlens Hq) as Hlen. simpl in Hlen.
  destruct (lookup_lt_is_Some_2 q i) as [x Hx]; [lia |].
  exists x. rewrite Hq; simpl. split; [done |].
  pose proof (Forall_lookup_1 _ _ _ _ Hval Hq) as Hvq.
  by apply (Forall_lookup_1 _ _ _ _ Hvq Hx).
Qed.

(** X17.  In a state whose arrays have their sizes and whose queue
    entries are processes of the table, [mlfq_boost] returns exactly when
    level 0 has at least as many empty slots as the levels after it hold
    processes; otherwise it stops in its [panic] (or in a fault). *)
Theorem mlfq_boost_room (k : kernel) :
  wf_shape k → wf_queues k →
  (∃ k', mlfq_boost k = Ok k') ↔ (lower_load k ≤ top_room k)%nat.
Proof.
  intros Hwf Hval.
  pose proof Hwf as (_ & _ & _ & _ & Hlq & _).
  destruct (lookup_lt_is_Some_2 (queue (sched k)) 0) as [q0 Hq0];
    [rewrite Hlq; unfold NMLFQ; lia |].
  assert (Hroom : top_room k = nulls q0).
  { unfold top_room. by rewrite Hq0. }
  set (P := λ (pre : list (nat * nat)) (st : kernel * nat),
         boost_inv k pre st.1 ∧ length (ptable st.1) = length (ptable k) ∧
         ∃ q, queue (sched st.1) !! 0%nat = Some q ∧
              (held k pre + nulls (drop st.2 q) = top_room k)%nat).
  assert (HP0 : P [] (k, 0%nat)).
  { unfold P, boost_inv; simpl. split_and!; try done.
    - intros pos Hin. by apply not_elem_of_nil in Hin.
    - intros pos n Hin. by apply not_elem_of_nil in Hin.
    - exists q0. rewrite drop_0. split; [done |]. unfold held; simpl. lia. }
  assert (HPstep : ∀ pre b suf st st',
            lower_slots = pre ++ b :: suf → P pre st →
            boost_step st b = Ok st' → P (pre ++ [b]) st').
  { intros pre b suf [kc t] [kc' t'] Hl (Hinv & Hlen & q & Hq & Hcount) Hstep.
    simpl in *.
    pose proof lower_slots_NoDup as Hnd. rewrite Hl in Hnd.
    apply NoDup_app in Hnd as (_ & Hdisj & _).
    assert (Hb : lower_slot b).
    { apply lower_slots_spec. rewrite Hl. apply elem_of_app. right.
      by apply elem_of_cons; left. }
    assert (Hnew : b ∉ pre).
    { intros Hin. apply (Hdisj b Hin). by apply elem_of_cons; left. }
    destruct (boost_count_step k kc kc' t t' pre b q Hb Hnew Hinv Hq Hcount Hstep)
      as (q' & Hq' & Hcount' & Hlen').
    unfold P; simpl. split_and!.
    - apply (boost_inv_step k kc kc' t t'); try done.
      intros pos Hin. apply lower_slots_spec. rewrite Hl.
      apply elem_of_app. by left.
    - congruence.
    - by exists q'. }
  split.
  - intros [k' Hrun]. unfold mlfq_boost in Hrun.
    destruct (fold_result boost_step lower_slots (k, 0%nat)) as [[kf top] |] eqn:Hf;
      simpl in Hrun; [| done].
    destruct (fold_result_split P boost_step lower_slots (k, 0%nat) (kf, top)
                HP0 HPstep Hf) as (_ & _ & q & _ & Hcount).
    unfold lower_load. lia.
  - intros Hload.
    destruct (fold_result_total
                (λ suf st, ∃ pre, lower_slots = pre ++ suf ∧ P pre st)
                boost_step lower_slots (k, 0%nat)) as ([kf top] & Hrun & _).
    + by exists [].
    + intros b suf [kc t] (pre & Hl & HPpre).
      assert (∃ st', boost_step (kc, t) b = Ok st') as [st' Hst'].
      { destruct HPpre as ((_ & Hrest & _) & Hlen & q & Hq & Hcount).
        simpl in *.
        pose proof lower_slots_NoDup as Hnd. rewrite Hl in Hnd.
        apply NoDup_app in Hnd as (_ & Hdisj & _).
        assert (Hb : lower_slot b).
        { apply lower_slots_spec. rewrite Hl. apply elem_of_app. right.
          by apply elem_of_cons; left. }
        assert (Hnew : b ∉ pre).
        { intros Hin. apply (Hdisj b Hin). by apply elem_of_cons; left. }
        pose proof (Hrest b Hb Hnew) as Hsame.
        destruct Hb as [Hb1 Hb2].
        destruct (entry_valid k b Hwf Hval) as (x & Hx & Hvx); [lia | done |].
        destruct x as [| | n]; simpl in Hvx; [| done |].
        { eexists. apply boost_step_null. congruence. }
        destruct (lookup_lt_is_Some_2 (ptable kc) n) as [pr Hpr]; [lia |].
        assert (Hfree : (0 < nulls (drop t q))%nat).
        { unfold lower_load in Hload. rewrite Hl, held_app, held_cons in Hload.
          rewrite Hx in Hload. rewrite decide_True in Hload by done. lia. }
        destruct (nulls_pos _ Hfree) as [d Hd].
        destruct b as [lv i]. simpl in *. eexists.
        apply (boost_step_move kc t lv i n d pr q); try done; [congruence | lia]. }
      exists st'. split; [done |]. exists (pre ++ [b]).
      split; [by rewrite <- app_assoc |].
      by apply (HPstep pre b suf (kc, t) st').
    + exists kf. unfold mlfq_boost. by rewrite Hrun.
Qed.

End Boost.

(** ** The dispatcher *)

Section Dispatch.
Context `{Config}.

Lemma stride_next_cases (k : kernel) (t0 : Z) :
  wf_stride (ptable k) (metasched (sched k)) →
  stride_next k t0 = Ok (MlfqProc, t0) ∨
  ∃ j p ti, stride_next k t0 = Ok (Proc j, Z.of_nat ti) ∧
            ptable k !! j = Some p ∧ first_runnable p ti.
Proof.
  intros Hwf.
  destruct (stride_next_slot_inv _ _ t0 Hwf)
    as ([m t] & Hrun & Hm & Hel & Hmin & Ht0 & Ht); simpl in *.
  pose proof Hel as [(q & Hq & Hnn) Hrn].
  unfold stride_next. rewrite Hrun; simpl. rewrite Hq; simpl.
  destruct (decide (m = 0%nat)) as [-> | Hne].
  - left. destruct Hwf as (_ & _ & H0 & _). rewrite H0 in Hq.
    injection Hq as <-. by rewrite Ht0.
  - right. destruct (Ht Hne) as (j & p & ti & Hq' & Hp & -> & Hfr).
    rewrite Hq in Hq'. injection Hq' as ->. by exists j, p, ti.
Qed.

(** What the scheduler does to the process it hands the CPU to. *)
Lemma dispatch_mark (pt : list proc) (n ti : nat) (p : proc) (t : thread)
    (now : Z) :
  pt !! n = Some p → threads p !! ti = Some t →
  ∃ p',
    <[n := set_pmlfq (mkInfo (level (pmlfq p)) (index (pmlfq p))
                        (elapsed (pmlfq p)) now)
             (upd_thread ti (set_t_state RUNNING) (set_tidx ti p))]> pt !! n
    = Some p' ∧
    tidx p' = ti ∧ threads p' !! ti = Some (set_t_state RUNNING t) ∧
    (∀ tj, tj ≠ ti → threads p' !! tj = threads p !! tj) ∧
    start (pmlfq p') = now ∧ level (pmlfq p') = level (pmlfq p) ∧
    index (pmlfq p') = index (pmlfq p) ∧ elapsed (pmlfq p') = elapsed (pmlfq p) ∧
    state p' = state p ∧ pid p' = pid p.
Proof.
  intros Hp Ht. eexists.
  rewrite list_lookup_insert_eq by (by eapply lookup_lt_Some).
  split; [reflexivity |]. simpl. split_and!; try done.
  - by rewrite list_lookup_alter_eq, Ht.
  - intros tj Hne. by rewrite list_lookup_alter_ne.
Qed.

Lemma handed_intro (k k1 : kernel) (n ti : nat) (p : proc) (now : Z) :
  ptable k !! n = Some p → first_runnable p ti →
  ptable k1 = ptable k → queue (sched k1) = queue (sched k) →
  metasched (sched k1) = metasched (sched k) →
  handed k
    (set_ptable
       (<[n := set_pmlfq (mkInfo (level (pmlfq p)) (index (pmlfq p))
                            (elapsed (pmlfq p)) now)
                 (upd_thread ti (set_t_state RUNNING) (set_tidx ti p))]>
          (ptable k1)) k1)
    n ti now.
Proof.
  intros Hp Hfr Hpt Hq Hm. pose proof Hfr as (t & Ht & _).
  rewrite Hpt.
  destruct (dispatch_mark (ptable k) n ti p t now Hp Ht)
    as (p' & Hp' & ? & ? & ? & ? & ? & ? & _).
  exists p, t, p'. simpl. split_and!; try done.
  intros m Hne. by rewrite list_lookup_insert_ne.
Qed.

Lemma sched_select_cases (k : kernel) (p : procptr) (idx now : Z) :
  wf_shape k → wf_queues k → wf_stride (ptable k) (metasched (sched k)) →
  ∃ r, sched_select k MLFQ_NEXT p idx now = Ok r ∧
    ((∃ k', r = Idle k' MLFQ_NEXT ∧
            ptable k' = ptable k ∧ queue (sched k') = queue (sched k) ∧
            (∀ l q, queue (sched k) !! l = Some q → level_idle (ptable k) q) ∧
            stride_next k idx = Ok (MlfqProc, idx) ∧
            stride_update k MlfqProc = Ok (k', MLFQ_NEXT)) ∨
     (∃ k' n ti, r = Switch k' n (Z.of_nat ti) ∧ handed k k' n ti now)).
Proof.
  intros Hwf Hq Hst. unfold sched_select.
  destruct (decide (MLFQ_NEXT = MLFQ_NEXT)) as [_ |]; [| done].
  change (Ok true ≫= ?f) with (f true). cbv beta.
  destruct (stride_next_cases k idx Hst) as [Hnext | (j & pr & ti & Hnext & Hp & Hfr)];
    rewrite Hnext.
  - change (Ok (MlfqProc, idx) ≫= ?f) with (f (MlfqProc, idx)). cbv beta iota.
    destruct (decide (MlfqProc = MlfqProc)) as [_ |]; [| done].
    unfold mlfq_next.
    destruct (mlfq_next_from_spec NMLFQ 0 k idx Hwf Hq)
      as (k1 & ptr & t & Hrun & Hres); [done |].
    rewrite Hrun. change (Ok (k1, ptr, t) ≫= ?f) with (f (k1, ptr, t)).
    cbv beta iota.
    destruct Hres as [(-> & -> & -> & Hall) | Hfound].
    + rewrite bool_decide_eq_true_2 by done. simpl andb. cbv iota.
      destruct (stride_update_aggregate k Hwf) as [ps Hagg]. rewrite Hagg.
      eexists. split; [reflexivity |]. left. eexists. split; [reflexivity |].
      split_and!; try done. intros l q Hl. apply (Hall l); [lia | done].
    + destruct Hfound
        as (l & q & c & pos & j & pr & _ & Hql & Hcl & _ & _ & _ & Hp
            & -> & -> & Hr & ->).
      rewrite bool_decide_eq_false_2 by done. simpl andb. cbv iota.
      destruct (runnable_spec pr) as [[Hno _] | (ti & Hti & Hfr)]; [done |].
      pose proof Hfr as (th & Hth & _).
      simpl. rewrite Hp; simpl. rewrite Hti, Nat2Z.id, Hth; simpl.
      eexists. split; [reflexivity |]. right. eexists _, j, ti.
      split; [reflexivity |].
      match goal with
      | |- handed _ (set_ptable _ ?k1) _ _ _ =>
          apply (handed_intro k k1 j ti pr now)
      end; done.
  - change (Ok (Proc j, Z.of_nat ti) ≫= ?f) with (f (Proc j, Z.of_nat ti)).
    cbv beta iota.
    destruct (decide (Proc j = MlfqProc)) as [| _]; [done |].
    change (Ok (k, Proc j, Z.of_nat ti) ≫= ?f) with (f (k, Proc j, Z.of_nat ti)).
    cbv beta iota.
    rewrite bool_decide_eq_false_2 by done. simpl andb. cbv iota.
    pose proof Hfr as (th & Hth & _).
    rewrite Hp; simpl. rewrite Nat2Z.id, Hth; simpl.
    eexists. split; [reflexivity |]. right. eexists _, j, ti.
    split; [reflexivity |]. by apply (handed_intro k k j ti pr now).
Qed.


(** What [mlfq_update] does when the process is due for the next level
    and that level has an empty slot. *)
Lemma mlfq_update_moves (k : kernel) (p L idx' : nat) (pr : proc)
    (ex ctime : Z) (qL q' : list procptr) :
  wf_shape k → ptable k !! p = Some pr →
  state pr ≠ ZOMBIE → killed pr = 0 →
  level (pmlfq pr) = Z.of_nat L → (S L < NMLFQ)%nat →
  expire (sched k) !! L = Some ex → ex <= elapsed (pmlfq pr) →
  queue (sched k) !! L = Some qL → (index (pmlfq pr) < length qL)%nat →
  queue (sched k) !! S L = Some q' → find_free q' = Some idx' →
  ∃ k' pr',
    mlfq_update k p ctime = Ok (k', MLFQ_NEXT) ∧
    ptable k' !! p = Some pr' ∧
    level (pmlfq pr') = Z.of_nat (S L) ∧ index (pmlfq pr') = idx' ∧
    elapsed (pmlfq pr') = 0 ∧
    queue (sched k') !! S L = Some (<[idx' := Proc p]> q') ∧
    queue (sched k') !! L = Some (<[index (pmlfq pr) := Null]> qL) ∧
    (∀ j, j ≠ p → ptable k' !! j = ptable k !! j).
Proof.
  intros Hwf Hp Hz Hk HL HSL Hex Hexp HqL Hidx Hq' Hf.
  destruct (stride_update_aggregate k Hwf) as [ps Hagg].
  pose proof (find_free_lt _ _ Hf) as Hidx'.
  unfold mlfq_update. rewrite Hp; simpl.
  destruct (decide (state pr = ZOMBIE)); [done |].
  destruct (decide (killed pr ≠ 0)); [done |].
  destruct (decide (level (pmlfq pr) = -1)); [lia |].
  rewrite Hagg; simpl. rewrite HL.
  destruct (Z.ltb_spec (Z.of_nat L + 1) (Z.of_nat NMLFQ)); [| lia].
  rewrite !zlookup_nat, Hex; simpl.
  destruct (Z.leb_spec ex (elapsed (pmlfq pr))); [| lia].
  replace (Z.of_nat L + 1) with (Z.of_nat (S L)) by lia.
  erewrite mlfq_append_ok; [| exact Hq' | exact Hf | exact Hp]. simpl.
  erewrite clear_slot_ok;
    [| simpl; rewrite list_lookup_insert_ne by lia; exact HqL | done].
  simpl. eexists _, _. split; [reflexivity |]. simpl.
  rewrite list_lookup_insert_eq by (by eapply lookup_lt_Some).
  split; [reflexivity |]. simpl.
  rewrite list_lookup_insert_ne by lia.
  rewrite list_lookup_insert_eq by (by eapply lookup_lt_Some).
  split_and!; try done.
  - apply list_lookup_insert_eq. rewrite length_insert. by eapply lookup_lt_Some.
  - intros j Hj. by rewrite list_lookup_insert_ne.
Qed.

Lemma wf_shape_put (k : kernel) (p : nat) (pr : proc) :
  wf_shape k → wf_shape (set_ptable (<[p := pr]> (ptable k)) k).
Proof.
  unfold wf_shape; simpl. rewrite length_insert. done.
Qed.

(** X30.  The second half of a turn of [mlfq_scheduler], for a live
    process of the MLFQ and a tick that is not past the boost mark: the
    ticks of the slice are added to [elapsed] before [mlfq_update] looks at
    it.  If the sum has reached [expire] of the level and a lower level
    with an empty slot exists, the process goes there with [elapsed] 0 and
    the report is NEXT; otherwise it stays where it is with the sum as its
    [elapsed], and the report is NEXT exactly when the ticks since [start]
    have reached the quantum of the level. *)
Theorem sched_account_charges (k : kernel) (p L : nat) (pr : proc)
    (ex qt t0 t1 boost : Z) (qL : list procptr) :
  wf_shape k → ptable k !! p = Some pr →
  state pr ≠ ZOMBIE → killed pr = 0 →
  level (pmlfq pr) = Z.of_nat L →
  expire (sched k) !! L = Some ex → quantum (sched k) !! L = Some qt →
  queue (sched k) !! L = Some qL → (index (pmlfq pr) < length qL)%nat →
  t1 <= boost →
  ((S L < NMLFQ)%nat ∧ ex <= wrap_uint (elapsed (pmlfq pr) + uint_sub t1 t0) →
   ∀ q' idx', queue (sched k) !! S L = Some q' → find_free q' = Some idx' →
     ∃ k' pr',
       sched_account k p t0 t1 boost = Ok (k', MLFQ_NEXT, boost) ∧
       ptable k' !! p = Some pr' ∧
       level (pmlfq pr') = Z.of_nat (S L) ∧ index (pmlfq pr') = idx' ∧
       elapsed (pmlfq pr') = 0 ∧
       queue (sched k') !! S L = Some (<[idx' := Proc p]> q') ∧
       queue (sched k') !! L = Some (<[index (pmlfq pr) := Null]> qL)) ∧
  (¬ ((S L < NMLFQ)%nat ∧
      ex <= wrap_uint (elapsed (pmlfq pr) + uint_sub t1 t0)) →
   ∃ k' pr',
     sched_account k p t0 t1 boost
     = Ok (k', if decide (qt <= uint_sub t1 (start (pmlfq pr)))
               then MLFQ_NEXT else MLFQ_KEEP, boost) ∧
     ptable k' !! p = Some pr' ∧
     elapsed (pmlfq pr') = wrap_uint (elapsed (pmlfq pr) + uint_sub t1 t0) ∧
     level (pmlfq pr') = level (pmlfq pr) ∧
     index (pmlfq pr') = index (pmlfq pr) ∧
     queue (sched k') = queue (sched k)).
Proof.
  intros Hwf Hp Hz Hk HL Hex Hqt HqL Hidx Hboost.
  pose proof (lookup_lt_Some _ _ _ Hp) as Hplen.
  set (pr1 := set_pmlfq
                (mkInfo (level (pmlfq pr)) (index (pmlfq pr))
                   (wrap_uint (elapsed (pmlfq pr) + uint_sub t1 t0))
                   (start (pmlfq pr))) pr).
  set (k1 := set_ptable (<[p := pr1]> (ptable k)) k).
  assert (Hwf1 : wf_shape k1) by (by apply wf_shape_put).
  assert (Hp1 : ptable k1 !! p = Some pr1).
  { simpl. by apply list_lookup_insert_eq. }
  assert (Hrun : ∀ r, mlfq_update k1 p t1 = Ok r →
            sched_account k p t0 t1 boost = Ok (r.1, r.2, boost)).
  { intros [k2 v] Hr. unfold sched_account. rewrite Hp; simpl.
    fold pr1. fold k1. rewrite Hr; simpl.
    destruct (Z.ltb_spec boost t1); [lia | done]. }
  split.
  - intros [HSL Hdue] q' idx' Hq' Hf.
    destruct (mlfq_update_moves k1 p L idx' pr1 ex t1 qL q')
      as (k' & pr' & Hup & Hp' & Hl' & Hi' & He' & HqS & HqL' & _); try done.
    exists k', pr'. rewrite (Hrun _ Hup). done.
  - intros Hno.
    destruct (mlfq_update_stays k1 p L pr1 ex qt t1) as (k' & Hup & Hpt & Hq);
      try done.
    exists k', pr1. rewrite (Hrun _ Hup). simpl.
    split_and!; try done. by rewrite Hpt.
Qed.

End Dispatch.

(** ** Switching threads inside a process *)

Section NextThread.
Context `{Config}.

Lemma next_scan_wrap (fuel : nat) (ts : list thread) (t : nat) :
  (0 < NTHREAD)%nat →
  next_scan fuel ts t NTHREAD = next_scan fuel ts t 0.
Proof.
  intros Hpos. destruct fuel as [| fuel]; [done |]. cbn [next_scan].
  rewrite Nat.eqb_refl.
  destruct (0 =? NTHREAD)%nat eqn:Heq; [apply Nat.eqb_eq in Heq; lia | done].
Qed.

(** The loop over a run of offsets that neither wraps nor meets [t]. *)
Lemma next_scan_seq (ts : list thread) (t n a fuel : nat) :
  length ts = NTHREAD → (a + n ≤ NTHREAD)%nat →
  (∀ j, (a ≤ j < a + n)%nat → j ≠ t) →
  next_scan (n + fuel) ts t a
  = match list_find (can_run ts) (seq a n) with
    | Some (_, j) => Ok (Some j)
    | None => next_scan fuel ts t (a + n)
    end.
Proof.
  intros Hlen. revert a. induction n as [| n IH]; intros a Han Hnt.
  { simpl. by rewrite Nat.add_0_r. }
  cbn [Nat.add next_scan seq].
  destruct (Nat.eqb_spec a NTHREAD) as [| _]; [lia |].
  destruct (Nat.eqb_spec a t) as [Hat | _]; [by apply (Hnt a) in Hat; [| lia] |].
  destruct (lookup_lt_is_Some_2 ts a) as [th Hth]; [lia |].
  cbn [list_find].
  destruct (decide (can_run ts a)) as [Hc | Hc];
    unfold can_run in Hc; rewrite Hth in Hc; simpl in Hc;
    rewrite Hth; simpl.
  - rewrite decide_True by congruence. done.
  - rewrite decide_False by congruence.
    rewrite IH; [| lia | intros j Hj; apply Hnt; lia].
    replace (S a + n)%nat with (a + S n)%nat by lia.
    by destruct (list_find (can_run ts) (seq (S a) n)) as [[i j] |].
Qed.

Lemma next_scan_spec (ts : list thread) (t : nat) :
  length ts = NTHREAD → (t < NTHREAD)%nat →
  next_scan (S NTHREAD) ts t (S t)
  = Ok (snd <$> list_find (can_run ts) (around t)).
Proof.
  intros Hlen Ht. unfold around.
  replace (S NTHREAD) with ((NTHREAD - S t) + (t + 2))%nat by lia.
  rewrite next_scan_seq; [| done | lia | intros j Hj; lia].
  destruct (list_find (can_run ts) (seq (S t) (NTHREAD - S t))) as [[i j] |] eqn:Hhigh.
  { by rewrite (list_find_app_l _ _ _ _ _ Hhigh). }
  rewrite (list_find_app_r _ _ _ Hhigh).
  replace (S t + (NTHREAD - S t))%nat with NTHREAD by lia.
  rewrite next_scan_wrap by lia.
  rewrite next_scan_seq; [| done | lia | intros j Hj; lia].
  destruct (list_find (can_run ts) (seq 0 t)) as [[i j] |] eqn:Hlow; simpl.
  { done. }
  destruct (Nat.eqb_spec t NTHREAD) as [| _]; [lia |].
  by rewrite Nat.eqb_refl.
Qed.

#[local] Arguments next_scan : simpl never.

Lemma around_spec (t j : nat) :
  (t < NTHREAD)%nat → j ∈ around t ↔ (j < NTHREAD)%nat ∧ j ≠ t.
Proof.
  intros Ht. unfold around. rewrite elem_of_app, !elem_of_seq. lia.
Qed.

(** X19.  [next_thread] always comes to an end.  It hands the CPU to the
    first RUNNABLE thread met when the threads of the process are taken
    circularly from the one after the current thread: that thread becomes
    RUNNING and the current one RUNNABLE, and the others are not touched.
    When no other thread is RUNNABLE nothing changes: the current thread
    goes on if it is RUNNING, and the scheduler is entered if it is not. *)
Theorem next_thread_round_robin (k : kernel) (p : nat) (pr : proc) (t : thread) :
  ptable k !! p = Some pr → length (threads pr) = NTHREAD →
  threads pr !! tidx pr = Some t →
  ∃ r, next_thread k p = Ok r ∧
    (((∀ j, j ≠ tidx pr → ¬ can_run (threads pr) j) ∧
      r = if decide (t_state t = RUNNING) then Stay k else ToScheduler k) ∨
     (∃ it k' pr',
        r = SwitchTo k' (tidx pr) it ∧
        first_in (around (tidx pr)) (can_run (threads pr)) it ∧
        ptable k' !! p = Some pr' ∧ tidx pr' = it ∧
        t_state <$> threads pr' !! it = Some RUNNING ∧
        t_state <$> threads pr' !! tidx pr = Some RUNNABLE ∧
        (∀ j, j ≠ it → j ≠ tidx pr → threads pr' !! j = threads pr !! j) ∧
        (∀ m, m ≠ p → ptable k' !! m = ptable k !! m) ∧ sched k' = sched k)).
Proof.
  intros Hp Hlen Ht. pose proof (lookup_lt_Some _ _ _ Ht) as Hti.
  rewrite Hlen in Hti.
  unfold next_thread. rewrite Hp; simpl. rewrite Ht; simpl.
  rewrite (next_scan_spec (threads pr) (tidx pr) Hlen Hti).
  destruct (list_find (can_run (threads pr)) (around (tidx pr)))
    as [[n it] |] eqn:Hf; simpl.
  - apply list_find_Some in Hf as (Hn & Hrun & Hbefore).
    assert (Hit : it ∈ around (tidx pr)).
    { apply list_elem_of_lookup. by exists n. }
    apply around_spec in Hit as [Hlt Hne]; [| done].
    eexists. split; [reflexivity |]. right. eexists it, _, _.
    split; [reflexivity |]. simpl.
    rewrite list_lookup_insert_eq by (by eapply lookup_lt_Some).
    split_and!; try done.
    + exists n. split_and!; try done. intros m pos' Hm Hpos'.
      by apply (Hbefore m).
    + simpl. rewrite list_lookup_alter_eq, list_lookup_alter_ne by done.
      unfold can_run in Hrun.
      destruct (threads pr !! it); simpl in *; [done | done].
    + simpl. rewrite list_lookup_alter_ne by done.
      by rewrite list_lookup_alter_eq, Ht.
    + intros j Hj1 Hj2. simpl. by rewrite !list_lookup_alter_ne.
    + intros m Hm. by rewrite list_lookup_insert_ne.
  - apply list_find_None in Hf. rewrite Forall_forall in Hf.
    assert (Hnone : ∀ j, j ≠ tidx pr → ¬ can_run (threads pr) j).
    { intros j Hj Hrun. pose proof Hrun as Hrun'. unfold can_run in Hrun'.
      destruct (threads pr !! j) as [th |] eqn:Hth; [| done].
      apply (Hf j); [| done]. apply around_spec; [done |].
      apply lookup_lt_Some in Hth. lia. }
    destruct (decide (t_state t ≠ RUNNING)) as [Hn | Hn];
      destruct (decide (t_state t = RUNNING)) as [Hy | Hy];
      try done; eexists; (split; [reflexivity |]); left; done.
Qed.

End NextThread.

(** ** The life cycle: [exit] and [wait] *)

Section Lifecycle.
Context `{Config}.
Variable paddr : nat → Z.

Lemma stirred_thread_refl (t : thread) : stirred_thread t t.
Proof. by left. Qed.

Lemma stirred_thread_trans (t1 t2 t3 : thread) :
  stirred_thread t1 t2 → stirred_thread t2 t3 → stirred_thread t1 t3.
Proof.
  intros [-> | [Hs ->]] [-> | [Hs' ->]]; unfold stirred_thread; auto.
Qed.

Lemma stirred_thread_wake (c : Z) (t : thread) : stirred_thread t (wake_thread c t).
Proof.
  unfold wake_thread, stirred_thread.
  destruct (decide (t_state t = SLEEPING ∧ chan t = c)) as [[Hs _] | _]; auto.
Qed.

Lemma stirred_refl (q : proc) : stirred q q.
Proof.
  unfold stirred. split_and!; try done.
  apply Forall_Forall2_diag, Forall_forall. intros t _. apply stirred_thread_refl.
Qed.

Lemma stirred_trans (q1 q2 q3 : proc) : stirred q1 q2 → stirred q2 q3 → stirred q1 q3.
Proof.
  intros (? & ? & ? & ? & ? & ? & ? & ? & ? & Ht)
         (? & ? & ? & ? & ? & ? & ? & ? & ? & Ht').
  unfold stirred. split_and!; try congruence.
  revert Ht'. generalize (threads q3). induction Ht as [| t1 t2 l1 l2 Ht12 _ IH];
    intros l3 Ht'; inversion Ht' as [| ? t3 ? l3' Ht23 Hrest]; subst.
  - constructor.
  - constructor; [by eapply stirred_thread_trans | by apply IH].
Qed.

Lemma stirred_wake (c : Z) (q : proc) : stirred q (wake_proc c q).
Proof.
  unfold wake_proc. destruct (decide (state q = RUNNABLE)); [| apply stirred_refl].
  unfold stirred; simpl. split_and!; try done.
  apply Forall2_fmap_r, Forall_Forall2_diag, Forall_forall.
  intros t _. apply stirred_thread_wake.
Qed.

Lemma stirred_parent (v : procptr) (q : proc) : stirred q (set_parent v q).
Proof.
  unfold stirred; simpl. split_and!; try done.
  apply Forall_Forall2_diag, Forall_forall. intros t _. apply stirred_thread_refl.
Qed.

Lemma wake_proc_parent (c : Z) (q : proc) : parent (wake_proc c q) = parent q.
Proof. unfold wake_proc. by destruct (decide _). Qed.

Lemma reparent_inv_step (cur : nat) (initproc : procptr) (k0 kc : kernel)
    (n : nat) :
  (n < length (ptable k0))%nat →
  reparent_inv cur initproc k0 n kc →
  ∃ kc', reparent_step paddr cur initproc kc n = Ok kc' ∧
         reparent_inv cur initproc k0 (S n) kc'.
Proof.
  intros Hn (Hs & Hnp & Hnt & Hlen & Hall).
  destruct (lookup_lt_is_Some_2 (ptable k0) n Hn) as [qn Hqn].
  destruct (Hall n qn Hqn) as (qn' & Hqn' & Hstir & Hpar).
  rewrite decide_False in Hpar by lia.
  unfold reparent_step. rewrite Hqn'; simpl. rewrite Hpar.
  destruct (decide (parent qn = Proc cur)) as [Hchild | Hother].
  - (* a child: handed to [initproc], which is woken if the child is ZOMBIE *)
    assert (Hput : ∀ i q, ptable k0 !! i = Some q →
              ∃ q', <[n := set_parent initproc qn']> (ptable kc) !! i = Some q' ∧
                    stirred q q' ∧
                    parent q' = if decide ((i < S n)%nat ∧ parent q = Proc cur)
                                then initproc else parent q).
    { intros i q Hq. destruct (decide (i = n)) as [-> | Hne].
      - rewrite Hqn in Hq. injection Hq as <-. eexists.
        rewrite list_lookup_insert_eq by (rewrite Hlen; lia).
        split; [reflexivity |]. split.
        + eapply stirred_trans; [exact Hstir | apply stirred_parent].
        + simpl. rewrite decide_True; [done | split; [lia | done]].
      - destruct (Hall i q Hq) as (q' & Hq' & Hst' & Hp').
        exists q'. rewrite list_lookup_insert_ne by done.
        split_and!; try done. rewrite Hp'.
        destruct (decide ((i < n)%nat ∧ parent q = Proc cur)) as [[? ?] | Hno].
        + rewrite decide_True; [done | split; [lia | done]].
        + rewrite decide_False; [done |]. intros [? ?]. apply Hno. split; [lia | done]. }
    destruct (decide (state qn' = ZOMBIE)).
    + eexists. split; [reflexivity |]. unfold reparent_inv; simpl.
      rewrite length_fmap, length_insert. split_and!; try done.
      intros i q Hq. destruct (Hput i q Hq) as (q' & Hq' & Hst' & Hp').
      exists (wake_proc (ptr_chan paddr initproc) q').
      rewrite list_lookup_fmap, Hq'. split_and!; try done.
      * eapply stirred_trans; [exact Hst' | apply stirred_wake].
      * by rewrite wake_proc_parent.
    + eexists. split; [reflexivity |]. unfold reparent_inv; simpl.
      rewrite length_insert. split_and!; done.
  - (* not a child *)
    eexists. split; [reflexivity |]. unfold reparent_inv. split_and!; try done.
    intros i q Hq. destruct (Hall i q Hq) as (q' & Hq' & Hst' & Hp').
    exists q'. split_and!; try done. rewrite Hp'.
    destruct (decide ((i < n)%nat ∧ parent q = Proc cur)) as [[? ?] | Hno].
    + rewrite decide_True; [done | split; [lia | done]].
    + rewrite decide_False; [done |]. intros [Hlt Hpc]. apply Hno.
      split; [| done]. destruct (decide (i = n)) as [-> | ?]; [| lia].
      rewrite Hqn in Hq. injection Hq as <-. done.
Qed.

(** The table after the wake-up of the parent and the loop over the
    children. *)
Lemma reparent_run (cur : nat) (initproc : procptr) (k : kernel) (c : Z) :
  length (ptable k) = NPROC →
  ∃ k2, fold_result (reparent_step paddr cur initproc) (seq 0 NPROC) (wakeup1 k c)
        = Ok k2 ∧
        sched k2 = sched k ∧ nextpid k2 = nextpid k ∧ nexttid k2 = nexttid k ∧
        length (ptable k2) = length (ptable k) ∧
        ∀ i q, ptable k !! i = Some q →
          ∃ q', ptable k2 !! i = Some q' ∧ stirred (wake_proc c q) q' ∧
                parent q' = if decide (parent q = Proc cur)
                            then initproc else parent q.
Proof.
  intros Hlen.
  destruct (fold_result_seq (reparent_inv cur initproc (wakeup1 k c))
              (reparent_step paddr cur initproc) NPROC 0 (wakeup1 k c))
    as (k2 & Hrun & Hs & Hnp & Hnt & Hl & Hall).
  - unfold reparent_inv. split_and!; try done.
    intros i q Hq. exists q. split_and!; [done | apply stirred_refl |].
    rewrite decide_False; [done | lia].
  - intros i kc Hi Hinv. apply reparent_inv_step; [| done].
    simpl. rewrite length_fmap. lia.
  - exists k2. split; [done |]. simpl in *. rewrite length_fmap in Hl.
    split_and!; try done.
    intros i q Hq.
    destruct (Hall i (wake_proc c q)) as (q' & Hq' & Hst & Hp).
    { by rewrite list_lookup_fmap, Hq. }
    exists q'. split_and!; try done. rewrite Hp, wake_proc_parent.
    pose proof (lookup_lt_Some _ _ _ Hq) as Hi.
    destruct (decide (parent q = Proc cur)) as [Hc | Hc].
    + rewrite decide_True; [done | split; [lia | done]].
    + rewrite decide_False; [done | by intros [_ ?]].
Qed.

Lemma stirred_wake_fields (c : Z) (q q' : proc) :
  stirred (wake_proc c q) q' →
  state q' = state q ∧ pid q' = pid q ∧ killed q' = killed q ∧
  tidx q' = tidx q ∧ kstacks q' = kstacks q ∧ ustacks q' = ustacks q ∧
  pmlfq q' = pmlfq q ∧ length (threads q') = length (threads q).
Proof.
  intros (? & ? & ? & ? & ? & ? & ? & ? & ? & Ht).
  destruct (wake_proc_fields c q)
    as (? & ? & ? & ? & ? & ? & ? & ? & ? & ? & Hl).
  apply Forall2_length in Ht. split_and!; congruence.
Qed.

Lemma exit_run (k : kernel) (cur : nat) (initproc : procptr) (p : proc) :
  ptable k !! cur = Some p → Proc cur ≠ initproc →
  length (ptable k) = NPROC →
  ∃ k2 p2,
    fold_result (reparent_step paddr cur initproc) (seq 0 NPROC)
      (wakeup1 k (ptr_chan paddr (parent p))) = Ok k2 ∧
    ptable k2 !! cur = Some p2 ∧
    stirred (wake_proc (ptr_chan paddr (parent p)) p) p2 ∧
    sched k2 = sched k ∧ length (ptable k2) = length (ptable k) ∧
    (∀ i q, ptable k !! i = Some q →
       ∃ q', ptable k2 !! i = Some q' ∧
             stirred (wake_proc (ptr_chan paddr (parent p)) q) q' ∧
             parent q' = if decide (parent q = Proc cur)
                         then initproc else parent q) ∧
    exit paddr k cur initproc
    = Ok (set_ptable
            (<[cur := set_threads
                        ((λ t, if decide (t_state t = UNUSED) then t
                               else set_t_state ZOMBIE t) <$> threads p2)
                        (set_state ZOMBIE p2)]> (ptable k2)) k2).
Proof.
  intros Hp Hinit Hlen.
  destruct (reparent_run cur initproc k (ptr_chan paddr (parent p)) Hlen)
    as (k2 & Hrun & Hs & _ & _ & Hl & Hall).
  destruct (Hall cur p Hp) as (p2 & Hp2 & Hst & _).
  exists k2, p2. split_and!; try done.
  unfold exit. destruct (decide (Proc cur = initproc)); [done |].
  rewrite Hp; simpl. rewrite Hrun; simpl. by rewrite Hp2.
Qed.

(** X20.  [exit] by [initproc] stops in a [panic].  For any other process
    it returns to the scheduler with the process ZOMBIE, every thread of
    it that was in use ZOMBIE (so that none of them can be chosen again),
    every child handed over to [initproc], and every thread that sleeps on
    the address of the parent in a RUNNABLE process made RUNNABLE; the
    scheduler structures and the other fields of the other processes are
    as they were. *)
Theorem exit_marks (k : kernel) (cur : nat) (initproc : procptr) (p : proc) :
  ptable k !! cur = Some p → length (ptable k) = NPROC →
  (Proc cur = initproc →
   exit paddr k cur initproc = Err (Panic "init exiting")) ∧
  (Proc cur ≠ initproc →
   ∃ k' pc,
     exit paddr k cur initproc = Ok k' ∧ sched k' = sched k ∧
     ptable k' !! cur = Some pc ∧ exited p pc ∧ runnable pc = -1 ∧
     (∀ i q, i ≠ cur → ptable k !! i = Some q →
        ∃ q', ptable k' !! i = Some q' ∧
              state q' = state q ∧ pid q' = pid q ∧ killed q' = killed q ∧
              pmlfq q' = pmlfq q ∧
              parent q' = if decide (parent q = Proc cur)
                          then initproc else parent q) ∧
     (∀ i j q s, i ≠ cur → ptable k !! i = Some q → threads q !! j = Some s →
        woken (ptr_chan paddr (parent p)) q s →
        t_state <$> thread_at k' i j = Some RUNNABLE)).
Proof.
  intros Hp Hlen. split.
  { intros Hinit. unfold exit. by destruct (decide (Proc cur = initproc)). }
  intros Hinit.
  destruct (exit_run k cur initproc p Hp Hinit Hlen)
    as (k2 & p2 & _ & Hp2 & Hst & Hs & Hl & Hall & Hrun).
  rewrite Hrun. eexists _, _. split; [reflexivity |]. simpl.
  rewrite list_lookup_insert_eq by (by eapply lookup_lt_Some).
  destruct (stirred_wake_fields _ _ _ Hst) as (? & ? & ? & ? & ? & ? & ? & Hlt).
  assert (Hthreads : Forall (λ t, t_state t = UNUSED ∨ t_state t = ZOMBIE)
            ((λ t, if decide (t_state t = UNUSED) then t
                   else set_t_state ZOMBIE t) <$> threads p2)).
  { apply Forall_fmap, Forall_forall. intros t _. simpl.
    destruct (decide (t_state t = UNUSED)); [by left | by right]. }
  split_and!; try done.
  - unfold exited; simpl. rewrite length_fmap. split_and!; done.
  - unfold runnable; simpl.
    destruct (list_find _ _) as [[ti t] |] eqn:Hf; [| done].
    apply list_find_Some in Hf as (Ht & Hr & _).
    rewrite Forall_lookup in Hthreads.
    destruct (Hthreads ti t Ht); congruence.
  - intros i q Hne Hq. destruct (Hall i q Hq) as (q' & Hq' & Hst' & Hpar).
    exists q'. rewrite list_lookup_insert_ne by done.
    destruct (stirred_wake_fields _ _ _ Hst') as (? & ? & ? & ? & ? & ? & ? & ?).
    split_and!; done.
  - intros i j q s Hne Hq Hsj (Hqr & Hss & Hsc).
    destruct (Hall i q Hq) as (q' & Hq' & Hst' & _).
    unfold thread_at; simpl. rewrite list_lookup_insert_ne by done.
    rewrite Hq'; simpl.
    destruct Hst' as (_ & _ & _ & _ & _ & _ & _ & _ & _ & Hts).
    assert (Hw : threads (wake_proc (ptr_chan paddr (parent p)) q) !! j
                 = Some (set_t_state RUNNABLE s)).
    { unfold wake_proc. rewrite decide_True by done. simpl.
      rewrite list_lookup_fmap, Hsj; simpl. by rewrite wake_thread_hit. }
    destruct (Forall2_lookup_l _ _ _ _ _ Hts Hw) as (s' & Hs' & Hrel).
    rewrite Hs'; simpl. by destruct Hrel as [-> | [? ->]].
Qed.

Lemma wait_scan_find (pt : list proc) (cur i : nat) (hk : bool) :
  wait_scan pt cur i hk
  = match list_find (λ q, parent q = Proc cur ∧ state q = ZOMBIE) pt with
    | Some (n, _) => inl (i + n)%nat
    | None => inr (hk || bool_decide (Exists (λ q, parent q = Proc cur) pt))
    end.
Proof.
  revert i hk. induction pt as [| q pt IH]; intros i hk.
  { cbn [wait_scan list_find]. rewrite bool_decide_eq_false_2;
      [by rewrite orb_false_r |]. by intros ?%Exists_nil. }
  cbn [wait_scan list_find].
  destruct (decide (parent q = Proc cur)) as [Hc | Hc].
  - destruct (decide (state q = ZOMBIE)) as [Hz | Hz].
    + rewrite decide_True by done. by rewrite Nat.add_0_r.
    + rewrite decide_False by (by intros [_ ?]). rewrite IH.
      destruct (list_find _ pt) as [[n x] |]; simpl.
      * f_equal. lia.
      * rewrite (bool_decide_eq_true_2 (Exists _ (q :: pt)))
          by (by apply Exists_cons_hd).
        by rewrite orb_true_r.
  - rewrite decide_False by (by intros [? _]). rewrite IH.
    destruct (list_find _ pt) as [[n x] |]; simpl.
    + f_equal. lia.
    + do 2 f_equal. apply bool_decide_ext. rewrite Exists_cons. tauto.
Qed.

(** X21.  One pass of [wait]: with no child in the table it returns -1
    at once, and so it does when it has children, none of them ZOMBIE, and
    the caller has been killed; with children, none ZOMBIE, and the caller
    not killed, the caller goes to sleep on its own address; and when a
    child is ZOMBIE the first such child in table order is freed - slot
    UNUSED, pid and parent cleared, every thread UNUSED without id, no
    stack kept, its entry in its MLFQ level emptied - and its pid is
    returned. *)
Theorem wait_outcomes (k : kernel) (cur : nat) (p : proc) (t : thread) :
  ptable k !! cur = Some p → threads p !! tidx p = Some t →
  ((∀ i q, ptable k !! i = Some q → parent q ≠ Proc cur) →
   wait paddr k cur = Ok (WaitNone k)) ∧
  ((∃ i q, ptable k !! i = Some q ∧ parent q = Proc cur) →
   (∀ i q, ptable k !! i = Some q → parent q = Proc cur → state q ≠ ZOMBIE) →
   (killed p ≠ 0 → wait paddr k cur = Ok (WaitNone k)) ∧
   (killed p = 0 →
    ∃ k', wait paddr k cur = Ok (WaitSleep k') ∧ sched k' = sched k ∧
          thread_at k' cur (tidx p)
            = Some (mkThread SLEEPING (tid t) (kstack t) (paddr cur) (retval t)) ∧
          ∀ i, i ≠ cur → ptable k' !! i = ptable k !! i)) ∧
  (∀ i q L ql,
     ptable k !! i = Some q → parent q = Proc cur → state q = ZOMBIE →
     (∀ j q', ptable k !! j = Some q' → (j < i)%nat →
              ¬ (parent q' = Proc cur ∧ state q' = ZOMBIE)) →
     level (pmlfq q) = Z.of_nat L → queue (sched k) !! L = Some ql →
     (index (pmlfq q) < length ql)%nat →
     ∃ k' q',
       wait paddr k cur = Ok (WaitDone k' (pid q)) ∧
       ptable k' !! i = Some q' ∧ state q' = UNUSED ∧ pid q' = 0 ∧
       parent q' = Null ∧ killed q' = 0 ∧
       Forall (λ t, t_state t = UNUSED ∧ tid t = 0 ∧ kstack t = 0) (threads q') ∧
       Forall (λ s, s = 0) (kstacks q') ∧
       queue (sched k') !! L = Some (<[index (pmlfq q) := Null]> ql) ∧
       (∀ j, j ≠ i → ptable k' !! j = ptable k !! j)).
Proof.
  intros Hp Ht. unfold wait. rewrite wait_scan_find. split_and!.
  - intros Hnone.
    destruct (list_find _ (ptable k)) as [[n x] |] eqn:Hf.
    { apply list_find_Some in Hf as (Hx & [Hc _] & _). by destruct (Hnone n x). }
    rewrite Hp; simpl. rewrite bool_decide_eq_false_2; [done |].
    intros (q & [i Hq]%list_elem_of_lookup & Hc)%Exists_exists.
    by destruct (Hnone i q).
  - intros (i & q & Hq & Hc) Hnz.
    destruct (list_find _ (ptable k)) as [[n x] |] eqn:Hf.
    { apply list_find_Some in Hf as (Hx & [Hc' Hz] & _). by destruct (Hnz n x). }
    rewrite Hp; simpl. rewrite (bool_decide_eq_true_2 (Exists _ _)).
    2:{ apply Exists_exists. exists q. split; [| done].
        apply list_elem_of_lookup. by exists i. }
    simpl. split.
    + intros Hk. by rewrite bool_decide_eq_true_2.
    + intros Hk. rewrite bool_decide_eq_false_2 by (intros Hn; by apply Hn).
      unfold go_sleep. rewrite Hp; simpl. rewrite Ht; simpl.
      eexists. split; [reflexivity |]. simpl. split_and!; try done.
      * rewrite (thread_at_put k cur _ p) by done. simpl.
        by rewrite list_lookup_alter_eq, Ht.
      * intros j Hj. by rewrite list_lookup_insert_ne.
  - intros i q L ql Hq Hc Hz Hfirst HL Hql Hidx.
    assert (Hf : list_find (λ q, parent q = Proc cur ∧ state q = ZOMBIE) (ptable k)
                 = Some (i, q)).
    { apply list_find_Some. split_and!; try done. }
    rewrite Hf. simpl.
    unfold wait_reap, mlfq_delete. rewrite Hq; simpl.
    rewrite list_lookup_insert_eq by (by eapply lookup_lt_Some). simpl.
    destruct (decide (level (pmlfq q) = -1)); [lia |].
    rewrite HL. erewrite clear_slot_ok; [| exact Hql | done]. simpl.
    eexists _, _. split; [reflexivity |]. simpl.
    rewrite list_lookup_insert_eq by (by eapply lookup_lt_Some).
    split; [reflexivity |]. simpl. split_and!; try done.
    + apply Forall_fmap, Forall_forall. intros s _. done.
    + apply Forall_fmap, Forall_forall. intros s _. done.
    + apply list_lookup_insert_eq. by eapply lookup_lt_Some.
    + intros j Hj. by rewrite list_lookup_insert_ne.
Qed.

(** X22.  The end of a process: when a process of the MLFQ whose parent
    is [par] calls [exit] and no other process of the table is ZOMBIE, the
    next [wait] of the parent returns the pid of that process at once,
    its slot is UNUSED again with pid 0, and the entry it had in its MLFQ
    level is empty. *)
Theorem exit_then_wait (k : kernel) (cur par L : nat) (initproc : procptr)
    (p : proc) (ql : list procptr) :
  ptable k !! cur = Some p → length (ptable k) = NPROC →
  Proc cur ≠ initproc → parent p = Proc par → par ≠ cur →
  (∀ j q, ptable k !! j = Some q → j ≠ cur → state q ≠ ZOMBIE) →
  level (pmlfq p) = Z.of_nat L → queue (sched k) !! L = Some ql →
  (index (pmlfq p) < length ql)%nat →
  ∃ k1 k2 q',
    exit paddr k cur initproc = Ok k1 ∧
    wait paddr k1 par = Ok (WaitDone k2 (pid p)) ∧
    ptable k2 !! cur = Some q' ∧ state q' = UNUSED ∧ pid q' = 0 ∧
    queue (sched k2) !! L = Some (<[index (pmlfq p) := Null]> ql).
Proof.
  intros Hp Hlen Hinit Hpar Hne Hnoz HL Hql Hidx.
  destruct (exit_run k cur initproc p Hp Hinit Hlen)
    as (k2 & p2 & _ & Hp2 & Hst & Hs & Hl & Hall & Hrun).
  rewrite Hrun. eexists _, _, _. split; [reflexivity |].
  destruct (stirred_wake_fields _ _ _ Hst) as (? & Hpid & ? & ? & ? & ? & Hm & ?).
  destruct (Hall cur p Hp) as (p2' & Hp2' & _ & Hparent).
  rewrite Hp2 in Hp2'. injection Hp2' as <-.
  rewrite decide_False in Hparent by congruence.
  pose proof (lookup_lt_Some _ _ _ Hp2) as Hcur.
  unfold wait. rewrite wait_scan_find.
  match goal with
  | |- context [list_find ?P (ptable (set_ptable (<[cur := ?pc]> _) _))] =>
      assert (Hf : list_find P (<[cur := pc]> (ptable k2)) = Some (cur, pc))
  end.
  { apply list_find_Some. split_and!.
    - by apply list_lookup_insert_eq.
    - simpl. congruence.
    - done.
    - intros j q Hq Hj [_ Hz]. rewrite list_lookup_insert_ne in Hq by lia.
      destruct (lookup_lt_is_Some_2 (ptable k) j) as [q0 Hq0].
      { apply lookup_lt_Some in Hq. lia. }
      destruct (Hall j q0 Hq0) as (q1 & Hq1 & Hst1 & _).
      rewrite Hq in Hq1. injection Hq1 as <-.
      destruct (stirred_wake_fields _ _ _ Hst1) as (Hs1 & _).
      apply (Hnoz j q0 Hq0); [lia | congruence]. }
  simpl. rewrite Hf. simpl.
  unfold wait_reap, mlfq_delete. simpl.
  rewrite list_lookup_insert_eq by done. simpl.
  rewrite list_lookup_insert_eq by (by rewrite length_insert). simpl.
  rewrite Hm. destruct (decide (level (pmlfq p) = -1)); [lia |].
  rewrite HL. erewrite clear_slot_ok; [| simpl; rewrite Hs; exact Hql | done].
  simpl. split. { by rewrite Hpid. }
  unfold set_sched, set_ptable; simpl.
  rewrite list_lookup_insert_eq by (by rewrite length_insert).
  split; [reflexivity |]. simpl. split_and!; try done.
  rewrite Hs. apply list_lookup_insert_eq. by eapply lookup_lt_Some.
Qed.

End Lifecycle.

(** ** From [pinit] to the first process on the CPU *)

Section Boot.
Context `{Config}.

Lemma wf_stride_init (pt : list proc) : (0 < NPROC)%nat → wf_stride pt stride_init.
Proof.
  intros Hpos. unfold wf_stride, stride_init; simpl.
  rewrite !length_replicate, !drop_0. split_and!; try done; try lia.
  by apply Forall2_replicate.
Qed.

Lemma find_free_replicate (n : nat) :
  (0 < n)%nat → find_free (replicate n Null) = Some 0%nat.
Proof.
  intros Hn. apply find_free_Some. split.
  - apply lookup_replicate. done.
  - intros j x _ Hj. lia.
Qed.

Lemma pinit_alloc (page : Z) :
  (0 < NPROC)%nat → (0 < NTHREAD)%nat → page ≠ 0 →
  allocproc pinit page
  = Ok (allocated pinit 0 0 zero_proc zero_thread page, Proc 0).
Proof.
  intros Hp Ht Hpage.
  apply (allocproc_page pinit 0 0 zero_proc zero_thread (replicate NPROC Null));
    try done.
  - apply list_find_Some. split_and!.
    + by apply lookup_replicate.
    + done.
    + intros j y _ Hj. lia.
  - by apply lookup_replicate.
  - by apply find_free_replicate.
Qed.

(** X23.  Booting: after [pinit], a [userinit] that gets its memory makes
    slot 0 the first process - pid 1, RUNNABLE on thread 0, in slot 0 of
    MLFQ level 0 - and leaves a state in which every array has its size,
    every queue entry is a process and the stride slots are consistent; the
    first turn of the scheduler then hands the CPU to thread 0 of that
    process. *)
Theorem boot_runs_init (page pgd pgsize : Z) (p : procptr) (idx now : Z) :
  (0 < NPROC)%nat → (0 < NTHREAD)%nat → page ≠ 0 → pgd ≠ 0 →
  ∃ k1 k2 p0,
    userinit pinit page pgd pgsize = Ok (k1, Proc 0) ∧
    wf_shape k1 ∧ wf_queues k1 ∧ wf_stride (ptable k1) (metasched (sched k1)) ∧
    pids_below k1 ∧ tids_below k1 ∧
    ptable k1 !! 0%nat = Some p0 ∧ state p0 = RUNNABLE ∧ pid p0 = 1 ∧
    sz p0 = pgsize ∧ pgdir p0 = pgd ∧
    entry_at k1 (0%nat, 0%nat) = Some (Proc 0) ∧
    sched_select k1 MLFQ_NEXT p idx now = Ok (Switch k2 0 0) ∧
    handed k1 k2 0 0 now.
Proof.
  intros Hp Ht Hpage Hpgd.
  unfold userinit. rewrite (pinit_alloc page Hp Ht Hpage). simpl.
  rewrite list_lookup_insert_eq by (by rewrite length_replicate). simpl.
  destruct (decide (pgd = 0)) as [| _]; [done |].
  rewrite list_insert_insert_eq.
  match goal with
  | |- ∃ k1 k2 p0, Ok (?k, Proc 0) = _ ∧ _ => set (k1 := k)
  end.
  assert (Hp0 : ∃ p0, ptable k1 !! 0%nat = Some p0 ∧ state p0 = RUNNABLE ∧
                      pid p0 = 1 ∧ sz p0 = pgsize ∧ pgdir p0 = pgd ∧
                      threads p0 !! 0%nat
                      = Some (mkThread RUNNABLE 1 page 0 0)).
  { eexists. unfold k1; simpl.
    rewrite list_lookup_insert_eq by (by rewrite length_replicate).
    split; [reflexivity |]. simpl. split_and!; try done.
    rewrite list_lookup_alter_eq.
    rewrite list_lookup_insert_eq by (by rewrite length_replicate). done. }
  destruct Hp0 as (p0 & Hp0 & Hs0 & Hpid0 & Hsz0 & Hpg0 & Ht0).
  assert (Hrest : ∀ i q, i ≠ 0%nat → ptable k1 !! i = Some q → q = zero_proc).
  { intros i q Hi Hq. unfold k1 in Hq; simpl in Hq.
    rewrite list_lookup_insert_ne in Hq by done.
    by apply lookup_replicate in Hq as [-> _]. }
  assert (Hq0 : queue (sched k1) !! 0%nat
                = Some (<[0%nat := Proc 0]> (replicate NPROC Null))).
  { unfold k1; simpl. done. }
  assert (Hwf : wf_shape k1).
  { unfold wf_shape, k1; simpl.
    rewrite !length_insert, !length_replicate.
    split_and!; try done; try lia.
    - repeat constructor; by rewrite ?length_insert, length_replicate.
    - repeat constructor; done. }
  assert (Hval : wf_queues k1).
  { unfold wf_queues, k1; simpl. repeat constructor.
    - apply Forall_insert; [by apply Forall_replicate |]. simpl.
      rewrite length_insert, length_replicate. done.
    - by apply Forall_replicate.
    - by apply Forall_replicate. }
  assert (Hst : wf_stride (ptable k1) (metasched (sched k1))).
  { by apply wf_stride_init. }
  assert (Hrun0 : runnable p0 = 0).
  { unfold runnable.
    destruct (list_find _ (threads p0)) as [[ti t] |] eqn:Hf.
    - apply list_find_Some in Hf as (_ & _ & Hbefore).
      destruct ti as [| ti]; [done |].
      exfalso. apply (Hbefore 0%nat _ Ht0); [lia | done].
    - rewrite list_find_None, Forall_lookup in Hf. by destruct (Hf 0%nat _ Ht0). }
  destruct (sched_select_cases k1 p idx now Hwf Hval Hst)
    as (r & Hr & [(k' & _ & _ & _ & Hidle & _) | (k2 & n & ti & -> & Hh)]).
  { exfalso. apply (Hidle 0%nat _ Hq0 0%nat). exists 0%nat, p0.
    split_and!; [| done | by apply runnable_has; lia].
    apply list_lookup_insert_eq. by rewrite length_replicate. }
  pose proof Hh as (pn & tn & _ & Hpn & (tn' & Htn' & Hrn & Hfirst) & _).
  assert (n = 0%nat) as ->.
  { destruct (decide (n = 0%nat)) as [| Hn]; [done |]. exfalso.
    rewrite (Hrest n pn Hn Hpn) in Htn'. simpl in Htn'.
    apply lookup_replicate in Htn' as [-> _]. done. }
  rewrite Hp0 in Hpn. injection Hpn as <-.
  assert (ti = 0%nat) as ->.
  { destruct ti as [| ti]; [done |]. exfalso.
    apply (Hfirst 0%nat _ Ht0); [lia | done]. }
  exists k1, k2, p0. split_and!; try done.
  - apply Forall_lookup. intros i q Hq.
    destruct (decide (i = 0%nat)) as [-> | Hi].
    + rewrite Hp0 in Hq. injection Hq as <-. rewrite Hpid0. simpl.
      unfold int_add. rewrite wrap_int_id; [lia |].
      unfold is_int, INT_MIN, INT_MAX. lia.
    + rewrite (Hrest i q Hi Hq). simpl.
      unfold int_add. rewrite wrap_int_id; [lia |].
      unfold is_int, INT_MIN, INT_MAX. lia.
  - assert (Hnt : nexttid k1 = 2).
    { simpl. unfold int_add. rewrite wrap_int_id; [lia |].
      unfold is_int, INT_MIN, INT_MAX. lia. }
    apply Forall_lookup. intros i q Hq. rewrite Hnt.
    destruct (decide (i = 0%nat)) as [-> | Hi].
    + unfold k1 in Hq; simpl in Hq.
      rewrite list_lookup_insert_eq in Hq by (by rewrite length_replicate).
      injection Hq as <-. simpl. apply Forall_lookup. intros j t Hj.
      rewrite list_lookup_alter in Hj. destruct (decide (0%nat = j)) as [<- | Hj0].
      * rewrite list_lookup_insert_eq in Hj by (by rewrite length_replicate).
        injection Hj as <-. simpl. lia.
      * rewrite list_lookup_insert_ne in Hj by done.
        apply lookup_replicate in Hj as [-> _]. simpl. lia.
    + rewrite (Hrest i q Hi Hq). simpl. apply Forall_replicate. simpl. lia.
  - unfold entry_at, entry2; simpl.
    apply list_lookup_insert_eq. by rewrite length_replicate.
Qed.

End Boot.

(** ** The older stride functions *)

Section LegacyMore.
Context `{Config}.

Lemma legacy_loop_back (this : Legacy.stride) (i1 : nat) (x x0 : f32) :
  (0 < i1 < NPROC)%nat → length (Legacy.pass this) = NPROC →
  Legacy.pass this !! i1 = Some x → Legacy.pass this !! 0%nat = Some x0 →
  f32_ltb x x0 = true →
  ∀ fuel i, (1 ≤ i ≤ i1)%nat → Legacy.stride_next_loop fuel this i = Err LoopBound.
Proof.
  intros Hi1 Hlen Hx Hx0 Hlt. induction fuel as [| fuel IH]; intros i Hi; [done |].
  simpl. destruct (Nat.eqb_spec i NPROC) as [| _]; [lia |].
  destruct (lookup_lt_is_Some_2 (Legacy.pass this) i) as [y Hy]; [lia |].
  rewrite Hy, Hx0; simpl.
  destruct (f32_ltb y x0) eqn:Hcmp.
  - apply IH. lia.
  - apply IH. destruct (decide (i = i1)) as [-> | Hne]; [| lia].
    rewrite Hx in Hy. injection Hy as <-. congruence.
Qed.

Lemma legacy_loop_through (this : Legacy.stride) :
  length (Legacy.pass this) = NPROC → length (Legacy.queue this) = NPROC →
  (∀ i x x0, (0 < i < NPROC)%nat → Legacy.pass this !! i = Some x →
             Legacy.pass this !! 0%nat = Some x0 → f32_ltb x x0 = false) →
  ∀ n i fuel, (1 ≤ i)%nat → (i + n = NPROC)%nat → (n < fuel)%nat →
    Legacy.stride_next_loop fuel this i = Err BadAccess.
Proof.
  intros Hlen Hlq Hno. induction n as [| n IH]; intros i fuel Hi Hin Hfuel.
  - destruct fuel as [| fuel]; [lia |]. simpl.
    destruct (Nat.eqb_spec i NPROC) as [-> | ]; [| lia].
    by rewrite lookup_ge_None_2 by lia.
  - destruct fuel as [| fuel]; [lia |]. simpl.
    destruct (Nat.eqb_spec i NPROC) as [| _]; [lia |].
    destruct (lookup_lt_is_Some_2 (Legacy.pass this) i) as [y Hy]; [lia |].
    destruct (lookup_lt_is_Some_2 (Legacy.pass this) 0) as [x0 Hx0]; [lia |].
    rewrite Hy, Hx0; simpl.
    rewrite (Hno i y x0) by (done || lia).
    apply IH; lia.
Qed.

(** X24.  The [stride_next] of the older [mlfq.c] never returns an entry
    of its queue.  If some slot after slot 0 has a pass that compares
    below that of slot 0 its loop goes back to slot 0 for ever - an unused
    slot, whose pass is -1, is such a slot as soon as the pass of slot 0
    is 0 or more; if none has, the loop ends and the function reads
    [queue[NPROC]], one past the end of the array. *)
Theorem legacy_stride_next_fate (this : Legacy.stride) :
  (0 < NPROC)%nat →
  length (Legacy.pass this) = NPROC → length (Legacy.queue this) = NPROC →
  ((∃ i x x0, (0 < i < NPROC)%nat ∧ Legacy.pass this !! i = Some x ∧
              Legacy.pass this !! 0%nat = Some x0 ∧ f32_ltb x x0 = true) →
   ∀ fuel, Legacy.stride_next fuel this = Err LoopBound) ∧
  ((∀ i x x0, (0 < i < NPROC)%nat → Legacy.pass this !! i = Some x →
              Legacy.pass this !! 0%nat = Some x0 → f32_ltb x x0 = false) →
   ∀ fuel, (NPROC ≤ fuel)%nat → Legacy.stride_next fuel this = Err BadAccess).
Proof.
  intros Hpos Hlen Hlq. split.
  - intros (i & x & x0 & Hi & Hx & Hx0 & Hlt) fuel. unfold Legacy.stride_next.
    apply (legacy_loop_back this i x x0); try done. lia.
  - intros Hno fuel Hfuel. unfold Legacy.stride_next.
    apply (legacy_loop_through this Hlen Hlq Hno (NPROC - 1)); lia.
Qed.

Lemma seed_of_max (ps : list f32) (m0 : f32) :
  f32_nan m0 = false →
  f32_nan (foldl Legacy.seed_step m0 ps) = false ∧
  f32_leb m0 (foldl Legacy.seed_step m0 ps) = true ∧
  (∀ j x, ps !! j = Some x → f32_ltb (foldl Legacy.seed_step m0 ps) x = false) ∧
  (foldl Legacy.seed_step m0 ps = m0 ∨ foldl Legacy.seed_step m0 ps ∈ ps).
Proof.
  revert m0. induction ps as [| a ps IH]; intros m0 Hm0; simpl.
  { split_and!; [done | by apply f32_leb_refl | done | by left]. }
  assert (Hstep : f32_nan (Legacy.seed_step m0 a) = false ∧
                  f32_leb m0 (Legacy.seed_step m0 a) = true ∧
                  ((f32_ltb m0 a = true ∧ Legacy.seed_step m0 a = a) ∨
                   (f32_ltb m0 a = false ∧ Legacy.seed_step m0 a = m0))).
  { unfold Legacy.seed_step. destruct (f32_ltb m0 a) eqn:Hc.
    - split_and!; [| by apply f32_lt_le | by left].
      by apply f32_ltb_key in Hc as (_ & Ha & _).
    - split_and!; [done | by apply f32_leb_refl | by right]. }
  destruct Hstep as (H1 & H2 & H3).
  destruct (IH (Legacy.seed_step m0 a) H1) as (Hnan & Hge & Hall & Hin).
  split_and!; [done | | |].
  - by eapply f32_leb_trans.
  - intros [| j] x Hx; simpl in Hx; [| by apply (Hall j)].
    injection Hx as <-. destruct H3 as [[_ Heq] | [Hc Heq]]; rewrite Heq in *.
    + by apply f32_leb_not_lt.
    + by apply (f32_le_not_lt m0).
  - destruct Hin as [-> | Hin].
    + destruct H3 as [[_ ->] | [_ ->]]; [right; left | by left].
    + right. by right.
Qed.

(** X25.  The [stride_append] of the older [mlfq.c] starts a newcomer at
    the largest pass of the table, or at 0 when no pass is above 0: the
    new pass is a number, not below 0, no pass the table held compares
    above it (so every pass that is a number is at most the new one), and
    it is 0 or one of them. *)
Theorem legacy_append_seeds_max (this this' : Legacy.stride)
    (pt pt' : list proc) (p : nat) (usage : Z) :
  Legacy.stride_append this pt p usage = Ok (this', pt', 1) →
  length (Legacy.pass this) = length (Legacy.queue this) →
  ∃ idx m,
    find_free (Legacy.queue this) = Some idx ∧
    Legacy.pass this' !! idx = Some m ∧
    f32_nan m = false ∧ f32_leb (f32_of_int 0) m = true ∧
    (∀ j x, Legacy.pass this !! j = Some x →
       f32_ltb m x = false ∧ (f32_nan x = false → f32_leb x m = true)) ∧
    (m = f32_of_int 0 ∨ m ∈ Legacy.pass this).
Proof.
  unfold Legacy.stride_append. intros Hrun Hlen.
  destruct (Legacy.maxima this <? int_add (Legacy.total this) usage);
    [congruence |].
  destruct (find_free (Legacy.queue this)) as [idx |] eqn:Hf; [| congruence].
  destruct (pt !! p) as [pr |]; simpl in Hrun; [| done].
  destruct (Legacy.ticket this !! 0%nat) as [t0 |]; simpl in Hrun; [| done].
  injection Hrun as <- <-. simpl.
  pose proof (find_free_lt _ _ Hf) as Hidx.
  destruct (seed_of_max (Legacy.pass this) (f32_of_int 0) eq_refl)
    as (Hnan & Hge & Hall & Hin).
  exists idx, (Legacy.seed_of (Legacy.pass this)).
  split_and!; try done.
  - apply list_lookup_insert_eq. lia.
  - intros j x Hx. split; [by apply (Hall j) |].
    intros Hnx. apply f32_not_lt_le; [done | done | by apply (Hall j)].
Qed.

(** In a table whose passes are all the same no slot is below slot 0. *)
Lemma flat_passes (n : nat) (c : f32) (i : nat) (x x0 : f32) :
  replicate n c !! i = Some x → replicate n c !! 0%nat = Some x0 →
  f32_ltb x x0 = false.
Proof.
  intros [-> _]%lookup_replicate [-> _]%lookup_replicate. apply f32_ltb_irrefl.
Qed.

End LegacyMore.

(** ** Entering and leaving a level *)

Section Levels.
Context `{Config}.

Lemma zlookup_Some {A : Type} (l : list A) (z : Z) (a : A) :
  zlookup l z = Some a → 0 <= z ∧ l !! Z.to_nat z = Some a.
Proof.
  unfold zlookup. destruct (Z.ltb_spec z 0); [done |]. intros Hl. split; [lia | done].
Qed.

(** X26.  [mlfq_append] reports MLFQ_FULL_QUEUE, changing nothing, exactly
    when the level has no empty slot; otherwise it puts the process in the
    first empty slot of the level, and a following [mlfq_delete] of the
    process gives back the scheduler exactly as it was. *)
Theorem mlfq_append_delete (k k1 : kernel) (p : nat) (lv : Z) (r : append_status) :
  mlfq_append k p lv = Ok (k1, r) →
  ∃ q, zlookup (queue (sched k)) lv = Some q ∧
    (r = MLFQ_FULL_QUEUE ↔ Null ∉ q) ∧
    (r = MLFQ_FULL_QUEUE → k1 = k) ∧
    (r = MLFQ_SUCCESS →
     ∃ idx pr' k2,
       find_free q = Some idx ∧
       zlookup (queue (sched k1)) lv = Some (<[idx := Proc p]> q) ∧
       ptable k1 !! p = Some pr' ∧ level (pmlfq pr') = lv ∧
       index (pmlfq pr') = idx ∧ elapsed (pmlfq pr') = 0 ∧
       mlfq_delete k1 p = Ok k2 ∧ sched k2 = sched k ∧ ptable k2 = ptable k1).
Proof.
  unfold mlfq_append. intros Hrun.
  destruct (zlookup (queue (sched k)) lv) as [q |] eqn:Hq; simpl in Hrun; [| done].
  exists q. split; [done |].
  pose proof (zlookup_Some _ _ _ Hq) as [Hlv Hq'].
  destruct (find_free q) as [idx |] eqn:Hf.
  2:{ injection Hrun as <- <-. split_and!; try done.
      split; [intros _; by apply find_free_None | done]. }
  destruct (ptable k !! p) as [pr |] eqn:Hp; simpl in Hrun; [| done].
  injection Hrun as <- <-.
  pose proof Hf as [Hnull _]%find_free_Some.
  pose proof (find_free_lt _ _ Hf) as Hidx.
  pose proof (lookup_lt_Some _ _ _ Hq') as Hlvlen.
  pose proof (lookup_lt_Some _ _ _ Hp) as Hplen.
  split_and!; try done.
  { split; [done |]. intros Hno. exfalso. apply Hno.
    apply list_elem_of_lookup. by exists idx. }
  intros _. eexists idx, _, _. split; [done |].
  assert (Hq1 : zlookup (<[Z.to_nat lv := <[idx := Proc p]> q]> (queue (sched k))) lv
                = Some (<[idx := Proc p]> q)).
  { unfold zlookup. destruct (Z.ltb_spec lv 0); [lia |].
    by apply list_lookup_insert_eq. }
  split; [exact Hq1 |]. simpl.
  rewrite list_lookup_insert_eq by done. split; [reflexivity |]. simpl.
  do 3 (split; [reflexivity |]). split.
  { unfold mlfq_delete; simpl. rewrite list_lookup_insert_eq by done. simpl.
    destruct (decide (lv = -1)); [lia |].
    unfold clear_slot; simpl. rewrite Hq1; simpl.
    rewrite list_lookup_insert_eq by done. simpl. reflexivity. }
  simpl. split; [| done].
  rewrite list_insert_insert_eq, (insert_back _ _ _ _ Hnull).
  rewrite list_insert_id by done. by destruct (sched k).
Qed.

End Levels.

(** ** Taking turns inside a level *)

Section Turns.
Context `{Config}.

(** In the circular order that starts after [pos], [pos] itself comes
    last. *)
Lemma circular_last (pos pos' n m : nat) :
  (pos < NPROC)%nat →
  circular (S pos mod NPROC) !! n = Some pos →
  circular (S pos mod NPROC) !! m = Some pos' →
  pos' ≠ pos → (m < n)%nat.
Proof.
  intros Hpos Hn Hm Hne. rewrite circular_after in Hn, Hm by done.
  apply lookup_app_Some in Hn as [Hn | [Hln Hn]];
    apply lookup_app_Some in Hm as [Hm | [Hlm Hm]];
    rewrite ?length_seq in *; apply lookup_seq in Hn, Hm; lia.
Qed.

(** X27.  Two calls of [mlfq_next] in a row, with nothing else changed in
    between: the second answers from the same level as the first, with the
    first entry that can run when the level is taken circularly from the
    slot after the one just chosen.  So it chooses another slot whenever
    another entry of the level can run, and the same slot again only when
    none can. *)
Theorem mlfq_next_alternates (k k1 : kernel) (t0 t1 t : Z) (j : nat) :
  wf_shape k → wf_queues k →
  mlfq_next k t0 = Ok (k1, Proc j, t) →
  ∃ l q pos k2 j2 t2 pos2,
    queue (sched k) !! l = Some q ∧ q !! pos = Some (Proc j) ∧
    iterstate (sched k1) !! l = Some pos ∧
    mlfq_next k1 t1 = Ok (k2, Proc j2, t2) ∧
    q !! pos2 = Some (Proc j2) ∧
    first_in (circular (S pos mod NPROC)) (entry_runs (ptable k) q) pos2 ∧
    ((∃ pos', pos' ≠ pos ∧ entry_runs (ptable k) q pos') → pos2 ≠ pos) ∧
    ((∀ pos', pos' ≠ pos → ¬ entry_runs (ptable k) q pos') → pos2 = pos).
Proof.
  intros Hwf Hval Hrun.
  pose proof Hwf
    as (Hpos & Hlpt & Hlqt & Hlex & Hlq & Hlens & Hli & Hits & Hlp & Hlt & Hls).
  destruct (mlfq_next_from_spec NMLFQ 0 k t0 Hwf Hval) as (k1' & ptr & t' & Hrun' & Hres);
    [done |].
  unfold mlfq_next in Hrun. rewrite Hrun in Hrun'. injection Hrun' as <- <- <-.
  destruct Hres as [(? & _) | Hfound]; [done |].
  destruct Hfound
    as (l & q & c & pos & j' & p & _ & Hql & Hcl & Hbelow & Hfirst & Hqp & Hp
        & [= <-] & -> & Hr & ->).
  pose proof (Forall_lookup_1 _ _ _ _ Hlens Hql) as Hlenq. simpl in Hlenq.
  pose proof (lookup_lt_Some _ _ _ Hqp) as Hposlt. rewrite Hlenq in Hposlt.
  pose proof (lookup_lt_Some _ _ _ Hcl) as Hllt.
  set (k1 := set_sched (set_iterstate (<[l := pos]> (iterstate (sched k))) (sched k)) k).
  assert (Hruns : entry_runs (ptable k) q pos).
  { by destruct Hfirst as (n & _ & Hpr & _). }
  assert (Hwf1 : wf_shape k1).
  { unfold wf_shape, k1; simpl. rewrite length_insert.
    split_and!; try done. by apply Forall_insert. }
  assert (Hval1 : wf_queues k1) by done.
  destruct (mlfq_next_from_spec NMLFQ 0 k1 t1 Hwf1 Hval1)
    as (k2 & ptr2 & t2 & Hrun2 & Hres2); [done |].
  destruct Hres2 as [(_ & _ & _ & Hidle) | Hfound2].
  { exfalso. apply (Hidle l q ltac:(lia) Hql pos). exact Hruns. }
  destruct Hfound2
    as (l2 & q2 & c2 & pos2 & j2 & p2 & _ & Hql2 & Hcl2 & Hbelow2 & Hfirst2
        & Hqp2 & Hp2 & -> & -> & Hr2 & ->).
  simpl in Hql2, Hcl2, Hbelow2, Hfirst2, Hp2.
  assert (l2 = l) as ->.
  { destruct (Nat.lt_trichotomy l2 l) as [Hlow | [-> | Hhigh]]; [| done |].
    - exfalso. apply (Hbelow l2 q2 ltac:(lia) Hql2 pos2).
      destruct Hfirst2 as (n & _ & Hpr & _). exact Hpr.
    - exfalso. apply (Hbelow2 l q ltac:(lia) Hql pos). exact Hruns. }
  rewrite Hql in Hql2. injection Hql2 as <-.
  rewrite list_lookup_insert_eq in Hcl2 by done. injection Hcl2 as <-.
  eexists l, q, pos, _, j2, (runnable p2), pos2.
  split_and!; try done.
  - simpl. by apply list_lookup_insert_eq.
  - intros (pos' & Hne & Hruns') ->.
    destruct Hfirst2 as (n & Hn & _ & Hbefore).
    assert (Hs : (S pos mod NPROC ≤ NPROC)%nat).
    { apply Nat.lt_le_incl, Nat.mod_upper_bound. lia. }
    assert (Hlt' : (pos' < NPROC)%nat).
    { destruct Hruns' as (? & ? & Hq' & _). apply lookup_lt_Some in Hq'. lia. }
    destruct (proj1 (list_elem_of_lookup _ _) (circular_all _ pos' Hs Hlt'))
      as [m Hm].
    apply (Hbefore m pos'); [| done | done].
    by apply (circular_last pos pos' n m).
  - intros Hnone. destruct (decide (pos2 = pos)) as [| Hne]; [done |].
    exfalso. apply (Hnone pos2 Hne). by destruct Hfirst2 as (n & _ & Hpr & _).
Qed.

End Turns.

(** ** The statements at sample states *)

Section EntryWitnesses.
#[local] Existing Instance sample_config.

Lemma sleep_wakeup_round_trip_witness :
  ∃ k1, go_sleep one_proc 0 5 = Ok k1 ∧
        thread_at (wakeup k1 5) 0 0 = Some (mkThread RUNNABLE 1 1 5 0) ∧
        thread_at (wakeup k1 6) 0 0 = Some (mkThread SLEEPING 1 1 5 0).
Proof.
  destruct (sleep_wakeup_round_trip one_proc 0 5 (live_proc 1 RUNNABLE 0 0)
              (mkThread RUNNABLE 1 1 0 0))
    as (k1 & Hrun & _ & Hother & Hown & _);
    [reflexivity | reflexivity | reflexivity |].
  exists k1. split; [exact Hrun |]. split; [exact Hown |].
  apply (Hother 6). discriminate.
Defined.

Lemma allocproc_fresh_ids_witness :
  ∃ k' p',
    allocproc one_proc 4096 = Ok (k', Proc 1) ∧ ptable k' !! 1%nat = Some p' ∧
    pid p' = 2 ∧ level (pmlfq p') = 0 ∧ index (pmlfq p') = 1%nat ∧
    pids_below k' ∧ tids_below k'.
Proof.
  destruct (allocproc_fresh_ids one_proc 1 1 idle_proc idle_thread
              (<[0%nat := Proc 0]> (replicate NPROC Null)) 4096)
    as (k' & p' & Hrun & Hp' & _ & Hpid & _ & _ & _ & Hl & Hi & _ & _ & _ & _
        & Hpids & Htids).
  - reflexivity.
  - reflexivity.
  - reflexivity.
  - reflexivity.
  - discriminate.
  - apply (bool_decide_unpack _). vm_compute. exact I.
  - apply (bool_decide_unpack _). vm_compute. exact I.
  - vm_compute. split; [discriminate | reflexivity].
  - vm_compute. split; [discriminate | reflexivity].
  - exists k', p'. split_and!; done.
Defined.


Lemma kill_zero_marks_free_slot_witness :
  (kill one_proc 0).2 = 0 ∧
  ∃ k' p',
    allocproc (kill one_proc 0).1 4096 = Ok (k', Proc 1) ∧
    ptable k' !! 1%nat = Some p' ∧ state p' = EMBRYO ∧ pid p' = 2 ∧
    killed p' = 1.
Proof.
  apply (kill_zero_marks_free_slot one_proc 1 1 idle_proc idle_thread
           (<[0%nat := Proc 0]> (replicate NPROC Null)) 4096);
    [reflexivity | reflexivity | | reflexivity | reflexivity | reflexivity
     | reflexivity | discriminate].
  intros j q Hq Hj. assert (j = 0%nat) as -> by lia.
  injection Hq as <-. discriminate.
Defined.

Lemma fork_child_witness :
  ∃ k' np,
    fork one_proc 0 4096 8192 = Ok (k', 2) ∧ ptable k' !! 1%nat = Some np ∧
    state np = RUNNABLE ∧ parent np = Proc 0 ∧ sz np = 4096.
Proof.
  destruct (fork_child one_proc 0 1 1 (live_proc 1 RUNNABLE 0 0) idle_proc
              idle_thread (<[0%nat := Proc 0]> (replicate NPROC Null)) 4096 8192)
    as (k' & np & Hrun & Hnp & _ & Hs & _ & Hpar & Hsz & _);
    [reflexivity | reflexivity | reflexivity | reflexivity | discriminate
     | discriminate | reflexivity | discriminate | vm_compute; lia |].
  exists k', np. split_and!; done.
Defined.

Lemma thread_create_outcomes_witness :
  ∃ k' r out, thread_create one_proc 0 4096 8192 = Ok (k', r, out) ∧
              sched k' = sched one_proc.
Proof.
  destruct (thread_create_outcomes one_proc 0 (live_proc 1 RUNNABLE 0 0) 4096 8192)
    as (k' & r & out & Hrun & Hs & _); [reflexivity | reflexivity | reflexivity |].
  by exists k', r, out.
Defined.

Lemma thread_exit_then_join_witness :
  ∃ k1 k2 p2,
    thread_exit threads_sample 0 42 = Ok k1 ∧
    thread_join k1 3 1 = Ok (JoinDone k2 42) ∧ ptable k2 !! 0%nat = Some p2 ∧
    threads p2 !! 0%nat = Some (mkThread UNUSED 0 0 0 0).
Proof.
  destruct (thread_exit_then_join threads_sample 0 3 42 threads_proc
              (mkThread RUNNING 1 1 0 0))
    as (k1 & Hrun & _ & _ & k2 & p2 & Hjoin & Hp2 & Ht & _);
    [reflexivity | reflexivity | reflexivity | |].
  - intros i j Hj%joinable_matches. vm_compute in Hj.
    apply list_elem_of_singleton in Hj. by injection Hj as -> ->.
  - by exists k1, k2, p2.
Defined.

Lemma join_then_create_reuses_stacks_witness :
  ∃ k1 k2 p2,
    thread_reap threads_sample 0 1 = Ok (k1, 99) ∧
    thread_create k1 0 0 0 = Ok (k2, 0, Some 10) ∧
    ptable k2 !! 0%nat = Some p2 ∧
    threads p2 !! 1%nat = Some (mkThread RUNNABLE 10 2 0 0) ∧ sz p2 = 12288.
Proof.
  destruct (join_then_create_reuses_stacks threads_sample 0 1 threads_proc
              (mkThread ZOMBIE 7 2 0 99) 2 8192 0 0)
    as (k1 & k2 & p2 & Hreap & Hrun & Hp2 & Ht & _ & Hsz & _);
    [reflexivity | reflexivity | | reflexivity | discriminate | reflexivity
     | discriminate |].
  - intros j s Hs Hj. assert (j = 0%nat) as -> by lia.
    injection Hs as <-. discriminate.
  - by exists k1, k2, p2.
Defined.

Lemma mlfq_yieldable_agrees_witness :
  ∃ b k' v,
    mlfq_yieldable one_proc 0 3 = Ok b ∧ mlfq_update one_proc 0 3 = Ok (k', v) ∧
    (b = true ↔ v = MLFQ_NEXT).
Proof.
  destruct (mlfq_yieldable_agrees one_proc 0 0 (live_proc 1 RUNNABLE 0 0) 20 5 3)
    as (b & k' & v & Hy & Hu & Hiff & _).
  - apply (bool_decide_unpack _). vm_compute. exact I.
  - reflexivity.
  - discriminate.
  - reflexivity.
  - reflexivity.
  - reflexivity.
  - reflexivity.
  - intros [_ Hex]. vm_compute in Hex. by apply Hex.
  - by exists b, k', v.
Defined.

Lemma mlfq_yieldable_stride_witness :
  mlfq_yieldable stride_sample 1 7 = Ok true ∧
  mlfq_yieldable stride_sample 1 3 = Err BadAccess.
Proof.
  split.
  - apply (proj1 (mlfq_yieldable_stride stride_sample 1
                    (live_proc 2 RUNNABLE (-1) 2) 7 eq_refl eq_refl)).
    vm_compute. discriminate.
  - apply (proj2 (mlfq_yieldable_stride stride_sample 1
                    (live_proc 2 RUNNABLE (-1) 2) 3 eq_refl eq_refl)).
    vm_compute. reflexivity.
Defined.

Lemma set_cpu_share_moves_witness :
  ∃ k' pr',
    set_cpu_share one_proc 0 20 = Ok (k', 0) ∧ ptable k' !! 0%nat = Some pr' ∧
    level (pmlfq pr') = -1 ∧ getlev k' (Proc 0) = Ok (-1).
Proof.
  destruct (set_cpu_share_moves one_proc 0 0 (live_proc 1 RUNNABLE 0 0)
              (<[0%nat := Proc 0]> (replicate NPROC Null)) 20)
    as [[Hno _] | (k' & idx & pr' & Hrun & _ & _ & _ & Hp & Hl & _ & Hg & _)];
    [reflexivity | reflexivity | reflexivity | vm_compute; lia | reflexivity
     | vm_compute; lia | |].
  - vm_compute in Hno. discriminate.
  - by exists k', pr'.
Defined.

Lemma set_cpu_share_twice_witness :
  set_cpu_share stride_sample 0 10 = Err BadAccess.
Proof.
  destruct (set_cpu_share_twice stride_sample 0 (live_proc 1 SLEEPING (-1) 1) 10)
    as [[Hno _] | [Hfault _]]; [reflexivity | reflexivity | vm_compute; lia | |].
  - vm_compute in Hno. discriminate.
  - exact Hfault.
Defined.

Lemma share_round_trip_witness :
  ∃ k2, mlfq_delete shared 0 = Ok k2 ∧ sched k2 = sched one_proc.
Proof.
  destruct (share_round_trip one_proc shared 0 20)
    as (k2 & Hdel & Hs & _).
  - vm_compute. reflexivity.
  - apply stride_init_free.
  - vm_compute. split; discriminate.
  - intros t0 [= <-]. vm_compute. split; discriminate.
  - by exists k2.
Defined.

Lemma mlfq_boost_lifts_witness :
  entry_at lifted (1%nat, 0%nat) = Some Null ∧
  entry_at lifted (2%nat, 1%nat) = Some Null ∧
  entry_at lifted (0%nat, 0%nat) = Some (Proc 0) ∧
  ∃ pr', ptable lifted !! 2%nat = Some pr' ∧
         level (pmlfq pr') = 0 ∧ elapsed (pmlfq pr') = 0 ∧
         entry_at lifted (0%nat, index (pmlfq pr')) = Some (Proc 2).
Proof.
  destruct (mlfq_boost_lifts boost_sample lifted) as (Hlow & Htop & Hmoved & _).
  { vm_compute. reflexivity. }
  split_and!.
  - apply Hlow. vm_compute. lia.
  - apply Hlow. vm_compute. lia.
  - apply Htop; [reflexivity | discriminate].
  - apply (Hmoved (2%nat, 1%nat) 2%nat); [vm_compute; lia | reflexivity].
Defined.

Lemma mlfq_boost_room_witness :
  (∃ k', mlfq_boost boost_sample = Ok k') ↔
  (lower_load boost_sample ≤ top_room boost_sample)%nat.
Proof.
  apply (mlfq_boost_room boost_sample).
  - apply (bool_decide_unpack _). vm_compute. exact I.
  - apply (bool_decide_unpack _). vm_compute. exact I.
Defined.


Lemma next_thread_round_robin_witness :
  ∃ k' pr',
    next_thread threads_sample 0 = Ok (SwitchTo k' 0 3) ∧
    ptable k' !! 0%nat = Some pr' ∧ tidx pr' = 3%nat.
Proof.
  destruct (next_thread_round_robin threads_sample 0 threads_proc
              (mkThread RUNNING 1 1 0 0))
    as (r & Hrun & [[_ ->] | (it & k' & pr' & -> & _ & Hp & Hti & _)]);
    [reflexivity | reflexivity | reflexivity | |].
  - vm_compute in Hrun. discriminate.
  - assert (it = 3%nat) as ->.
    { vm_compute in Hrun. by injection Hrun as _ ->. }
    by exists k', pr'.
Defined.

Lemma exit_marks_witness :
  exit sample_paddr family 0 (Proc 0) = Err (Panic "init exiting") ∧
  ∃ k' pc,
    exit sample_paddr family 1 (Proc 0) = Ok k' ∧
    ptable k' !! 1%nat = Some pc ∧ state pc = ZOMBIE ∧ runnable pc = -1 ∧
    parent <$> ptable k' !! 2%nat = Some (Proc 0).
Proof.
  split.
  - refine (proj1 (exit_marks sample_paddr family 0 (Proc 0)
                     (live_proc 1 RUNNABLE 0 0) _ _) _); reflexivity.
  - destruct (exit_marks sample_paddr family 1 (Proc 0)
                (set_parent (Proc 0) (live_proc 2 RUNNABLE 0 1)))
      as [_ Hexit]; [reflexivity | reflexivity |].
    destruct Hexit
      as (k' & pc & Hrun & _ & Hpc & (Hz & _) & Hr & Hkids & _); [discriminate |].
    exists k', pc. split_and!; try done.
    destruct (Hkids 2%nat (set_parent (Proc 1) (live_proc 3 SLEEPING 0 2)))
      as (q' & Hq' & _ & _ & _ & _ & Hpar); [lia | reflexivity |].
    rewrite Hq'. simpl. by rewrite Hpar.
Defined.

Lemma wait_outcomes_witness :
  wait sample_paddr family 2 = Ok (WaitNone family) ∧
  ∃ k', wait sample_paddr family 0 = Ok (WaitSleep k') ∧
        thread_at k' 0 0 = Some (mkThread SLEEPING 1 1 (sample_paddr 0) 0).
Proof.
  split.
  - destruct (wait_outcomes sample_paddr family 2
                (set_parent (Proc 1) (live_proc 3 SLEEPING 0 2))
                (mkThread SLEEPING 3 1 0 0)) as (Hnone & _);
      [reflexivity | reflexivity |].
    apply Hnone. intros i q Hq. revert i q Hq. apply Forall_lookup.
    apply (bool_decide_unpack _). vm_compute. exact I.
  - destruct (wait_outcomes sample_paddr family 0 (live_proc 1 RUNNABLE 0 0)
                (mkThread RUNNABLE 1 1 0 0)) as (_ & Hkids & _);
      [reflexivity | reflexivity |].
    destruct Hkids as [_ Hsleep].
    + exists 1%nat, (set_parent (Proc 0) (live_proc 2 RUNNABLE 0 1)).
      split; reflexivity.
    + intros i q Hq _. revert i q Hq. apply Forall_lookup.
      apply (bool_decide_unpack _). vm_compute. exact I.
    + destruct (Hsleep eq_refl) as (k' & Hrun & _ & Ht & _). by exists k'.
Defined.

Lemma exit_then_wait_witness :
  ∃ k1 k2 q',
    exit sample_paddr family 1 (Proc 0) = Ok k1 ∧
    wait sample_paddr k1 0 = Ok (WaitDone k2 2) ∧
    ptable k2 !! 1%nat = Some q' ∧ state q' = UNUSED ∧ pid q' = 0 ∧
    queue (sched k2) !! 0%nat
      = Some (Proc 0 :: Null :: Proc 2 :: replicate (NPROC - 3) Null).
Proof.
  apply (exit_then_wait sample_paddr family 1 0 0 (Proc 0)
           (set_parent (Proc 0) (live_proc 2 RUNNABLE 0 1))
           (Proc 0 :: Proc 1 :: Proc 2 :: replicate (NPROC - 3) Null));
    [reflexivity | reflexivity | discriminate | reflexivity | discriminate
     | | reflexivity | reflexivity | vm_compute; lia].
  intros j q Hq _. revert j q Hq. apply Forall_lookup.
  apply (bool_decide_unpack _). vm_compute. exact I.
Defined.

Lemma boot_runs_init_witness :
  ∃ k1 k2,
    userinit pinit 4096 8192 4096 = Ok (k1, Proc 0) ∧
    sched_select k1 MLFQ_NEXT Null 0 0 = Ok (Switch k2 0 0) ∧
    handed k1 k2 0 0 0.
Proof.
  destruct (boot_runs_init 4096 8192 4096 Null 0 0)
    as (k1 & k2 & p0 & Hrun & _ & _ & _ & _ & _ & _ & _ & _ & _ & _ & _ & Hsel & Hh);
    [vm_compute; lia | vm_compute; lia | discriminate | discriminate |].
  by exists k1, k2.
Defined.

Lemma legacy_stride_next_fate_witness :
  (∀ fuel, Legacy.stride_next fuel (Legacy.stride_init 80) = Err LoopBound) ∧
  (∀ fuel, (NPROC ≤ fuel)%nat →
           Legacy.stride_next fuel legacy_flat = Err BadAccess).
Proof.
  split.
  - refine (proj1 (legacy_stride_next_fate (Legacy.stride_init 80) _ _ _) _);
      [vm_compute; lia | reflexivity | reflexivity |].
    exists 1%nat, NOPASS, (f32_of_int 0).
    split; [vm_compute; lia |]. split; [reflexivity |]. split; [reflexivity |].
    vm_compute. reflexivity.
  - refine (proj2 (legacy_stride_next_fate legacy_flat _ _ _) _);
      [vm_compute; lia | reflexivity | reflexivity |].
    intros i x x0 _. apply (flat_passes NPROC (f32_of_int 0)).
Defined.

Lemma legacy_append_seeds_max_witness :
  ∃ idx m,
    find_free (Legacy.queue legacy_sample) = Some idx ∧
    Legacy.pass legacy_joined !! idx = Some m ∧
    f32_nan m = false ∧ f32_leb (f32_of_int 0) m = true ∧
    (∀ j x, Legacy.pass legacy_sample !! j = Some x →
       f32_ltb m x = false ∧ (f32_nan x = false → f32_leb x m = true)) ∧
    (m = f32_of_int 0 ∨ m ∈ Legacy.pass legacy_sample).
Proof.
  apply (legacy_append_seeds_max legacy_sample legacy_joined (ptable boot)
           legacy_joined_table 5 20).
  - vm_compute. reflexivity.
  - reflexivity.
Defined.

Lemma mlfq_append_delete_witness :
  ∃ k2, mlfq_delete entered 1 = Ok k2 ∧ sched k2 = sched one_proc.
Proof.
  destruct (mlfq_append_delete one_proc entered 1 0 MLFQ_SUCCESS)
    as (q & _ & _ & _ & Hok).
  { vm_compute. reflexivity. }
  destruct (Hok eq_refl) as (idx & pr' & k2 & _ & _ & _ & _ & _ & _ & Hdel & Hs & _).
  by exists k2.
Defined.

Lemma mlfq_next_alternates_witness :
  ∃ k2 j2 t2, mlfq_next picked 0 = Ok (k2, Proc j2, t2) ∧ j2 ≠ 1%nat.
Proof.
  destruct (mlfq_next_alternates rr_sample picked 0 0 0 1)
    as (l & q & pos & k2 & j2 & t2 & pos2 & Hq & Hpos & _ & Hrun & _).
  - apply (bool_decide_unpack _). vm_compute. exact I.
  - apply (bool_decide_unpack _). vm_compute. exact I.
  - vm_compute. reflexivity.
  - exists k2, j2, t2. split; [exact Hrun |].
    vm_compute in Hrun. injection Hrun as _ <- _. discriminate.
Defined.

Lemma stride_reachable_inv_witness : ticket_inv (metasched (sched shared_boot)).
Proof.
  apply stride_reachable_inv.
  - vm_compute. split_and!; try discriminate; lia.
  - apply (reach_append boot shared_boot 0 20 1).
    + apply reach_init. apply (bool_decide_unpack _). vm_compute. exact I.
    + vm_compute. split; discriminate.
    + vm_compute. reflexivity.
Defined.

Lemma stride_update_rescales_witness :
  ∃ y0 y1,
    pass (metasched (sched rounded)) !! 0%nat = Some y0 ∧
    y0 = f32_sub (f32_add (f32_of_int 1000000)
                    (f32_div (f32_of_int 100) (f32_of_int 70)))
           (f32_of_int 999000) ∧
    pass (metasched (sched rounded)) !! 1%nat = Some y1 ∧
    y1 = f32_sub (f32_div (f32_of_int 100) (f32_of_int 30)) (f32_of_int 999000) ∧
    (f32_val y1 == - (15983947 # 16))%Q ∧
    ¬ (f32_val y1
       == f32_val (f32_div (f32_of_int 100) (f32_of_int 30)) - 999000)%Q.
Proof.
  destruct (stride_update_rescales round_sample rounded MlfqProc 0
              (f32_of_int 1000000) 70 MLFQ_NEXT)
    as (_ & _ & _ & _ & _ & _ & _ & Hbig);
    [reflexivity | reflexivity | reflexivity | vm_compute; reflexivity |].
  assert (Hcross : f32_ltb (f32_of_int MAXPASS)
                     (f32_add (f32_of_int 1000000)
                        (f32_div (f32_of_int MAXTICKET) (f32_of_int 70)))
                   = true).
  { vm_compute. reflexivity. }
  destruct (Hbig Hcross 0%nat _ eq_refl) as (y0 & Hy0 & Hpos0 & _).
  destruct (Hbig Hcross 1%nat _ eq_refl) as (y1 & Hy1 & Hpos1 & _).
  exists y0, y1. split_and!; try done.
  - apply Hpos0. vm_compute. reflexivity.
  - apply Hpos1. vm_compute. reflexivity.
  - rewrite (Hpos1 ltac:(vm_compute; reflexivity)). vm_compute. reflexivity.
  - rewrite (Hpos1 ltac:(vm_compute; reflexivity)). vm_compute. discriminate.
Defined.

Lemma sched_account_charges_witness :
  ∃ k' pr',
    sched_account tired 0 100 105 200 = Ok (k', MLFQ_NEXT, 200) ∧
    ptable k' !! 0%nat = Some pr' ∧
    level (pmlfq pr') = 1 ∧ elapsed (pmlfq pr') = 0.
Proof.
  destruct (sched_account_charges tired 0 0 tired_proc 20 5 100 105 200
              (<[0%nat := Proc 0]> (replicate NPROC Null)))
    as [Hdue _].
  - apply (bool_decide_unpack _). vm_compute. exact I.
  - reflexivity.
  - discriminate.
  - reflexivity.
  - reflexivity.
  - reflexivity.
  - reflexivity.
  - reflexivity.
  - vm_compute. lia.
  - vm_compute. discriminate.
  - destruct (Hdue ltac:(split; [vm_compute; lia | vm_compute; discriminate])
                (replicate NPROC Null) 0%nat eq_refl eq_refl)
      as (k' & pr' & Hrun & Hp & Hl & _ & He & _).
    by exists k', pr'.
Defined.

End EntryWitnesses.
